(** * Rätzel Winter 2025: time gate, token verification, answer verification

  A shallow embedding of the JavaScript sources of the contest engine:
  - [WR_TIME] (time.berlin.js, time.berlin.backup.js): per-door release times;
  - [TimeBerlin], [WinterRallyeApp] (time.berlin.js, main.js): the older
    month/day availability test;
  - [AnswersStore] (music.js): rule-driven answer normalisation and check;
  - [QRVerify] (the QR verification script): signed-token verification and
    its cache;
  - [AnswerUtil] (answer.util.js): hashed answer verification and its cache.

  JavaScript strings are sequences of UTF-16 code units, JavaScript dates
  are time values (milliseconds since the epoch, or Invalid Date), and the
  host's built-ins are written out after ECMA-262 where the sources rely on
  them. *)

From Stdlib Require Import ZArith NArith List Bool Lia String Ascii.
From Stdlib Require Import Permutation Sorted.
Import ListNotations.

Set Implicit Arguments.
Set Warnings "-register-all".

(* ===================================================================== *)
(** * JavaScript strings *)
(* ===================================================================== *)

Module JsString.

(** A string is the list of its UTF-16 code units. *)
Definition jsstring := list N.

(** A literal of the source whose characters are all ASCII. *)
Definition js (s : string) : jsstring :=
  map N_of_ascii (list_ascii_of_string s).

Fixpoint strEq (a b : jsstring) : bool :=
  match a, b with
  | [], [] => true
  | x :: a', y :: b' => N.eqb x y && strEq a' b'
  | _, _ => false
  end.

(** ECMA-262 WhiteSpace and LineTerminator: what [\s] matches and what
    [String.prototype.trim] strips. *)
Definition isWhiteSpace (c : N) : bool :=
  ((9 <=? c) && (c <=? 13) || (c =? 32) || (c =? 160) || (c =? 5760)
   || (8192 <=? c) && (c <=? 8202) || (c =? 8232) || (c =? 8233)
   || (c =? 8239) || (c =? 8287) || (c =? 12288) || (c =? 65279))%N.

Definition SPACE : N := 32.

Fixpoint trimStart (s : jsstring) : jsstring :=
  match s with
  | [] => []
  | c :: tl => if isWhiteSpace c then trimStart tl else s
  end.

Fixpoint trimEnd (s : jsstring) : jsstring :=
  match s with
  | [] => []
  | c :: tl =>
      match trimEnd tl with
      | [] => if isWhiteSpace c then [] else [c]
      | tl' => c :: tl'
      end
  end.

Definition trim (s : jsstring) : jsstring := trimEnd (trimStart s).

(** [String.prototype.toLowerCase] on strings of Latin-1 characters (code
    units below 256): A-Z and À-Þ without the multiplication sign move up
    by 32, every other character of the two blocks is its own lowercase.
    Outside that domain the definition is not the method: code units from
    256 on, surrogate pairs among them, are left as they are here, while
    the method maps the letters among them as well. *)
Definition lowerChar (c : N) : N :=
  (if (65 <=? c) && (c <=? 90) then c + 32
   else if (192 <=? c) && (c <=? 222) && negb (c =? 215) then c + 32
   else c)%N.

Definition toLowerCase (s : jsstring) : jsstring := map lowerChar s.

(** [s.split(sep)] for a one-code-unit separator: always at least one
    piece. *)
Fixpoint split (sep : N) (s : jsstring) : list jsstring :=
  match s with
  | [] => [[]]
  | c :: tl =>
      if (c =? sep)%N then [] :: split sep tl
      else match split sep tl with
           | [] => [[c]]
           | p :: ps => (c :: p) :: ps
           end
  end.

Fixpoint startsWith (s prefix : jsstring) : bool :=
  match prefix, s with
  | [], _ => true
  | p :: ps, c :: cs => N.eqb c p && startsWith cs ps
  | _ :: _, [] => false
  end.

Definition endsWith (s suffix : jsstring) : bool :=
  startsWith (rev s) (rev suffix).

(** [s.includes(c)] for a one-code-unit needle. *)
Definition includesChar (s : jsstring) (c : N) : bool :=
  existsb (N.eqb c) s.

(** Digits of a non-negative number in a radix up to 36, most significant
    first; [fuel] bounds the number of digits. *)
Definition digitChar (d : Z) : N :=
  if (d <? 10)%Z then Z.to_N (48 + d) else Z.to_N (97 + (d - 10)).

Fixpoint digitsRev (fuel : nat) (radix n : Z) : jsstring :=
  match fuel with
  | O => []
  | S f =>
      if (n <? radix)%Z then [digitChar n]
      else digitChar (n mod radix) :: digitsRev f radix (n / radix)
  end.

(** [Number.prototype.toString(radix)] on integers below 2^64. *)
Definition toStringRadix (radix n : Z) : jsstring :=
  if (n <? 0)%Z then 45%N :: rev (digitsRev 64 radix (- n))
  else rev (digitsRev 64 radix n).

(** String conversion of an integral number, as in ["" + n]. *)
Definition numberToString (n : Z) : jsstring := toStringRadix 10 n.

End JsString.

Export JsString.

(* ===================================================================== *)
(** * JavaScript dates (ECMA-262, "Date Objects") *)
(* ===================================================================== *)

Module JsDate.
Local Open Scope Z_scope.

(** A Date object holds a time value; [None] is Invalid Date (NaN). *)
Definition Date := option Z.

Definition msPerDay : Z := 86400000.
Definition msPerHour : Z := 3600000.
Definition msPerMinute : Z := 60000.
Definition msPerSecond : Z := 1000.

Definition Day (t : Z) : Z := t / msPerDay.
Definition TimeWithinDay (t : Z) : Z := t mod msPerDay.

Definition isLeap (y : Z) : bool :=
  (y mod 4 =? 0) && (negb (y mod 100 =? 0) || (y mod 400 =? 0)).

Definition DaysInYear (y : Z) : Z := if isLeap y then 366 else 365.

Definition DayFromYear (y : Z) : Z :=
  365 * (y - 1970) + (y - 1969) / 4 - (y - 1901) / 100 + (y - 1601) / 400.

Definition TimeFromYear (y : Z) : Z := msPerDay * DayFromYear y.

(** The largest year whose first day is not after day [d]: an estimate,
    moved down and then up until it fits. *)
Fixpoint yearDown (fuel : nat) (y d : Z) : Z :=
  match fuel with
  | O => y
  | S f => if DayFromYear y <=? d then y else yearDown f (y - 1) d
  end.

Fixpoint yearUp (fuel : nat) (y d : Z) : Z :=
  match fuel with
  | O => y
  | S f => if DayFromYear (y + 1) <=? d then yearUp f (y + 1) d else y
  end.

Definition YearFromDay (d : Z) : Z :=
  yearUp 600 (yearDown 600 (1970 + d / 366) d) d.

Definition YearFromTime (t : Z) : Z := YearFromDay (Day t).

Definition InLeapYear (t : Z) : Z :=
  if isLeap (YearFromTime t) then 1 else 0.

Definition DayWithinYear (t : Z) : Z := Day t - DayFromYear (YearFromTime t).

(** Month number, 0 (January) to 11 (December). *)
Definition MonthFromTime (t : Z) : Z :=
  let d := DayWithinYear t in
  let l := InLeapYear t in
  if d <? 31 then 0
  else if d <? 59 + l then 1
  else if d <? 90 + l then 2
  else if d <? 120 + l then 3
  else if d <? 151 + l then 4
  else if d <? 181 + l then 5
  else if d <? 212 + l then 6
  else if d <? 243 + l then 7
  else if d <? 273 + l then 8
  else if d <? 304 + l then 9
  else if d <? 334 + l then 10
  else 11.

(** Day of the month, 1 to 31. *)
Definition DateFromTime (t : Z) : Z :=
  let d := DayWithinYear t in
  let l := InLeapYear t in
  match MonthFromTime t with
  | 0 => d + 1
  | 1 => d - 30
  | 2 => d - 58 - l
  | 3 => d - 89 - l
  | 4 => d - 119 - l
  | 5 => d - 150 - l
  | 6 => d - 180 - l
  | 7 => d - 211 - l
  | 8 => d - 242 - l
  | 9 => d - 272 - l
  | 10 => d - 303 - l
  | _ => d - 333 - l
  end.

Definition HourFromTime (t : Z) : Z := (t / msPerHour) mod 24.
Definition MinFromTime (t : Z) : Z := (t / msPerMinute) mod 60.
Definition SecFromTime (t : Z) : Z := (t / msPerSecond) mod 60.
Definition msFromTime (t : Z) : Z := t mod msPerSecond.

Definition MakeTime (hour min sec ms : Z) : Z :=
  hour * msPerHour + min * msPerMinute + sec * msPerSecond + ms.

(** Days of the year before the first of month [mn] (0 to 11). *)
Definition monthStart (mn : Z) (leap : Z) : Z :=
  match mn with
  | 0 => 0
  | 1 => 31
  | 2 => 59 + leap
  | 3 => 90 + leap
  | 4 => 120 + leap
  | 5 => 151 + leap
  | 6 => 181 + leap
  | 7 => 212 + leap
  | 8 => 243 + leap
  | 9 => 273 + leap
  | 10 => 304 + leap
  | _ => 334 + leap
  end.

(** [MakeDay]: month and date may lie outside their usual ranges and carry
    over into the neighbouring months and years. *)
Definition MakeDay (year month date : Z) : Z :=
  let ym := year + month / 12 in
  let mn := month mod 12 in
  DayFromYear ym + monthStart mn (if isLeap ym then 1 else 0) + date - 1.

Definition MakeDate (day time : Z) : Z := day * msPerDay + time.

Definition TimeClip (t : Z) : Date :=
  if Z.abs t <=? 8640000000000000 then Some t else None.

(** The host's offset of local time from UTC, in milliseconds ([tza]);
    constant over the weeks of the contest. *)
Definition LocalTime (tza t : Z) : Z := t + tza.
Definition UTC (tza t : Z) : Z := t - tza.

(** [new Date(year, month, date, hours, minutes, seconds, ms)]: the fields
    are read as local time. *)
Definition newDate (tza year month date hours minutes seconds ms : Z) : Date :=
  let yr := if (0 <=? year) && (year <=? 99) then 1900 + year else year in
  TimeClip (UTC tza (MakeDate (MakeDay yr month date)
                              (MakeTime hours minutes seconds ms))).

Definition getFullYear (tza : Z) (d : Date) : option Z :=
  option_map (fun t => YearFromTime (LocalTime tza t)) d.
Definition getMonth (tza : Z) (d : Date) : option Z :=
  option_map (fun t => MonthFromTime (LocalTime tza t)) d.
Definition getDate (tza : Z) (d : Date) : option Z :=
  option_map (fun t => DateFromTime (LocalTime tza t)) d.
Definition getHours (tza : Z) (d : Date) : option Z :=
  option_map (fun t => HourFromTime (LocalTime tza t)) d.
Definition getMinutes (tza : Z) (d : Date) : option Z :=
  option_map (fun t => MinFromTime (LocalTime tza t)) d.
Definition getSeconds (tza : Z) (d : Date) : option Z :=
  option_map (fun t => SecFromTime (LocalTime tza t)) d.
Definition getMilliseconds (tza : Z) (d : Date) : option Z :=
  option_map (fun t => msFromTime (LocalTime tza t)) d.

(** Relational operators on numbers that may be NaN ([None]): every
    comparison with NaN is false. *)
Definition numGe (a b : option Z) : bool :=
  match a, b with Some x, Some y => y <=? x | _, _ => false end.
Definition numLt (a b : option Z) : bool :=
  match a, b with Some x, Some y => x <? y | _, _ => false end.
Definition numGt (a b : option Z) : bool :=
  match a, b with Some x, Some y => y <? x | _, _ => false end.
Definition numEq (a b : option Z) : bool :=
  match a, b with Some x, Some y => x =? y | _, _ => false end.
Definition numAdd (a b : option Z) : option Z :=
  match a, b with Some x, Some y => Some (x + y) | _, _ => None end.

(** ** Date.parse on the ISO format [YYYY-MM-DDTHH:mm:ss(.sss)(Z|±HH:mm)] *)

Definition digitVal (c : N) : option Z :=
  if ((48 <=? c) && (c <=? 57))%N then Some (Z.of_N c - 48) else None.

Fixpoint digitsVal (acc : Z) (s : jsstring) : option Z :=
  match s with
  | [] => Some acc
  | c :: tl =>
      match digitVal c with
      | Some d => digitsVal (10 * acc + d) tl
      | None => None
      end
  end.

(** A field of exactly [n] decimal digits at the front of [s]. *)
Definition field (n : nat) (s : jsstring) : option (Z * jsstring) :=
  if Nat.eqb (List.length (firstn n s)) n then
    match digitsVal 0 (firstn n s) with
    | Some v => Some (v, skipn n s)
    | None => None
    end
  else None.

Definition expect (c : N) (s : jsstring) : option jsstring :=
  match s with
  | x :: tl => if (x =? c)%N then Some tl else None
  | [] => None
  end.

Definition DaysInMonth (y m : Z) : Z :=
  match m with
  | 2 => if isLeap y then 29 else 28
  | 4 | 6 | 9 | 11 => 30
  | _ => 31
  end.

(** The offset suffix: [Z], or a sign and [HH:mm]; without a suffix a
    date-time is local time. *)
Definition parseOffset (tza : Z) (s : jsstring) : option Z :=
  match s with
  | [] => Some tza
  | [90%N] => Some 0
  | sg :: rest =>
      if ((sg =? 43) || (sg =? 45))%N then
        match field 2 rest with
        | Some (oh, r1) =>
            match expect 58 r1 with
            | Some r2 =>
                match field 2 r2 with
                | Some (om, []) =>
                    if (oh <=? 23) && (om <=? 59) then
                      let off := oh * msPerHour + om * msPerMinute in
                      Some (if (sg =? 43)%N then off else - off)
                    else None
                | _ => None
                end
            | None => None
            end
        | None => None
        end
      else None
  end.

Definition parseFraction (s : jsstring) : option (Z * jsstring) :=
  match s with
  | 46%N :: rest => field 3 rest
  | _ => Some (0, s)
  end.

Definition bind {A B} (x : option A) (f : A -> option B) : option B :=
  match x with Some a => f a | None => None end.

Definition Date_parse (tza : Z) (s : jsstring) : Date :=
  bind (field 4 s) (fun '(y, s) =>
  bind (expect 45 s) (fun s =>
  bind (field 2 s) (fun '(mo, s) =>
  bind (expect 45 s) (fun s =>
  bind (field 2 s) (fun '(d, s) =>
  bind (expect 84 s) (fun s =>
  bind (field 2 s) (fun '(h, s) =>
  bind (expect 58 s) (fun s =>
  bind (field 2 s) (fun '(mi, s) =>
  bind (expect 58 s) (fun s =>
  bind (field 2 s) (fun '(sec, s) =>
  bind (parseFraction s) (fun '(ms, s) =>
  bind (parseOffset tza s) (fun off =>
    if (1 <=? mo) && (mo <=? 12) && (1 <=? d) && (d <=? DaysInMonth y mo)
       && (h <=? 23) && (mi <=? 59) && (sec <=? 59)
    then TimeClip (MakeDate (MakeDay y (mo - 1) d) (MakeTime h mi sec ms) - off)
    else None))))))))))))).

(** [new Date(string)] *)
Definition newDateFromString (tza : Z) (s : jsstring) : Date := Date_parse tza s.

End JsDate.

Export JsDate.

(* ===================================================================== *)
(** * WR_TIME: per-door release (time.berlin.js, time.berlin.backup.js) *)
(* ===================================================================== *)

Module WR_TIME.
Local Open Scope Z_scope.

Record TimeCfg := {
  timeZone : jsstring;
  dailyUnlockHour : Z;
  dailyUnlockMinute : Z;
  devTestUnlockISO : jsstring;
  devTestDay : Z
}.

(** [WR_TIME_CFG]; the two versions of the file differ in the string
    [devTestUnlockISO] only. *)
Definition WR_TIME_CFG_with (iso : jsstring) : TimeCfg := {|
  timeZone := js "Europe/Berlin";
  dailyUnlockHour := 9;
  dailyUnlockMinute := 0;
  devTestUnlockISO := iso;
  devTestDay := 2
|}.

(** time.berlin.backup.js: a fixed test release for door 2. *)
Definition WR_TIME_CFG : TimeCfg :=
  WR_TIME_CFG_with (js "2025-11-14T18:35:00+01:00").

(** The instant that its [devTestUnlockISO] denotes, in milliseconds since
    the epoch. *)
Definition overrideInstant : Z := 1763141700000.

Section Host.
(** Offset of the host's local time from UTC, in milliseconds. *)
Variable tza : Z.
Variable cfg : TimeCfg.

Definition getDoorUnlockDate (day : Z) : Date :=
  let year := 2025 in
  let month := 11 in
  newDate tza year month day (dailyUnlockHour cfg) (dailyUnlockMinute cfg) 0 0.

Definition isDoorUnlocked (day : Z) (now : Date) : bool :=
  if (day =? devTestDay cfg)
     && numGe now (newDateFromString tza (devTestUnlockISO cfg))
  then true
  else
    let unlockDate := getDoorUnlockDate day in
    numGe now unlockDate.

(** [None] is the source's [null]. *)
Definition getCurrentDecemberDay (now : Date) : option Z :=
  let month := numAdd (getMonth tza now) (Some 1) in
  let date := getDate tza now in
  if numEq month (Some 12) then option_map (fun d => Z.min d 24) date
  else if numGt month (Some 12) then Some 24
  else None.

End Host.
End WR_TIME.

(* ===================================================================== *)
(** * TimeBerlin (time.berlin.js) *)
(* ===================================================================== *)

Module TimeBerlin.
Local Open Scope Z_scope.

Record ReleaseTime := { hour : Z; minute : Z; second : Z }.

Definition dailyReleaseTime : ReleaseTime :=
  {| hour := 6; minute := 0; second := 0 |}.

Section Host.
Variable tza : Z.

Definition getCurrentDecemberDay (now : Date) : option Z :=
  let month := numAdd (getMonth tza now) (Some 1) in
  let day := getDate tza now in
  if numEq month (Some 12) && numGe day (Some 1) && numGe (Some 24) day
  then day
  else if numGt month (Some 12) then Some 24
  else None.

Definition isPuzzleDayAvailable (puzzleDay : Z) (now : Date) : bool :=
  match getCurrentDecemberDay now with
  | None =>
      let month := numAdd (getMonth tza now) (Some 1) in
      numGt month (Some 12)
  | Some currentDecemberDay =>
      if puzzleDay <? currentDecemberDay then true
      else if puzzleDay =? currentDecemberDay then
        let releaseTime := dailyReleaseTime in
        let hour' := getHours tza now in
        let minute' := getMinutes tza now in
        numGt hour' (Some (hour releaseTime))
        || (numEq hour' (Some (hour releaseTime))
            && numGe minute' (Some (minute releaseTime)))
      else false
  end.

End Host.
End TimeBerlin.

(* ===================================================================== *)
(** * WinterRallyeApp.isPuzzleAvailable (main.js) *)
(* ===================================================================== *)

Module WinterRallyeApp.
Local Open Scope Z_scope.

Section Host.
Variable tza : Z.

(** The month/day test of main.js: the whole function in the older
    version of the file, the fallback behind [WR_TIME] in the newer one. *)
Definition isPuzzleAvailable_legacy (day : Z) (currentTime : Date) : bool :=
  let currentDate := currentTime in
  let currentMonth := numAdd (getMonth tza currentDate) (Some 1) in
  let currentDay := getDate tza currentDate in
  if numLt currentMonth (Some 12) then false
  else if numEq currentMonth (Some 12) && numLt currentDay (Some day) then false
  else true.

(** The newer main.js: [window.WR_TIME] decides when it is loaded. *)
Definition isPuzzleAvailable (wr_time : option WR_TIME.TimeCfg)
    (day : Z) (currentTime : Date) : bool :=
  match wr_time with
  | Some cfg => WR_TIME.isDoorUnlocked tza cfg day currentTime
  | None => isPuzzleAvailable_legacy day currentTime
  end.

End Host.
End WinterRallyeApp.

(* ===================================================================== *)
(** * JavaScript values, exceptions and Map *)
(* ===================================================================== *)

Module JsValue.
Local Open Scope Z_scope.

(** Values as they come out of [JSON.parse] or are written as object
    literals by a caller; [JFunction] stands for a built-in method found on
    a prototype. Numbers are the integral ones. *)
Inductive JsVal :=
| JUndefined
| JNull
| JBool (b : bool)
| JNum (n : Z)
| JStr (s : jsstring)
| JArr (items : list JsVal)
| JObj (props : list (jsstring * JsVal))
| JFunction (name : jsstring).

(** A computation that returns or throws an [Error] with a message. *)
Inductive Outcome (A : Type) :=
| Returned (a : A)
| Thrown (message : jsstring).
Arguments Returned {A} a.
Arguments Thrown {A} message.

Definition obind {A B} (x : Outcome A) (f : A -> Outcome B) : Outcome B :=
  match x with Returned a => f a | Thrown m => Thrown m end.

(** ToBoolean *)
Definition truthy (v : JsVal) : bool :=
  match v with
  | JUndefined | JNull => false
  | JBool b => b
  | JNum n => negb (n =? 0)
  | JStr s => match s with [] => false | _ => true end
  | JArr _ | JObj _ | JFunction _ => true
  end.

(** [a || b] *)
Definition orElse (a b : JsVal) : JsVal := if truthy a then a else b.

Definition isArray (v : JsVal) : bool :=
  match v with JArr _ => true | _ => false end.

(** Strict equality [===]. A freshly parsed or freshly written array or
    object is never identical to another one, so two of them compare
    unequal. *)
Definition strictEq (a b : JsVal) : bool :=
  match a, b with
  | JUndefined, JUndefined => true
  | JNull, JNull => true
  | JBool x, JBool y => Bool.eqb x y
  | JNum x, JNum y => x =? y
  | JStr x, JStr y => strEq x y
  | _, _ => false
  end.

Fixpoint join (sep : jsstring) (parts : list jsstring) : jsstring :=
  match parts with
  | [] => []
  | [p] => p
  | p :: tl => p ++ sep ++ join sep tl
  end.

(** ToString, as applied by template literals and by [+] on strings. *)
Fixpoint toStr (v : JsVal) : jsstring :=
  match v with
  | JUndefined => js "undefined"
  | JNull => js "null"
  | JBool true => js "true"
  | JBool false => js "false"
  | JNum n => numberToString n
  | JStr s => s
  | JArr items =>
      join (js ",")
        (map (fun x => match x with
                       | JUndefined | JNull => []
                       | _ => toStr x
                       end) items)
  | JObj _ => js "[object Object]"
  | JFunction name => js "function " ++ name ++ js "() { [native code] }"
  end.

(** Own property of an object literal: the last binding of a key wins. *)
Fixpoint ownProp (props : list (jsstring * JsVal)) (key : jsstring) : option JsVal :=
  match props with
  | [] => None
  | (k, v) :: tl =>
      match ownProp tl key with
      | Some w => Some w
      | None => if strEq k key then Some v else None
      end
  end.

Section Host.
(** What a property read finds beyond own properties of objects: the
    members inherited from a prototype, indices and [length] of strings and
    arrays; [JUndefined] where there is none. *)
Variable hostProp : JsVal -> jsstring -> JsVal.

(** [v[key]]: a TypeError on [null] and [undefined]. *)
Definition getProp (v : JsVal) (key : jsstring) : Outcome JsVal :=
  match v with
  | JUndefined | JNull =>
      Thrown (js "Cannot read properties of " ++ toStr v)
  | JObj props =>
      match ownProp props key with
      | Some w => Returned w
      | None => Returned (hostProp v key)
      end
  | _ => Returned (hostProp v key)
  end.

End Host.

(** [Object.entries] of an object literal. *)
Definition entries (v : JsVal) : list (jsstring * JsVal) :=
  match v with
  | JObj props => props
  | _ => []
  end.

End JsValue.

Export JsValue.

(** A [Map] with string keys: its entries in insertion order. *)
Module JsMap.

Section Ops.
Variable V : Type.

Definition t := list (jsstring * V).

Fixpoint get (m : t) (k : jsstring) : option V :=
  match m with
  | [] => None
  | (k', v) :: tl => if strEq k' k then Some v else get tl k
  end.

(** [set] keeps the position of a key that is already present. *)
Fixpoint set (m : t) (k : jsstring) (v : V) : t :=
  match m with
  | [] => [(k, v)]
  | (k', v') :: tl =>
      if strEq k' k then (k', v) :: tl else (k', v') :: set tl k v
  end.

Fixpoint delete (m : t) (k : jsstring) : t :=
  match m with
  | [] => []
  | (k', v') :: tl => if strEq k' k then tl else (k', v') :: delete tl k
  end.

Definition size (m : t) : Z := Z.of_nat (List.length m).

End Ops.
End JsMap.

(* ===================================================================== *)
(** * AnswersStore: normalisation and check of an answer (music.js) *)
(* ===================================================================== *)

Module AnswersStore.

(** The Stage-2 configuration of one puzzle. [normalize] is the
    comma-separated rule string ([None]: not set). *)
Record Stage2Config := {
  normalize : option jsstring;
  accepted : JsVal;
  answer_hashes : JsVal;
  salt : JsVal
}.

(** The cases of the [switch] in [normalizeAnswer]. *)
Inductive Rule :=
| Lowercase
| Trim
| CollapseSpaces
| ReplaceAe
| ReplaceOe
| ReplaceUe
| ReplaceSs
| RemoveSpaces
| RemovePunctuation
| UnknownRule.

Definition a_umlaut : N := 228.
Definition o_umlaut : N := 246.
Definition u_umlaut : N := 252.
Definition sharp_s : N := 223.

Definition ruleOfName (rule : jsstring) : Rule :=
  if strEq rule (js "lowercase") then Lowercase
  else if strEq rule (js "trim") then Trim
  else if strEq rule (js "collapse-spaces") then CollapseSpaces
  else if strEq rule (js "replace-" ++ [a_umlaut] ++ js "->ae") then ReplaceAe
  else if strEq rule (js "replace-" ++ [o_umlaut] ++ js "->oe") then ReplaceOe
  else if strEq rule (js "replace-" ++ [u_umlaut] ++ js "->ue") then ReplaceUe
  else if strEq rule (js "replace-" ++ [sharp_s] ++ js "->ss") then ReplaceSs
  else if strEq rule (js "remove-spaces") then RemoveSpaces
  else if strEq rule (js "remove-punctuation") then RemovePunctuation
  else UnknownRule.

(** [s.replace(/\s+/g, ' ')]; [inRun] tells that the previous code unit
    was white space already replaced. *)
Fixpoint collapseFrom (inRun : bool) (s : jsstring) : jsstring :=
  match s with
  | [] => []
  | c :: tl =>
      if isWhiteSpace c then
        if inRun then collapseFrom true tl else SPACE :: collapseFrom true tl
      else c :: collapseFrom false tl
  end.

Definition collapseSpaces (s : jsstring) : jsstring := collapseFrom false s.

(** [s.replace(/c/g, rep)] for one code unit [c]. *)
Definition replaceAll (c : N) (rep : jsstring) (s : jsstring) : jsstring :=
  flat_map (fun x => if (x =? c)%N then rep else [x]) s.

(** [s.replace(/\s/g, '')] *)
Definition removeSpaces (s : jsstring) : jsstring :=
  filter (fun c => negb (isWhiteSpace c)) s.

(** The class [[.,;:!?-]]. *)
Definition isPunctuation (c : N) : bool :=
  ((c =? 46) || (c =? 44) || (c =? 59) || (c =? 58) || (c =? 33)
   || (c =? 63) || (c =? 45))%N.

Definition removePunctuation (s : jsstring) : jsstring :=
  filter (fun c => negb (isPunctuation c)) s.

Definition applyStep (r : Rule) (normalized : jsstring) : jsstring :=
  match r with
  | Lowercase => toLowerCase normalized
  | Trim => trim normalized
  | CollapseSpaces => collapseSpaces normalized
  | ReplaceAe => replaceAll a_umlaut (js "ae") normalized
  | ReplaceOe => replaceAll o_umlaut (js "oe") normalized
  | ReplaceUe => replaceAll u_umlaut (js "ue") normalized
  | ReplaceSs => replaceAll sharp_s (js "ss") normalized
  | RemoveSpaces => removeSpaces normalized
  | RemovePunctuation => removePunctuation normalized
  | UnknownRule => normalized
  end.

Definition applyRule (rule : jsstring) (normalized : jsstring) : jsstring :=
  applyStep (ruleOfName rule) normalized.

(** The loop over the rules, in their order. *)
Definition applyRules (rules : list jsstring) (answer : jsstring) : jsstring :=
  fold_left (fun normalized rule => applyRule rule normalized) rules answer.

Definition defaultNormalize : jsstring := js "lowercase, trim, collapse-spaces".

(** [config.normalize || 'lowercase, trim, collapse-spaces'], split at the
    commas, each piece trimmed. *)
Definition rulesOf (config : Stage2Config) : list jsstring :=
  let normalizeRule :=
    match normalize config with
    | Some (c :: r) => c :: r
    | _ => defaultNormalize
    end in
  map trim (split 44 normalizeRule).

(** [normalizeAnswer]: the empty answer stays empty. The [catch] of the
    source has nothing to catch here: no step throws on a string, and
    [normalize] is a string or not set. *)
Definition normalizeAnswer (answer : jsstring) (config : Stage2Config) : jsstring :=
  match answer with
  | [] => []
  | _ => applyRules (rulesOf config) answer
  end.

(** One call of [window.SecurityStatic.validateAnswerHash]. *)
Record HashCall := {
  call_answer : jsstring;
  call_hash : JsVal;
  call_salt : JsVal
}.

(** [window.SecurityStatic.validateAnswerHash], when the module is loaded:
    it answers, or fails with an exception. *)
Definition HashValidator := jsstring -> JsVal -> JsVal -> Outcome bool.

(** The [for] loop over [config.answer_hashes]: the verdict, and the calls
    made to the validator, oldest first. *)
Fixpoint tryHashes (validateAnswerHash : HashValidator)
    (normalizedAnswer : jsstring) (salt : JsVal) (hashes : list JsVal)
    : Outcome bool * list HashCall :=
  match hashes with
  | [] => (Returned false, [])
  | hash :: tl =>
      let call := {| call_answer := normalizedAnswer;
                     call_hash := hash; call_salt := salt |} in
      match validateAnswerHash normalizedAnswer hash salt with
      | Thrown m => (Thrown m, [call])
      | Returned true => (Returned true, [call])
      | Returned false =>
          let '(r, calls) := tryHashes validateAnswerHash normalizedAnswer salt tl in
          (r, call :: calls)
      end
  end.

(** [Array.prototype.includes] with a string argument. *)
Definition includes (items : list JsVal) (x : jsstring) : bool :=
  existsb (fun v => strictEq v (JStr x)) items.

(** [validateAnswer]: the returned boolean, and the calls made to the hash
    validator ([securityStatic] is [None] when the module is not loaded). *)
Definition validateAnswer (securityStatic : option HashValidator)
    (normalizedAnswer : jsstring) (config : Stage2Config)
    : bool * list HashCall :=
  match accepted config with
  | JArr items =>
      let isAccepted := includes items normalizedAnswer in
      (isAccepted, [])
  | _ =>
      match answer_hashes config with
      | JArr hashes =>
          match securityStatic with
          | Some validateAnswerHash =>
              let salt := orElse (salt config) (JStr []) in
              match tryHashes validateAnswerHash normalizedAnswer salt hashes with
              | (Returned b, calls) => (b, calls)
              | (Thrown _, calls) => (false, calls)
              end
          | None => (false, [])
          end
      | _ => (true, [])
      end
  end.

End AnswersStore.

(* ===================================================================== *)
(** * 32-bit integer operators *)
(* ===================================================================== *)

Module Int32.
Local Open Scope Z_scope.

Definition two32 : Z := 4294967296.

(** ToUint32 and ToInt32 of an integral number. *)
Definition toUint32 (z : Z) : Z := z mod two32.
Definition toInt32 (z : Z) : Z :=
  let u := z mod two32 in
  if u <? 2147483648 then u else u - two32.

(** [a << n], [a ^ b], [a & b], [a >>> 0] *)
Definition shl (a n : Z) : Z := toInt32 (Z.shiftl (toInt32 a) n).
Definition xor (a b : Z) : Z := toInt32 (Z.lxor (toInt32 a) (toInt32 b)).
Definition and (a b : Z) : Z := toInt32 (Z.land (toInt32 a) (toInt32 b)).
Definition ushr0 (a : Z) : Z := toUint32 a.

(** The string hash used for cache keys and test signatures:
    [hash = ((hash << 5) - hash) + char; hash = hash & hash], from 0. *)
Definition hashStep (hash : Z) (char : N) : Z :=
  let hash := (shl hash 5 - hash) + Z.of_N char in
  and hash hash.

Definition stringHash (s : jsstring) : Z := fold_left hashStep s 0.

End Int32.

(* ===================================================================== *)
(** * QRVerify: verification of signed QR tokens *)
(* ===================================================================== *)

Module QRVerify.
Local Open Scope Z_scope.

Record KeyData := {
  kd_algorithm : jsstring;
  key : jsstring;
  kd_keyId : jsstring;
  description : jsstring
}.

(** [this.predefinedKeys], loaded into [this.publicKeys] by [init]. *)
Definition predefinedKeys : JsMap.t KeyData :=
  [(js "winter2025",
    {| kd_algorithm := js "HMAC";
       key := js "winter2025_secret_key_demo_only";
       kd_keyId := js "winter2025";
       description :=
         js "Demo-Schl" ++ [252%N] ++ js "ssel f" ++ [252%N]
            ++ js "r Winter Rallye 2025" |})].

Definition verificationTimeout : Z := 5000.
Definition cacheTimeout : Z := 300000.
Definition maxCacheEntries : Z := 100.
Definition maxPayloadSize : Z := 1024.

(** What [parseQRCode] extracts from a token. *)
Record Parsed := {
  version : JsVal;
  algorithm : JsVal;
  keyId : JsVal;
  signature : JsVal;
  payload : JsVal;
  originalData : jsstring
}.

(** A verification result; fields the object literal leaves out are
    [JUndefined]. *)
Record Verdict := {
  valid : bool;
  error : JsVal;
  v_algorithm : JsVal;
  v_keyId : JsVal;
  v_payload : JsVal;
  timestamp : Z
}.

Record DataValid := { dv_valid : bool; dv_error : JsVal }.

(** A [CryptoKey] of the Web Crypto API: the raw key and the operations
    it was imported for. *)
Record CryptoKey := { material : jsstring; usages : list jsstring }.

(** [window.crypto.subtle]: the HMAC-SHA-256 of the browser, rendered in
    lowercase hex as the code renders the signature, and the messages of
    the exceptions that it raises (their wording differs between
    browsers). *)
Record SubtleCrypto := {
  hmacSha256Hex : jsstring -> jsstring -> jsstring;
  (** DataError of [importKey] for an empty key *)
  dataErrorMessage : jsstring;
  (** InvalidAccessError of an operation that the key's usages do not
      permit *)
  invalidAccessMessage : jsstring
}.

(** [crypto.subtle.importKey('raw', keyBytes, { name: 'HMAC', hash:
    'SHA-256' }, false, keyUsages)] for usages among [sign] and
    [verify]: the key, or a DataError when there are no key bytes. *)
Definition importKey (subtle : SubtleCrypto) (keyBytes : jsstring)
    (keyUsages : list jsstring) : Outcome CryptoKey :=
  match keyBytes with
  | [] => Thrown (dataErrorMessage subtle)
  | _ => Returned {| material := keyBytes; usages := keyUsages |}
  end.

(** [crypto.subtle.sign('HMAC', cryptoKey, data)]: refused with an
    InvalidAccessError unless the key was imported for [sign]. *)
Definition sign (subtle : SubtleCrypto) (cryptoKey : CryptoKey)
    (data : jsstring) : Outcome jsstring :=
  if existsb (strEq (js "sign")) (usages cryptoKey)
  then Returned (hmacSha256Hex subtle (material cryptoKey) data)
  else Thrown (invalidAccessMessage subtle).

(** The services of the browser and of the other modules that QRVerify
    calls. *)
Record Host := {
  (** inherited and built-in properties, see [getProp] *)
  hostProp : JsVal -> jsstring -> JsVal;
  (** [window.crypto.subtle], when present *)
  subtle : option SubtleCrypto;
  atob : jsstring -> Outcome jsstring;
  JSON_parse : jsstring -> Outcome JsVal;
  JSON_stringify : JsVal -> jsstring;
  (** [window.SecurityStatic], when loaded: the answer of
      [checkRateLimit('qrScan')] *)
  checkRateLimit : option bool;
  (** the timer of [withTimeout] fires before the verification settles *)
  timedOut : bool
}.

(** The readings of [Date.now()] during one call. *)
Record Instants := { atLookup : Z; atVerdict : Z; atStore : Z }.

Definition uuml : jsstring := [252%N].

Section WithHost.
Variable host : Host.
Variable publicKeys : JsMap.t KeyData.

(** [v.k] for a property name written in the source. *)
Definition prop (v : JsVal) (k : string) : Outcome JsVal :=
  getProp (hostProp host) v (js k).

(** ** validateExpectedData

    [expectedData] is given by its entries, in the order of
    [Object.entries]; no entries stands for [{}], [null] and [undefined]. *)
Fixpoint checkEntries (payload : JsVal) (expected : list (jsstring * JsVal))
    : Outcome DataValid :=
  match expected with
  | [] => Returned {| dv_valid := true; dv_error := JUndefined |}
  | (key, expectedValue) :: tl =>
      obind (getProp (hostProp host) payload key) (fun actualValue =>
        if strictEq actualValue JUndefined then
          Returned {| dv_valid := false;
                      dv_error := JStr (js "Erforderliches Feld '" ++ key
                                        ++ js "' fehlt") |}
        else if negb (strictEq expectedValue JNull)
                && negb (strictEq actualValue expectedValue) then
          Returned {| dv_valid := false;
                      dv_error := JStr (js "Feld '" ++ key ++ js "': erwartet '"
                                        ++ toStr expectedValue
                                        ++ js "', erhalten '"
                                        ++ toStr actualValue ++ js "'") |}
        else checkEntries payload tl)
  end.

Definition validateExpectedData (payload : JsVal)
    (expectedData : list (jsstring * JsVal)) : Outcome DataValid :=
  match expectedData with
  | [] => Returned {| dv_valid := true; dv_error := JUndefined |}
  | _ => checkEntries payload expectedData
  end.

(** ** simpleHashCompare: the FNV-style hash of the fallback path *)
Definition fnvStep (hash : Z) (c : N) : Z :=
  let hash := Int32.xor hash (Z.of_N c) in
  hash + (Int32.shl hash 1 + Int32.shl hash 4 + Int32.shl hash 7
          + Int32.shl hash 8 + Int32.shl hash 24).

Definition simpleHashCompare (input : jsstring) (expected : JsVal) : bool :=
  let hash := fold_left fnvStep input 2166136261 in
  let computed := toStringRadix 16 (Int32.ushr0 hash) in
  strictEq (JStr computed) expected.

(** ** The verifiers *)
(** [verifyHMACWebCrypto]: the key is imported for [verify] and then
    used to [sign]. *)
Definition verifyHMACWebCrypto (crypto : SubtleCrypto) (now : Z)
    (parsed : Parsed) (keyData : KeyData)
    (expectedData : list (jsstring * JsVal)) : Outcome Verdict :=
  obind (importKey crypto (key keyData) [js "verify"]) (fun cryptoKey =>
  obind (sign crypto cryptoKey (originalData parsed)) (fun expectedHex =>
    let isValid := strictEq (signature parsed) (JStr expectedHex) in
    obind (validateExpectedData (payload parsed) expectedData) (fun dataValid =>
      Returned {|
        valid := isValid && dv_valid dataValid;
        error := if isValid then dv_error dataValid
                 else JStr (js "Ung" ++ uuml ++ js "ltige Signatur");
        v_algorithm := JStr (js "HMAC");
        v_keyId := keyId parsed;
        v_payload := payload parsed;
        timestamp := now |}))).

Definition verifyHMACFallback (now : Z) (parsed : Parsed) (keyData : KeyData)
    (expectedData : list (jsstring * JsVal)) : Outcome Verdict :=
  let isValid :=
    simpleHashCompare (key keyData ++ originalData parsed) (signature parsed) in
  obind (validateExpectedData (payload parsed) expectedData) (fun dataValid =>
    Returned {|
      valid := isValid && dv_valid dataValid;
      error := if isValid then dv_error dataValid
               else JStr (js "Ung" ++ uuml ++ js "ltige Signatur (Fallback)");
      v_algorithm := JStr (js "HMAC-Fallback");
      v_keyId := keyId parsed;
      v_payload := payload parsed;
      timestamp := now |}).

(** [this.publicKeys.get(parsed.keyId)]: the keys of the map are strings. *)
Definition lookupKey (k : JsVal) : option KeyData :=
  match k with
  | JStr s => JsMap.get publicKeys s
  | _ => None
  end.

(** [verifyHMAC]: every exception of the body is caught and turned into a
    negative result. *)
Definition verifyHMAC (now : Z) (parsed : Parsed)
    (expectedData : list (jsstring * JsVal)) : Verdict :=
  let body :=
    match lookupKey (keyId parsed) with
    | None => Thrown (js "Unbekannte Key-ID: " ++ toStr (keyId parsed))
    | Some keyData =>
        match subtle host with
        | Some crypto =>
            verifyHMACWebCrypto crypto now parsed keyData expectedData
        | None => verifyHMACFallback now parsed keyData expectedData
        end
    end in
  match body with
  | Returned v => v
  | Thrown message =>
      {| valid := false;
         error := JStr message;
         v_algorithm := JStr (js "HMAC");
         v_keyId := keyId parsed;
         v_payload := JUndefined;
         timestamp := now |}
  end.

Definition verifyPlaintext (now : Z) (parsed : Parsed)
    (expectedData : list (jsstring * JsVal)) : Outcome Verdict :=
  obind (validateExpectedData (payload parsed) expectedData) (fun dataValid =>
    Returned {|
      valid := dv_valid dataValid;
      error := dv_error dataValid;
      v_algorithm := JStr (js "plaintext");
      v_keyId := JNull;
      v_payload := payload parsed;
      timestamp := now |}).

(** [verifySignature]: the class defines neither [verifyECDSA] nor
    [verifyRSAPSS], so calling them is a TypeError. *)
Definition verifySignature (now : Z) (parsed : Parsed)
    (expectedData : list (jsstring * JsVal)) : Outcome Verdict :=
  if strictEq (algorithm parsed) (JStr (js "HMAC")) then
    Returned (verifyHMAC now parsed expectedData)
  else if strictEq (algorithm parsed) (JStr (js "ECDSA")) then
    Thrown (js "this.verifyECDSA is not a function")
  else if strictEq (algorithm parsed) (JStr (js "RSA-PSS")) then
    Thrown (js "this.verifyRSAPSS is not a function")
  else if strictEq (algorithm parsed) (JStr (js "none")) then
    verifyPlaintext now parsed expectedData
  else
    Thrown (js "Ununterst" ++ uuml ++ js "tzter Algorithmus: "
            ++ toStr (algorithm parsed)).

Definition performVerification (now : Z) (parsed : Parsed)
    (expectedData : list (jsstring * JsVal)) : Outcome Verdict :=
  if timedOut host then Thrown (js "Verifikation-Timeout")
  else verifySignature now parsed expectedData.

(** ** Parsing the token formats

    [None] is the [null] that the parsers return after catching an
    exception or for an unknown format. *)
Definition caught {A} (x : Outcome (option A)) : option A :=
  match x with Returned a => a | Thrown _ => None end.

Definition parseV1Format (signatureB64 payloadB64 : jsstring) : option Parsed :=
  caught (
    obind (atob host signatureB64) (fun signature' =>
    obind (atob host payloadB64) (fun decoded =>
    obind (JSON_parse host decoded) (fun payload' =>
    obind (prop payload' "algorithm") (fun alg =>
    obind (prop payload' "keyId") (fun kid =>
      Returned (Some {|
        version := JStr (js "1.0");
        algorithm := orElse alg (JStr (js "HMAC"));
        keyId := orElse kid (JStr (js "winter2025"));
        signature := JStr signature';
        payload := payload';
        originalData := payloadB64 |}))))))).

Definition parseHMACFormat (qrData : jsstring) : option Parsed :=
  caught (
    match split 46 qrData with
    | [_; keyId'; signatureHex; payloadB64] =>
        obind (atob host payloadB64) (fun decoded =>
        obind (JSON_parse host decoded) (fun payload' =>
          Returned (Some {|
            version := JStr (js "hmac");
            algorithm := JStr (js "HMAC");
            keyId := JStr keyId';
            signature := JStr signatureHex;
            payload := payload';
            originalData := payloadB64 |})))
    | _ => Thrown (js "Ung" ++ uuml ++ js "ltiges HMAC-Format")
    end).

Definition parseSimpleFormat (qrData : jsstring) : option Parsed :=
  caught (
    obind (JSON_parse host qrData) (fun payload' =>
      Returned (Some {|
        version := JStr (js "simple");
        algorithm := JStr (js "none");
        keyId := JNull;
        signature := JNull;
        payload := payload';
        originalData := qrData |}))).

Definition parseJSONFormat (parsed : JsVal) : Outcome Parsed :=
  obind (prop parsed "version") (fun ver =>
  obind (prop parsed "algorithm") (fun alg =>
  obind (prop parsed "keyId") (fun kid =>
  obind (prop parsed "signature") (fun sig =>
  obind (prop parsed "payload") (fun pl =>
    Returned {|
      version := orElse ver (JStr (js "json"));
      algorithm := orElse alg (JStr (js "none"));
      keyId := orElse kid JNull;
      signature := orElse sig JNull;
      payload := orElse pl parsed;
      originalData := JSON_stringify host parsed |}))))).

(** The class [[A-Za-z0-9+/=]] of the v1 pattern. *)
Definition isBase64Char (c : N) : bool :=
  ((65 <=? c) && (c <=? 90) || (97 <=? c) && (c <=? 122)
   || (48 <=? c) && (c <=? 57) || (c =? 43) || (c =? 47) || (c =? 61))%N.

Definition isBase64Run (s : jsstring) : bool :=
  match s with [] => false | _ => forallb isBase64Char s end.

(** [qrData.match(/^v1\.([A-Za-z0-9+\/=]+)\.([A-Za-z0-9+\/=]+)$/)]: the
    two groups, which cannot contain a dot. *)
Definition matchV1 (qrData : jsstring) : option (jsstring * jsstring) :=
  match split 46 qrData with
  | [tag; g1; g2] =>
      if strEq tag (js "v1") && isBase64Run g1 && isBase64Run g2
      then Some (g1, g2) else None
  | _ => None
  end.

Definition parseQRCode (qrData : jsstring) : option Parsed :=
  match matchV1 qrData with
  | Some (g1, g2) => parseV1Format g1 g2
  | None =>
      if startsWith qrData (js "hmac.") then parseHMACFormat qrData
      else if startsWith qrData (js "{") && endsWith qrData (js "}")
      then parseSimpleFormat qrData
      else
        match obind (atob host qrData) (fun decoded =>
              obind (JSON_parse host decoded) parseJSONFormat) with
        | Returned p => Some p
        | Thrown _ => None
        end
  end.

(** ** Input check and cache *)
Record InputCheck := { ic_valid : bool; ic_error : jsstring }.

Definition validateQRInput (qrData : jsstring) : InputCheck :=
  match qrData with
  | [] => {| ic_valid := false;
             ic_error := js "QR-Daten fehlen oder sind ung" ++ uuml ++ js "ltig" |}
  | _ =>
      if maxPayloadSize <? Z.of_nat (List.length qrData) then
        {| ic_valid := false; ic_error := js "QR-Code zu gro" ++ [223%N] |}
      else
        match trim qrData with
        | [] => {| ic_valid := false; ic_error := js "QR-Code ist leer" |}
        | _ => {| ic_valid := true; ic_error := [] |}
        end
  end.

Definition getCacheKey (qrData : jsstring) : jsstring :=
  toStringRadix 36 (Int32.stringHash qrData).

Record CacheEntry := { result : Verdict; ce_timestamp : Z }.

Definition Cache := JsMap.t CacheEntry.

(** [entries.sort((a, b) => a[1].timestamp - b[1].timestamp)]: a stable
    sort, oldest first. *)
Fixpoint insertByAge (e : jsstring * CacheEntry) (l : list (jsstring * CacheEntry))
    : list (jsstring * CacheEntry) :=
  match l with
  | [] => [e]
  | x :: tl =>
      if ce_timestamp (snd e) <? ce_timestamp (snd x) then e :: x :: tl
      else x :: insertByAge e tl
  end.

Definition sortByAge (l : list (jsstring * CacheEntry)) : list (jsstring * CacheEntry) :=
  fold_left (fun acc e => insertByAge e acc) l [].

Definition cacheVerificationResult (now : Z) (cache : Cache)
    (k : jsstring) (r : Verdict) : Cache :=
  let cache :=
    if maxCacheEntries <=? JsMap.size cache then
      let toRemove := Z.to_nat (maxCacheEntries * 2 / 10) in
      fold_left (fun c e => JsMap.delete c (fst e))
                (firstn toRemove (sortByAge cache)) cache
    else cache in
  JsMap.set cache k {| result := r; ce_timestamp := now |}.

(** The sweep that [startCacheCleanup] runs every minute. *)
Definition sweep (now : Z) (cache : Cache) : Cache :=
  filter (fun e => negb (cacheTimeout <? now - ce_timestamp (snd e))) cache.

Definition failure (now : Z) (message : jsstring) : Verdict :=
  {| valid := false; error := JStr message; v_algorithm := JUndefined;
     v_keyId := JUndefined; v_payload := JUndefined; timestamp := now |}.

(** The part of [verifyQRCode] after a cache miss: parse, verify, store. *)
Definition verifyUncached (at_ : Instants) (cache : Cache) (cacheKey : jsstring)
    (qrData : jsstring) (expectedData : list (jsstring * JsVal))
    : Verdict * Cache :=
  match parseQRCode qrData with
  | None => (failure (atVerdict at_) (js "QR-Code-Format nicht erkannt"), cache)
  | Some parsed =>
      match performVerification (atVerdict at_) parsed expectedData with
      | Thrown message => (failure (atVerdict at_) message, cache)
      | Returned verificationResult =>
          (verificationResult,
           cacheVerificationResult (atStore at_) cache cacheKey verificationResult)
      end
  end.

(** ** verifyQRCode: the result and the cache after the call *)
Definition verifyQRCode (at_ : Instants) (cache : Cache) (qrData : jsstring)
    (expectedData : list (jsstring * JsVal)) : Verdict * Cache :=
  match checkRateLimit host with
  | None =>
      (failure (atVerdict at_)
         (js "Cannot read properties of undefined (reading 'checkRateLimit')"),
       cache)
  | Some false =>
      (failure (atVerdict at_)
         (js "Rate-Limit f" ++ uuml ++ js "r QR-Scans " ++ uuml ++ js "berschritten"),
       cache)
  | Some true =>
      let validation := validateQRInput qrData in
      if negb (ic_valid validation) then
        (failure (atVerdict at_)
           (js "Ung" ++ uuml ++ js "ltiger QR-Code: " ++ ic_error validation),
         cache)
      else
        let cacheKey := getCacheKey qrData in
        match JsMap.get cache cacheKey with
        | Some cached =>
            if atLookup at_ - ce_timestamp cached <? cacheTimeout
            then (result cached, cache)
            else verifyUncached at_ cache cacheKey qrData expectedData
        | None => verifyUncached at_ cache cacheKey qrData expectedData
        end
  end.

End WithHost.
End QRVerify.

(* ===================================================================== *)
(** * AnswerUtil: hashed answer verification and its cache (answer.util.js) *)
(* ===================================================================== *)

Module AnswerUtil.
Local Open Scope Z_scope.

Definition cache_maxEntries : Z := 50.
Definition cache_ttl : Z := 300000.

(** The fields of a puzzle that [verifyAnswer] reads; [None] is a field
    that is not set. *)
Record PuzzleData := {
  day : option Z;
  answerHash : option jsstring;
  answerHashes : option (list jsstring);
  answerPlaintext : option jsstring;
  answerPattern : option jsstring
}.

Record VerificationResult := {
  correct : bool;
  matchedHash : JsVal;
  vr_algorithm : JsVal;
  saltUsed : JsVal;
  vr_error : JsVal;
  verificationTime : option Z
}.

Record HashInfo := { hi_algorithm : jsstring; hi_salt : jsstring; hi_hash : jsstring }.

Record Host := {
  (** [window.SecurityStatic.createSecureHash], when loaded: the [hash]
      field of its result *)
  createSecureHash : option (jsstring -> jsstring -> Outcome jsstring);
  (** [new RegExp(pattern, 'i').test(input)] *)
  regexTest : jsstring -> jsstring -> Outcome bool
}.

Record Instants := { startTime : Z; atLookup : Z; atEnd : Z; atStore : Z }.

(** [this.diacriticsMap[match] || match] on the class
    [[àáâãäåèéêëìíîïòóôõöùúûüñç]]. *)
Definition diacritic (c : N) : jsstring :=
  (if c =? 228 then js "ae"
   else if c =? 246 then js "oe"
   else if c =? 252 then js "ue"
   else if (224 <=? c) && (c <=? 229) then js "a"
   else if c =? 231 then js "c"
   else if (232 <=? c) && (c <=? 235) then js "e"
   else if (236 <=? c) && (c <=? 239) then js "i"
   else if c =? 241 then js "n"
   else if (242 <=? c) && (c <=? 245) then js "o"
   else if (249 <=? c) && (c <=? 251) then js "u"
   else [c])%N.

Definition replaceDiacritics (text : jsstring) : jsstring :=
  flat_map diacritic text.

Definition isAlphaNum (c : N) : bool :=
  ((97 <=? c) && (c <=? 122) || (65 <=? c) && (c <=? 90)
   || (48 <=? c) && (c <=? 57))%N.

(** [normalizeAnswer] with the flags of [this.config.normalization], all
    of which are set. *)
Definition normalizeAnswer (answer : jsstring) : jsstring :=
  let normalized := toLowerCase answer in
  let normalized := filter (fun c => negb (isWhiteSpace c)) normalized in
  let normalized := replaceDiacritics normalized in
  filter isAlphaNum normalized.

Definition optStr (o : option jsstring) : jsstring :=
  match o with Some s => s | None => [] end.

(** [answer + (puzzleData.day || '') + (puzzleData.answerHash || '')],
    hashed. *)
Definition cacheData (answer : jsstring) (puzzleData : PuzzleData) : jsstring :=
  answer
  ++ match day puzzleData with
     | Some d => if d =? 0 then [] else numberToString d
     | None => []
     end
  ++ optStr (answerHash puzzleData).

Definition getCacheKey (answer : jsstring) (puzzleData : PuzzleData) : jsstring :=
  toStringRadix 36 (Int32.stringHash (cacheData answer puzzleData)).

Definition parseHashFormat (hashValue : jsstring) : HashInfo :=
  let viaDollar :=
    match (if includesChar hashValue 36 then split 36 hashValue else []) with
    | [s; h] => {| hi_algorithm := js "SHA-256"; hi_salt := s; hi_hash := h |}
    | _ => {| hi_algorithm := js "SHA-256"; hi_salt := []; hi_hash := hashValue |}
    end in
  match (if includesChar hashValue 58 then split 58 hashValue else []) with
  | [a; s; h] => {| hi_algorithm := a; hi_salt := s; hi_hash := h |}
  | _ => viaDollar
  end.

Definition fallbackHash (input salt : jsstring) : jsstring :=
  let salted := salt ++ input in
  let hash := Int32.stringHash salted in
  salt ++ js "$" ++ toStringRadix 16 (Z.abs hash).

Section WithHost.
Variable host : Host.

Definition verifyAgainstHash (answer hashValue : jsstring) : VerificationResult :=
  let hashInfo := parseHashFormat hashValue in
  if strEq (hi_algorithm hashInfo) (js "plaintext") then
    {| correct := strEq answer (hi_hash hashInfo);
       matchedHash := JStr hashValue;
       vr_algorithm := JUndefined; saltUsed := JUndefined;
       vr_error := JUndefined; verificationTime := None |}
  else
    let computed :=
      match createSecureHash host with
      | Some f => f answer (hi_salt hashInfo)
      | None => Returned (fallbackHash answer (hi_salt hashInfo))
      end in
    match computed with
    | Returned computedHash =>
        let isMatch := strEq computedHash hashValue in
        {| correct := isMatch;
           matchedHash := if isMatch then JStr hashValue else JNull;
           vr_algorithm := JStr (hi_algorithm hashInfo);
           saltUsed := JStr (hi_salt hashInfo);
           vr_error := JUndefined; verificationTime := None |}
    | Thrown message =>
        {| correct := false; matchedHash := JUndefined;
           vr_algorithm := JUndefined; saltUsed := JUndefined;
           vr_error := JStr message; verificationTime := None |}
    end.

Definition verifyAgainstPlaintext (answer plaintext : jsstring) : VerificationResult :=
  let normalizedPlaintext := normalizeAnswer plaintext in
  let isMatch := strEq answer normalizedPlaintext in
  {| correct := isMatch;
     matchedHash := if isMatch then JStr plaintext else JNull;
     vr_algorithm := JStr (js "plaintext");
     saltUsed := JUndefined; vr_error := JUndefined; verificationTime := None |}.

Definition verifyAgainstPattern (answer pattern : jsstring) : VerificationResult :=
  match regexTest host pattern answer with
  | Returned isMatch =>
      {| correct := isMatch;
         matchedHash := if isMatch then JStr pattern else JNull;
         vr_algorithm := JStr (js "pattern");
         saltUsed := JUndefined; vr_error := JUndefined; verificationTime := None |}
  | Thrown _ =>
      {| correct := false; matchedHash := JUndefined;
         vr_algorithm := JUndefined; saltUsed := JUndefined;
         vr_error := JStr (js "Ung" ++ [252%N] ++ js "ltiges Pattern");
         verificationTime := None |}
  end.

Record CacheEntry := { result : VerificationResult; ce_timestamp : Z }.

Definition Cache := JsMap.t CacheEntry.

Fixpoint insertByAge (e : jsstring * CacheEntry) (l : list (jsstring * CacheEntry))
    : list (jsstring * CacheEntry) :=
  match l with
  | [] => [e]
  | x :: tl =>
      if ce_timestamp (snd e) <? ce_timestamp (snd x) then e :: x :: tl
      else x :: insertByAge e tl
  end.

Definition sortByAge (l : list (jsstring * CacheEntry)) : list (jsstring * CacheEntry) :=
  fold_left (fun acc e => insertByAge e acc) l [].

Definition cacheResult (now : Z) (cache : Cache) (k : jsstring)
    (r : VerificationResult) : Cache :=
  let cache :=
    if cache_maxEntries <=? JsMap.size cache then
      let toRemove := Z.to_nat (cache_maxEntries * 2 / 10) in
      fold_left (fun c e => JsMap.delete c (fst e))
                (firstn toRemove (sortByAge cache)) cache
    else cache in
  JsMap.set cache k {| result := r; ce_timestamp := now |}.

(** The loop over [puzzleData.answerHashes]: the first hash that matches. *)
Fixpoint firstMatch (answer : jsstring) (hashes : list jsstring)
    : option VerificationResult :=
  match hashes with
  | [] => None
  | hash :: tl =>
      let r := verifyAgainstHash answer hash in
      if correct r then Some r else firstMatch answer tl
  end.

Definition truthyStr (o : option jsstring) : option jsstring :=
  match o with Some (c :: r) => Some (c :: r) | _ => None end.

(** The checks of [verifyAnswer] after a cache miss, in their order. *)
Definition verifyUncached (normalizedAnswer : jsstring) (puzzleData : PuzzleData)
    : VerificationResult :=
  let verificationResult :=
    {| correct := false; matchedHash := JUndefined; vr_algorithm := JUndefined;
       saltUsed := JUndefined; vr_error := JUndefined; verificationTime := None |} in
  let verificationResult :=
    match truthyStr (answerHash puzzleData) with
    | Some h => verifyAgainstHash normalizedAnswer h
    | None => verificationResult
    end in
  let verificationResult :=
    match correct verificationResult, answerHashes puzzleData with
    | false, Some hashes =>
        match firstMatch normalizedAnswer hashes with
        | Some r => r
        | None => verificationResult
        end
    | _, _ => verificationResult
    end in
  let verificationResult :=
    match correct verificationResult, truthyStr (answerPlaintext puzzleData) with
    | false, Some p => verifyAgainstPlaintext normalizedAnswer p
    | _, _ => verificationResult
    end in
  match correct verificationResult, truthyStr (answerPattern puzzleData) with
  | false, Some p => verifyAgainstPattern normalizedAnswer p
  | _, _ => verificationResult
  end.

Definition withTime (r : VerificationResult) (duration : Z) : VerificationResult :=
  {| correct := correct r; matchedHash := matchedHash r;
     vr_algorithm := vr_algorithm r; saltUsed := saltUsed r;
     vr_error := vr_error r; verificationTime := Some duration |}.

(** [verifyAnswer]: the result and the cache after the call. *)
Definition verifyAnswer (at_ : Instants) (cache : Cache)
    (normalizedAnswer : jsstring) (puzzleData : PuzzleData)
    : VerificationResult * Cache :=
  let cacheKey := getCacheKey normalizedAnswer puzzleData in
  let fresh :=
    let verificationResult :=
      withTime (verifyUncached normalizedAnswer puzzleData)
               (atEnd at_ - startTime at_) in
    (verificationResult, cacheResult (atStore at_) cache cacheKey verificationResult) in
  match JsMap.get cache cacheKey with
  | Some cached =>
      if atLookup at_ - ce_timestamp cached <? cache_ttl
      then (result cached, cache)
      else fresh
  | None => fresh
  end.

End WithHost.
End AnswerUtil.

(* ===================================================================== *)
(** * Terms of the properties: agreement of a payload, shapes of strings *)
(* ===================================================================== *)

Module TokenTerms.
Import QRVerify.

Section WithHost.
Variable host : Host.

(** An expectation of the caller that the payload does not meet: the field
    reads as [undefined], or the expected value is not [null] and differs
    from the field, or the payload cannot be read at all. *)
Definition disagrees (pl : JsVal) (expected : list (jsstring * JsVal)) : Prop :=
  exists (k : jsstring) (expectedValue : JsVal),
    In (k, expectedValue) expected
    /\ (getProp (hostProp host) pl k = Returned JUndefined
        \/ (exists actual, getProp (hostProp host) pl k = Returned actual
                           /\ expectedValue <> JNull
                           /\ strictEq actual expectedValue = false)
        \/ exists m, getProp (hostProp host) pl k = Thrown m).

(** The signature of the token is the one that belongs to its payload
    segment under the key: with [crypto.subtle], the HMAC-SHA-256 that
    [verifyHMACWebCrypto] sets out to compute; without it, the hash of
    [verifyHMACFallback]. *)
Definition signatureVerifies (keyData : KeyData) (parsed : Parsed) : Prop :=
  match subtle host with
  | Some crypto =>
      signature parsed
      = JStr (hmacSha256Hex crypto (key keyData) (originalData parsed))
  | None =>
      simpleHashCompare (key keyData ++ originalData parsed) (signature parsed)
      = true
  end.

Definition rejects (o : Outcome DataValid) : Prop :=
  match o with
  | Returned dv => dv_valid dv = false
  | Thrown _ => True
  end.

End WithHost.
End TokenTerms.

Export TokenTerms.

Module NormalForm.
Import AnswersStore.
Local Open Scope N_scope.

(** The string does not start with white space. *)
Definition headOk (s : jsstring) : bool :=
  match s with
  | [] => true
  | c :: _ => negb (isWhiteSpace c)
  end.

(** The string does not end with white space; [prev] answers for the
    empty string. *)
Fixpoint lastOkFrom (prev : bool) (s : jsstring) : bool :=
  match s with
  | [] => prev
  | c :: tl => lastOkFrom (negb (isWhiteSpace c)) tl
  end.

(** Every white-space code unit is a single space between two others;
    [prevWs] tells that the code unit before the string is white space. *)
Fixpoint okRuns (prevWs : bool) (s : jsstring) : bool :=
  match s with
  | [] => true
  | c :: tl =>
      if isWhiteSpace c then (c =? SPACE) && negb prevWs && okRuns true tl
      else okRuns false tl
  end.

Definition noWhiteSpace (s : jsstring) : Prop :=
  Forall (fun c => negb (isWhiteSpace c) = true) s.

(** A replacement text without white space, put in for a code unit that is
    not white space. *)
Definition plainReplacement (c : N) (rep : jsstring) : Prop :=
  isWhiteSpace c = false /\ rep <> [] /\ noWhiteSpace rep.

(** What a rule has achieved on a string once it has been applied. *)
Definition achieved (r : Rule) (s : jsstring) : Prop :=
  match r with
  | Lowercase => Forall (fun c => lowerChar c = c) s
  | Trim => headOk s = true /\ lastOkFrom true s = true
  | CollapseSpaces => okRuns false s = true
  | ReplaceAe => Forall (fun c => c <> a_umlaut) s
  | ReplaceOe => Forall (fun c => c <> o_umlaut) s
  | ReplaceUe => Forall (fun c => c <> u_umlaut) s
  | ReplaceSs => Forall (fun c => c <> sharp_s) s
  | RemoveSpaces => noWhiteSpace s
  | RemovePunctuation => Forall (fun c => negb (isPunctuation c) = true) s
  | UnknownRule => True
  end.

(** [keeps r later]: applying [later] cannot undo what [r] has achieved.
    Removing punctuation can bring white space to the ends or side by side;
    lowercasing can bring back a letter that a replacement took out. *)
Definition keeps (r later : Rule) : bool :=
  match r, later with
  | (Trim | CollapseSpaces), RemovePunctuation => false
  | (ReplaceAe | ReplaceOe | ReplaceUe | ReplaceSs), Lowercase => false
  | _, _ => true
  end.

(** No rule of the list is undone by a later one. *)
Fixpoint settled (rules : list Rule) : bool :=
  match rules with
  | [] => true
  | r :: tl => forallb (keeps r) tl && settled tl
  end.

Definition runSteps (steps : list Rule) (s : jsstring) : jsstring :=
  fold_left (fun normalized r => applyStep r normalized) steps s.

(** A string of Latin-1 characters: every code unit is below 256. On
    these [toLowerCase] is the method of the language. *)
Definition latin1 (s : jsstring) : Prop := Forall (fun c => c < 256) s.

End NormalForm.

Export NormalForm.

Module CalendarTerms.
Local Open Scope Z_scope.

(** [YearFromDay d] is the year whose days contain day [d]. *)
Definition yearContains (d : Z) : bool :=
  (DayFromYear (YearFromDay d) <=? d) && (d <? DayFromYear (YearFromDay d + 1)).

End CalendarTerms.

Export CalendarTerms.

(* ===================================================================== *)
(** * Concrete inputs used in the examples *)
(* ===================================================================== *)

Module Examples.
Local Open Scope Z_scope.

(** Central European Time, and noon of 15 January 2026. *)
Definition CET : Z := 3600000.
Definition january15 : Date := newDate CET 2026 0 15 12 0 0 0.

(** The Stage-2 configuration of the plasma filter puzzle. *)
Definition plasmaConfig : AnswersStore.Stage2Config :=
  {| AnswersStore.normalize := Some (js "lowercase, trim, collapse-spaces");
     AnswersStore.accepted :=
       JArr [JStr (js "plasmafilter"); JStr (js "plasma-filter")];
     AnswersStore.answer_hashes := JUndefined;
     AnswersStore.salt := JUndefined |}.

(** A hash validator that accepts every answer, and one that always
    fails with an exception. *)
Definition acceptAll : AnswersStore.HashValidator :=
  fun _ _ _ => Returned true.
Definition alwaysThrows : AnswersStore.HashValidator :=
  fun _ _ _ => Thrown (js "crypto.subtle is undefined").

(** The plasma filter puzzle with a reference hash instead of the
    accepted answers. *)
Definition hashedConfig : AnswersStore.Stage2Config :=
  {| AnswersStore.normalize := None;
     AnswersStore.accepted := JUndefined;
     AnswersStore.answer_hashes := JArr [JStr (js "5f2a9c")];
     AnswersStore.salt := JStr (js "kk") |}.

(** An older browser, or a page outside a secure context: no inherited
    properties of interest and no [crypto.subtle], so that [verifyHMAC]
    takes its fallback. *)
Definition demoHost : QRVerify.Host :=
  {| QRVerify.hostProp := fun _ _ => JUndefined;
     QRVerify.subtle := None;
     QRVerify.atob := fun s => Returned s;
     QRVerify.JSON_parse := fun _ => Thrown (js "Unexpected token");
     QRVerify.JSON_stringify := fun _ => js "{}";
     QRVerify.checkRateLimit := Some true;
     QRVerify.timedOut := false |}.

(** A token for door 3 (its payload segment is the base64 text of
    [{"day":3}]) whose signature is the fallback hash of the key
    [winter2025] and the payload segment, 6a097451; one whose signature is
    wrong, and one that names a key that is not configured. *)
Definition door3Payload : JsVal := JObj [(js "day", JNum 3)].

Definition winterKey : QRVerify.KeyData :=
  {| QRVerify.kd_algorithm := js "HMAC";
     QRVerify.key := js "winter2025_secret_key_demo_only";
     QRVerify.kd_keyId := js "winter2025";
     QRVerify.description :=
       js "Demo-Schl" ++ [252%N] ++ js "ssel f" ++ [252%N]
          ++ js "r Winter Rallye 2025" |}.

Definition door3Signature : jsstring := js "6a097451".

Definition door3Token : QRVerify.Parsed :=
  {| QRVerify.version := JStr (js "hmac");
     QRVerify.algorithm := JStr (js "HMAC");
     QRVerify.keyId := JStr (js "winter2025");
     QRVerify.signature := JStr door3Signature;
     QRVerify.payload := door3Payload;
     QRVerify.originalData := js "eyJkYXkiOjN9" |}.

Definition forgedToken : QRVerify.Parsed :=
  {| QRVerify.version := JStr (js "hmac");
     QRVerify.algorithm := JStr (js "HMAC");
     QRVerify.keyId := JStr (js "winter2025");
     QRVerify.signature := JStr (js "00000000");
     QRVerify.payload := door3Payload;
     QRVerify.originalData := js "eyJkYXkiOjN9" |}.

Definition strangerToken : QRVerify.Parsed :=
  {| QRVerify.version := JStr (js "hmac");
     QRVerify.algorithm := JStr (js "HMAC");
     QRVerify.keyId := JStr (js "sommer2026");
     QRVerify.signature := JStr (js "00000000");
     QRVerify.payload := door3Payload;
     QRVerify.originalData := js "eyJkYXkiOjN9" |}.

(** A hash validator that completes and finds no match. *)
Definition rejectAll : AnswersStore.HashValidator :=
  fun _ _ _ => Returned false.

(** A page without SecurityStatic, and a development puzzle whose answer
    is given in plain text. *)
Definition plainHost : AnswerUtil.Host :=
  {| AnswerUtil.createSecureHash := None;
     AnswerUtil.regexTest := fun _ _ => Returned false |}.

Definition plainPuzzle (d : option Z) (answer : jsstring) : AnswerUtil.PuzzleData :=
  {| AnswerUtil.day := d;
     AnswerUtil.answerHash := None;
     AnswerUtil.answerHashes := None;
     AnswerUtil.answerPlaintext := Some answer;
     AnswerUtil.answerPattern := None |}.

(** A first call at 10:00:00.000 on 14 November 2025 (UTC) and a second
    call one second later. *)
Definition firstCall : AnswerUtil.Instants :=
  {| AnswerUtil.startTime := 1763114400000;
     AnswerUtil.atLookup := 1763114400000;
     AnswerUtil.atEnd := 1763114400002;
     AnswerUtil.atStore := 1763114400002 |}.


(** A configuration that trims before it removes punctuation. *)
Definition trimThenPunctuation : AnswersStore.Stage2Config :=
  {| AnswersStore.normalize := Some (js "trim, remove-punctuation");
     AnswersStore.accepted := JUndefined;
     AnswersStore.answer_hashes := JUndefined;
     AnswersStore.salt := JUndefined |}.

(** A configuration that replaces the a-umlaut before it lowercases. *)
Definition replaceThenLowercase : AnswersStore.Stage2Config :=
  {| AnswersStore.normalize :=
       Some (js "replace-" ++ [228%N] ++ js "->ae, lowercase");
     AnswersStore.accepted := JUndefined;
     AnswersStore.answer_hashes := JUndefined;
     AnswersStore.salt := JUndefined |}.


End Examples.

Export Examples.

(* ===================================================================== *)
(** * Further terms: the string hash as a polynomial *)
(* ===================================================================== *)

Module HashTerms.
Local Open Scope Z_scope.

(** The value [c0 * 31^(n-1) + ... + c(n-1)] of a string, without
    wrap-around. *)
Definition polynomial31 (s : jsstring) : Z :=
  fold_left (fun acc c => 31 * acc + Z.of_N c) s 0.

End HashTerms.

Export HashTerms.

(* ===================================================================== *)
(** * Further terms: well-formed maps, expectations that are met *)
(* ===================================================================== *)

Module CacheTerms.

(** A [Map] holds each key once. *)
Definition distinctKeys (V : Type) (m : JsMap.t V) : Prop :=
  NoDup (map fst m).

(** The same, as a check that can be run on a list of keys. *)
Fixpoint distinctb (keys : list jsstring) : bool :=
  match keys with
  | [] => true
  | k :: tl => negb (existsb (strEq k) tl) && distinctb tl
  end.

(** The first of two cache entries is not the younger one. *)
Definition notYounger (a b : jsstring * QRVerify.CacheEntry) : Prop :=
  (QRVerify.ce_timestamp (snd a) <= QRVerify.ce_timestamp (snd b))%Z.

(** The token has no verdict in the cache that a lookup at this time
    would still return. *)
Definition unanswered (at_ : QRVerify.Instants) (cache : QRVerify.Cache)
    (qrData : jsstring) : Prop :=
  match JsMap.get cache (QRVerify.getCacheKey qrData) with
  | Some cached =>
      (QRVerify.cacheTimeout
       <= QRVerify.atLookup at_ - QRVerify.ce_timestamp cached)%Z
  | None => True
  end.

End CacheTerms.

Export CacheTerms.

Module ExpectationTerms.
Import QRVerify.

(** Every expected field can be read from the payload, is not
    [undefined], and equals the expected value unless that is [null]. *)
Definition meets (host : Host) (pl : JsVal)
    (expected : list (jsstring * JsVal)) : Prop :=
  Forall (fun entry =>
            exists actual,
              getProp (hostProp host) pl (fst entry) = Returned actual
              /\ actual <> JUndefined
              /\ (snd entry = JNull \/ strictEq actual (snd entry) = true))
         expected.

End ExpectationTerms.

Export ExpectationTerms.

(* ===================================================================== *)
(** * Further concrete inputs *)
(* ===================================================================== *)

Module MoreExamples.
Local Open Scope Z_scope.

Definition quote : jsstring := [34%N].

(** The JSON texts of [{"day":3}] and [{"algorithm":"ECDSA"}] and their
    base64 forms. *)
Definition day3Text : jsstring := js "{" ++ quote ++ js "day" ++ quote ++ js ":3}".
Definition day3Base64 : jsstring := js "eyJkYXkiOjN9".
Definition ecdsaText : jsstring :=
  js "{" ++ quote ++ js "algorithm" ++ quote ++ js ":" ++ quote ++ js "ECDSA"
     ++ quote ++ js "}".
Definition ecdsaBase64 : jsstring := js "eyJhbGdvcml0aG0iOiJFQ0RTQSJ9".
Definition ecdsaPayload : JsVal := JObj [(js "algorithm", JStr (js "ECDSA"))].

(** A browser that decodes and parses these texts, without
    [crypto.subtle] as [demoHost]. *)
Definition parsingHost : QRVerify.Host :=
  {| QRVerify.hostProp := fun _ _ => JUndefined;
     QRVerify.subtle := None;
     QRVerify.atob := fun s =>
       if strEq s day3Base64 then Returned day3Text
       else if strEq s ecdsaBase64 then Returned ecdsaText
       else if strEq s (js "c2ln") then Returned (js "sig")
       else Thrown (js "The string to be decoded is not correctly encoded.");
     QRVerify.JSON_parse := fun t =>
       if strEq t day3Text then Returned door3Payload
       else if strEq t ecdsaText then Returned ecdsaPayload
       else Thrown (js "Unexpected token");
     QRVerify.JSON_stringify := fun _ => js "{}";
     QRVerify.checkRateLimit := Some true;
     QRVerify.timedOut := false |}.

(** The door-3 token in the hmac form, and a v1 token that declares the
    algorithm ECDSA. *)
Definition door3Raw : jsstring :=
  js "hmac.winter2025." ++ door3Signature ++ js "." ++ day3Base64.
Definition ecdsaRaw : jsstring := js "v1.c2ln." ++ ecdsaBase64.

(** Two calls of [verifyQRCode], one second apart. *)
Definition qrFirstCall : QRVerify.Instants :=
  {| QRVerify.atLookup := 1763114400000;
     QRVerify.atVerdict := 1763114400003;
     QRVerify.atStore := 1763114400003 |}.
Definition qrSecondCall : QRVerify.Instants :=
  {| QRVerify.atLookup := 1763114401000;
     QRVerify.atVerdict := 1763114401001;
     QRVerify.atStore := 1763114401001 |}.

(** A full token cache: 100 verdicts under the keys 0 to 99, the one
    under key [i] stored at the time [i]. *)
Definition fullCache : QRVerify.Cache :=
  map (fun i => (numberToString (Z.of_nat i),
                 {| QRVerify.result := QRVerify.failure 0 [];
                    QRVerify.ce_timestamp := Z.of_nat i |}))
      (seq 0 100).

End MoreExamples.

Export MoreExamples.

(* ===================================================================== *)
(** * Date setters, the clock of WR_TIME and the next release of TimeBerlin *)
(* ===================================================================== *)

Module JsDateSetters.
Local Open Scope Z_scope.

(** [date.setHours(hour, min, sec, ms)] and [date.setDate(dt)]: the new
    time value of the object. *)
Definition setHours (tza : Z) (d : Date) (hour min sec ms : Z) : Date :=
  match d with
  | None => None
  | Some tv =>
      let t := LocalTime tza tv in
      TimeClip (UTC tza (MakeDate (Day t) (MakeTime hour min sec ms)))
  end.

Definition setDate (tza : Z) (d : Date) (dt : option Z) : Date :=
  match d, dt with
  | Some tv, Some dt =>
      let t := LocalTime tza tv in
      let newDate := MakeDate (MakeDay (YearFromTime t) (MonthFromTime t) dt)
                              (TimeWithinDay t) in
      TimeClip (UTC tza newDate)
  | _, _ => None
  end.

(** [n.toString()] of a number that may be NaN. *)
Definition numToString (n : option Z) : jsstring :=
  match n with Some z => numberToString z | None => js "NaN" end.

(** [s.padStart(targetLength, fill)] for a one-code-unit filler. *)
Definition padStart (targetLength : nat) (fill : N) (s : jsstring) : jsstring :=
  repeat fill (targetLength - List.length s) ++ s.

End JsDateSetters.

Export JsDateSetters.

Module WR_TIME_clock.
Local Open Scope Z_scope.
Import WR_TIME.

Section Host.
Variable tza : Z.
Variable cfg : TimeCfg.

Definition formatTimeHHMM (date : Date) : jsstring :=
  let hours := padStart 2 48 (numToString (getHours tza date)) in
  let minutes := padStart 2 48 (numToString (getMinutes tza date)) in
  hours ++ js ":" ++ minutes.

Definition getNextDailyUnlock (now : Date) : Date :=
  let today :=
    setHours tza now (dailyUnlockHour cfg) (dailyUnlockMinute cfg) 0 0 in
  if numLt now today then today
  else
    let tomorrow := today in
    setDate tza tomorrow (numAdd (getDate tza tomorrow) (Some 1)).

End Host.

(** [formatCountdown] on the difference of two time values, which is an
    integer or NaN. *)
Definition formatCountdown (deltaMs : option Z) : jsstring :=
  match deltaMs with
  | Some delta =>
      if delta <=? 0 then js "00:00:00"
      else
        let totalSeconds := delta / 1000 in
        let hours := totalSeconds / 3600 in
        let minutes := Z.rem totalSeconds 3600 / 60 in
        let seconds := Z.rem totalSeconds 60 in
        let pad := fun n => padStart 2 48 (numberToString n) in
        pad hours ++ js ":" ++ pad minutes ++ js ":" ++ pad seconds
  | None => js "NaN:NaN:NaN"
  end.

End WR_TIME_clock.

Module TimeBerlin_next.
Local Open Scope Z_scope.
Import TimeBerlin.

Section Host.
Variable tza : Z.

(** [getNextPuzzleTime]: [None] is the source's [null]. *)
Definition getNextPuzzleTime (now : Date) : option Date :=
  let currentDay := getDate tza now in
  let currentMonth := numAdd (getMonth tza now) (Some 1) in
  let currentHour := getHours tza now in
  let currentMinute := getMinutes tza now in
  if negb (numEq currentMonth (Some 12)) || numGt currentDay (Some 24) then None
  else
    let releaseTime := dailyReleaseTime in
    let nextReleaseDay :=
      if numGt currentHour (Some (hour releaseTime))
         || (numEq currentHour (Some (hour releaseTime))
             && numGe currentMinute (Some (minute releaseTime)))
      then numAdd currentDay (Some 1)
      else currentDay in
    if numGt nextReleaseDay (Some 24) then None
    else
      let nextRelease := now in
      let nextRelease := setDate tza nextRelease nextReleaseDay in
      Some (setHours tza nextRelease (hour releaseTime) (minute releaseTime)
              (second releaseTime) 0).

End Host.
End TimeBerlin_next.

(** Reading a countdown text [HH:MM:SS] back into seconds. *)
Module ClockTerms.
Local Open Scope Z_scope.

Definition readCountdown (text : jsstring) : option Z :=
  match split 58 text with
  | [h; m; s] =>
      match digitsVal 0 h, digitsVal 0 m, digitsVal 0 s with
      | Some h, Some m, Some s => Some (h * 3600 + m * 60 + s)
      | _, _, _ => None
      end
  | _ => None
  end.

(** A number below 100, padded to two places: two digits that read back
    as the number. *)
Definition twoPlaces (n : Z) : bool :=
  let p := padStart 2 48 (numberToString n) in
  Nat.eqb (List.length p) 2
  && match digitsVal 0 p with Some v => v =? n | None => false end
  && negb (existsb (N.eqb 58) p).

End ClockTerms.

Export ClockTerms.

(* ===================================================================== *)
(** * AnswerUtil: creating hashes and recording submissions *)
(* ===================================================================== *)

Module AnswerUtilTools.
Local Open Scope Z_scope.
Import AnswerUtil.

(** [createHashForAnswer(answer, salt)]; [secure] is
    [window.SecurityStatic.createSecureHash] when it is loaded, which
    receives the salt as it was passed ([None] is [null]). *)
Definition createHashForAnswer
    (secure : option (jsstring -> option jsstring -> Outcome jsstring))
    (answer : jsstring) (salt : option jsstring) : Outcome jsstring :=
  let normalized := normalizeAnswer answer in
  match secure with
  | Some createSecureHash => createSecureHash normalized salt
  | None => Returned (fallbackHash normalized (optStr salt))
  end.

(** An entry of [this.submissionHistory]. *)
Record Submission := {
  sub_timestamp : Z;
  rawAnswer : jsstring;
  sub_normalizedAnswer : jsstring;
  sub_correct : bool;
  puzzleId : JsVal;
  points : JsVal;
  sub_verificationTime : Z
}.

(** [s.substring(0, n)] *)
Definition substring0 (n : nat) (s : jsstring) : jsstring := firstn n s.

(** [a.slice(-n)] *)
Definition sliceLast (A : Type) (n : nat) (a : list A) : list A :=
  skipn (List.length a - n) a.

(** [recordSubmission]: the history after the call. [resultPoints] is
    [result.points], [JUndefined] when the result has none. *)
Definition recordSubmission (now : Z) (submissionHistory : list Submission)
    (rawAnswer' normalizedAnswer : jsstring) (result : VerificationResult)
    (resultPoints : JsVal) (puzzleData : PuzzleData) : list Submission :=
  let submission :=
    {| sub_timestamp := now;
       rawAnswer := substring0 50 rawAnswer';
       sub_normalizedAnswer := substring0 50 normalizedAnswer;
       sub_correct := correct result;
       puzzleId := match day puzzleData with
                   | Some d => if d =? 0 then JStr (js "unknown") else JNum d
                   | None => JStr (js "unknown")
                   end;
       points := orElse resultPoints (JNum 0);
       sub_verificationTime := match verificationTime result with
                               | Some t => t
                               | None => 0
                               end |} in
  let submissionHistory := submissionHistory ++ [submission] in
  if (100 <? List.length submissionHistory)%nat
  then sliceLast 50 submissionHistory
  else submissionHistory.

End AnswerUtilTools.

(** Terms for the properties of answers. *)
Module AnswerTerms.

(** A lowercase letter of the basic alphabet or a digit. *)
Definition isLowerAlnum (c : N) : bool :=
  ((97 <=? c) && (c <=? 122) || (48 <=? c) && (c <=? 57))%N.

End AnswerTerms.

Export AnswerTerms.

(* ===================================================================== *)
(** * CalendarLogic (calendar.logic.js) and the progress of the app state *)
(* ===================================================================== *)

Module CalendarLogic.
Local Open Scope Z_scope.

Definition totalDays : Z := 24.
Definition stage1Days : Z := 12.

Section Host.
Variable tza : Z.

Definition getCurrentDecemberDay (now : Date) : option Z :=
  let month := numAdd (getMonth tza now) (Some 1) in
  let date := getDate tza now in
  if numEq month (Some 12) then option_map (fun d => Z.min d 24) date
  else if numGt month (Some 12) then Some 24
  else None.

(** [isPuzzleAvailable(day, currentDecemberDay)]. [wr_time] is the
    configuration of [window.WR_TIME] with the reading of its
    [getBerlinNow()], when that module is loaded; [now] is the
    [new Date()] of the fallback. *)
Definition isPuzzleAvailable (wr_time : option (WR_TIME.TimeCfg * Date))
    (day : Z) (currentDecemberDay : option Z) (now : Date) : bool :=
  match wr_time with
  | Some (cfg, berlinNow) => WR_TIME.isDoorUnlocked tza cfg day berlinNow
  | None =>
      match currentDecemberDay with
      | None | Some 0 => numGt (getMonth tza now) (Some 11)
      | Some current => day <=? current
      end
  end.

End Host.

(** The part of [window.WinterRallyeApp.state] that the calendar reads and
    writes; [solvedPuzzles] is a [Set], kept in insertion order. *)
Record AppState := {
  solvedPuzzles : list Z;
  totalPoints : Z;
  stage1Progress : Z;
  stage2Progress : Z
}.

(** The state set up by the constructor and by [resetUserState]. *)
Definition initialState : AppState :=
  {| solvedPuzzles := []; totalPoints := 0;
     stage1Progress := 0; stage2Progress := 0 |}.

Definition setHas (s : list Z) (x : Z) : bool := existsb (Z.eqb x) s.

Definition setAdd (s : list Z) (x : Z) : list Z :=
  if setHas s x then s else s ++ [x].

(** [isPuzzleSolved] with the app state present. *)
Definition isPuzzleSolved (state : AppState) (day : Z) : bool :=
  setHas (solvedPuzzles state) day.

(** The update of the app state in [markPuzzleAsSolved]. *)
Definition markPuzzleAsSolved (state : AppState) (day points : Z) : AppState :=
  {| solvedPuzzles := setAdd (solvedPuzzles state) day;
     totalPoints := totalPoints state + points;
     stage1Progress :=
       if day <=? stage1Days then stage1Progress state + 1
       else stage1Progress state;
     stage2Progress :=
       if day <=? stage1Days then stage2Progress state
       else stage2Progress state + 1 |}.

(** One round of the loop of [calculateStageProgress]. *)
Definition countDay (state : AppState) (acc : Z * Z) (day : Z) : Z * Z :=
  let '(stage1Solved, stage2Solved) := acc in
  if isPuzzleSolved state day then
    if day <=? stage1Days then (stage1Solved + 1, stage2Solved)
    else (stage1Solved, stage2Solved + 1)
  else (stage1Solved, stage2Solved).

(** The days 1 to [totalDays]. *)
Definition allDays : list Z := map Z.of_nat (seq 1 (Z.to_nat totalDays)).

Definition calculateStageProgress (state : AppState) : Z * Z :=
  fold_left (countDay state) allDays (0, 0).

End CalendarLogic.

(* ===================================================================== *)
(** * TimeBerlin: the manual summer-time rule (time.berlin.js) *)
(* ===================================================================== *)

Module TimeBerlin_dst.
Local Open Scope Z_scope.

(** [WeekDay]: 0 is Sunday; 1 January 1970 was a Thursday. *)
Definition WeekDay (t : Z) : Z := (Day t + 4) mod 7.

Definition getDay (tza : Z) (d : Date) : option Z :=
  option_map (fun t => WeekDay (LocalTime tza t)) d.

Definition numSub (a b : option Z) : option Z :=
  match a, b with Some x, Some y => Some (x - y) | _, _ => None end.

Section Host.
Variable tza : Z.

Definition getLastSunday (year month : Z) : Date :=
  let date := newDate tza year month 0 0 0 0 0 in
  let dayOfWeek := getDay tza date in
  let daysBack := if numEq dayOfWeek (Some 0) then Some 0 else dayOfWeek in
  setDate tza date (numSub (getDate tza date) daysBack).

(** [manualDSTCheck]: an invalid date has no year, and every comparison
    with it is false. *)
Definition manualDSTCheck (date : Date) : bool :=
  match getFullYear tza date with
  | Some year =>
      let dstStart := setHours tza (getLastSunday year 3) 2 0 0 0 in
      let dstEnd := setHours tza (getLastSunday year 10) 3 0 0 0 in
      numGe date dstStart && numLt date dstEnd
  | None => false
  end.

End Host.
End TimeBerlin_dst.

(* ===================================================================== *)
(** * Terms of the calendar progress *)
(* ===================================================================== *)

(** Counting the solved days of a stage among given days. *)
Module ProgressTerms.
Local Open Scope Z_scope.
Import CalendarLogic.

Definition solvedIn (state : AppState) (firstStage : bool) (days : list Z) : Z :=
  Z.of_nat (List.length
              (filter (fun day => isPuzzleSolved state day
                                  && Bool.eqb (day <=? stage1Days) firstStage)
                      days)).

(** The app state after a run of calls [markPuzzleAsSolved(day, points)],
    starting from the initial state. *)
Definition afterCalls (calls : list (Z * Z)) : AppState :=
  fold_left (fun state call => markPuzzleAsSolved state (fst call) (snd call))
            calls initialState.

End ProgressTerms.

Export ProgressTerms.

(* ===================================================================== *)
(** * Properties of the time gate *)
(* ===================================================================== *)

Section TimeGate.
Local Open Scope Z_scope.
Import WR_TIME.

Lemma TimeClip_in_range (t : Z) :
  Z.abs t <= 8640000000000000 -> TimeClip t = Some t.
Proof.
  intros H. unfold TimeClip.
  destruct (Z.leb_spec (Z.abs t) 8640000000000000); [reflexivity | lia].
Qed.

(** Local time of a date built from local fields is those fields' time. *)
Lemma LocalTime_UTC (tza t : Z) : LocalTime tza (UTC tza t) = t.
Proof. unfold LocalTime, UTC. lia. Qed.

(** The time value behind [getDoorUnlockDate]: 09:00 local time on the
    [day]-th day counted from 1 December 2025. *)
Lemma getDoorUnlockDate_value (tza : Z) (iso : jsstring) (day : Z) :
  - msPerDay < tza < msPerDay -> 1 <= day <= 24 ->
  getDoorUnlockDate tza (WR_TIME_CFG_with iso) day
  = Some (UTC tza ((20422 + day) * msPerDay + 9 * msPerHour)).
Proof.
  intros Htz Hday. unfold getDoorUnlockDate, newDate. cbn [dailyUnlockHour
    dailyUnlockMinute WR_TIME_CFG_with].
  replace (MakeDate (MakeDay _ 11 day) (MakeTime 9 0 0 0))
    with ((20422 + day) * msPerDay + 9 * msPerHour).
  - apply TimeClip_in_range. unfold UTC, msPerDay, msPerHour in *. lia.
  - unfold MakeDate, MakeDay, MakeTime.
    change (if (0 <=? 2025) && (2025 <=? 99) then 1900 + 2025 else 2025) with 2025.
    change (2025 + 11 / 12) with 2025. change (11 mod 12) with 11.
    change (DayFromYear 2025) with 20089.
    change (monthStart 11 (if isLeap 2025 then 1 else 0)) with 334.
    unfold msPerDay, msPerHour, msPerMinute, msPerSecond. lia.
Qed.

Lemma day_cases (day : Z) :
  1 <= day <= 24 ->
  In day [1; 2; 3; 4; 5; 6; 7; 8; 9; 10; 11; 12; 13; 14; 15; 16; 17; 18; 19;
          20; 21; 22; 23; 24].
Proof. intros H. simpl. lia. Qed.

(** Read back in local time, the release moment of door [day] is
    2025-12-[day] 09:00:00.000. *)
Lemma getDoorUnlockDate_fields (tza : Z) (iso : jsstring) (day : Z) :
  - msPerDay < tza < msPerDay -> 1 <= day <= 24 ->
  let d := getDoorUnlockDate tza (WR_TIME_CFG_with iso) day in
  getFullYear tza d = Some 2025 /\ getMonth tza d = Some 11
  /\ getDate tza d = Some day /\ getHours tza d = Some 9
  /\ getMinutes tza d = Some 0 /\ getSeconds tza d = Some 0
  /\ getMilliseconds tza d = Some 0.
Proof.
  intros Htz Hday d. subst d. rewrite getDoorUnlockDate_value by assumption.
  unfold getFullYear, getMonth, getDate, getHours, getMinutes, getSeconds,
    getMilliseconds, option_map. rewrite LocalTime_UTC.
  pose proof (day_cases Hday) as Hin. simpl in Hin.
  repeat (destruct Hin as [<- | Hin];
          [vm_compute; repeat split; reflexivity |]).
  contradiction.
Qed.

(** C1. For a door other than the dev-test door, [isDoorUnlocked] is false
    at every instant strictly before the door's release moment and true at
    the release moment and at every later instant; the release moment is
    09:00:00.000 local time on December [day], 2025. *)
Theorem isDoorUnlocked_follows_schedule (tza : Z) (iso : jsstring) (day now : Z) :
  - msPerDay < tza < msPerDay ->
  1 <= day <= 24 ->
  day <> devTestDay (WR_TIME_CFG_with iso) ->
  exists release : Z,
    getDoorUnlockDate tza (WR_TIME_CFG_with iso) day = Some release
    /\ (getFullYear tza (Some release) = Some 2025
        /\ getMonth tza (Some release) = Some 11
        /\ getDate tza (Some release) = Some day
        /\ getHours tza (Some release) = Some 9
        /\ getMinutes tza (Some release) = Some 0
        /\ getSeconds tza (Some release) = Some 0
        /\ getMilliseconds tza (Some release) = Some 0)
    /\ (now < release ->
        isDoorUnlocked tza (WR_TIME_CFG_with iso) day (Some now) = false)
    /\ (release <= now ->
        isDoorUnlocked tza (WR_TIME_CFG_with iso) day (Some now) = true).
Proof.
  intros Htz Hday Hdev.
  pose proof (getDoorUnlockDate_fields iso Htz Hday) as Hf. cbv zeta in Hf.
  pose proof (getDoorUnlockDate_value iso Htz Hday) as Hv.
  rewrite Hv in Hf.
  exists (UTC tza ((20422 + day) * msPerDay + 9 * msPerHour)).
  split; [exact Hv |]. split; [exact Hf |].
  assert (Hgate : forall n, isDoorUnlocked tza (WR_TIME_CFG_with iso) day (Some n)
                  = (UTC tza ((20422 + day) * msPerDay + 9 * msPerHour) <=? n)).
  { intros n. unfold isDoorUnlocked.
    destruct (Z.eqb_spec day (devTestDay (WR_TIME_CFG_with iso))) as [E | _];
      [contradiction |].
    cbn [andb]. cbv zeta. rewrite Hv. reflexivity. }
  rewrite Hgate. split; intros H.
  - apply Z.leb_gt. exact H.
  - apply Z.leb_le. exact H.
Qed.

(** Door 1 in a host on Central European Time, one millisecond before its
    release. *)
Lemma isDoorUnlocked_follows_schedule_witness :
  (- msPerDay < 3600000 < msPerDay /\ 1 <= 1 <= 24
   /\ 1 <> devTestDay (WR_TIME_CFG_with (js "2025-11-14T18:35:00+01:00")))
  /\ exists release : Z,
    getDoorUnlockDate 3600000 WR_TIME_CFG 1 = Some release
    /\ (getFullYear 3600000 (Some release) = Some 2025
        /\ getMonth 3600000 (Some release) = Some 11
        /\ getDate 3600000 (Some release) = Some 1
        /\ getHours 3600000 (Some release) = Some 9
        /\ getMinutes 3600000 (Some release) = Some 0
        /\ getSeconds 3600000 (Some release) = Some 0
        /\ getMilliseconds 3600000 (Some release) = Some 0)
    /\ (1764575999999 < release ->
        isDoorUnlocked 3600000 WR_TIME_CFG 1 (Some 1764575999999) = false)
    /\ (release <= 1764575999999 ->
        isDoorUnlocked 3600000 WR_TIME_CFG 1 (Some 1764575999999) = true).
Proof.
  assert (Htz : - msPerDay < 3600000 < msPerDay) by (unfold msPerDay; lia).
  assert (Hday : 1 <= 1 <= 24) by lia.
  assert (Hdev : 1 <> devTestDay (WR_TIME_CFG_with (js "2025-11-14T18:35:00+01:00")))
    by (simpl; lia).
  split; [exact (conj Htz (conj Hday Hdev)) |].
  exact (@isDoorUnlocked_follows_schedule 3600000
           (js "2025-11-14T18:35:00+01:00") 1 1764575999999 Htz Hday Hdev).
Defined.

Lemma devTestUnlock_parsed (tza : Z) :
  newDateFromString tza (devTestUnlockISO WR_TIME_CFG) = Some overrideInstant.
Proof. vm_compute. reflexivity. Qed.

(** C2. Door 2 carries the override 2025-11-14T18:35+01:00, which lies
    before its scheduled release on 2 December, 09:00: [isDoorUnlocked 2] is
    true from the override on and false before it (true at 18:36, false at
    18:00 on 14 November); and for any configuration the override test comes
    first and decides alone once it is met. *)
Theorem isDoorUnlocked_override_door2 (tza : Z) (now : Z) :
  - msPerDay < tza < msPerDay ->
  (exists scheduled : Z,
      getDoorUnlockDate tza WR_TIME_CFG 2 = Some scheduled
      /\ overrideInstant < scheduled
      /\ (overrideInstant <= now ->
          isDoorUnlocked tza WR_TIME_CFG 2 (Some now) = true)
      /\ (now < overrideInstant ->
          isDoorUnlocked tza WR_TIME_CFG 2 (Some now) = false))
  /\ isDoorUnlocked tza WR_TIME_CFG 2
       (newDateFromString tza (js "2025-11-14T18:36:00+01:00")) = true
  /\ isDoorUnlocked tza WR_TIME_CFG 2
       (newDateFromString tza (js "2025-11-14T18:00:00+01:00")) = false
  /\ (forall (cfg : TimeCfg) (override : Z),
        newDateFromString tza (devTestUnlockISO cfg) = Some override ->
        override <= now ->
        isDoorUnlocked tza cfg (devTestDay cfg) (Some now) = true).
Proof.
  intros Htz.
  assert (Hv : getDoorUnlockDate tza WR_TIME_CFG 2
               = Some (UTC tza ((20422 + 2) * msPerDay + 9 * msPerHour))).
  { apply getDoorUnlockDate_value; [exact Htz | lia]. }
  assert (Hlt : overrideInstant < UTC tza ((20422 + 2) * msPerDay + 9 * msPerHour)).
  { unfold overrideInstant, UTC, msPerDay, msPerHour in *. lia. }
  assert (Hgate : forall n, isDoorUnlocked tza WR_TIME_CFG 2 (Some n)
                  = if overrideInstant <=? n then true
                    else UTC tza ((20422 + 2) * msPerDay + 9 * msPerHour) <=? n).
  { intros n. unfold isDoorUnlocked. rewrite devTestUnlock_parsed, Hv.
    change (2 =? devTestDay WR_TIME_CFG) with true. cbn [andb numGe].
    destruct (overrideInstant <=? n); reflexivity. }
  split; [| split; [| split]].
  - eexists. split; [exact Hv |]. split; [exact Hlt |]. split; intros H.
    + rewrite Hgate. apply Z.leb_le in H. rewrite H. reflexivity.
    + rewrite Hgate. destruct (Z.leb_spec overrideInstant now); [lia |].
      apply Z.leb_gt. lia.
  - change (newDateFromString tza (js "2025-11-14T18:36:00+01:00"))
      with (Some 1763141760000).
    rewrite Hgate. reflexivity.
  - change (newDateFromString tza (js "2025-11-14T18:00:00+01:00"))
      with (Some 1763139600000).
    rewrite Hgate. change (overrideInstant <=? 1763139600000) with false.
    cbv iota. apply Z.leb_gt. unfold overrideInstant in Hlt. lia.
  - intros cfg override Hp Hle. unfold isDoorUnlocked.
    rewrite Hp, Z.eqb_refl. cbn [andb numGe].
    apply Z.leb_le in Hle. rewrite Hle. reflexivity.
Qed.

(** In a host on Central European Time, at 18:35:30 on 14 November 2025. *)
Lemma isDoorUnlocked_override_door2_witness :
  - msPerDay < 3600000 < msPerDay
  /\ (exists scheduled : Z,
      getDoorUnlockDate 3600000 WR_TIME_CFG 2 = Some scheduled
      /\ overrideInstant < scheduled
      /\ (overrideInstant <= 1763141730000 ->
          isDoorUnlocked 3600000 WR_TIME_CFG 2 (Some 1763141730000) = true)
      /\ (1763141730000 < overrideInstant ->
          isDoorUnlocked 3600000 WR_TIME_CFG 2 (Some 1763141730000) = false))
  /\ isDoorUnlocked 3600000 WR_TIME_CFG 2
       (newDateFromString 3600000 (js "2025-11-14T18:36:00+01:00")) = true
  /\ isDoorUnlocked 3600000 WR_TIME_CFG 2
       (newDateFromString 3600000 (js "2025-11-14T18:00:00+01:00")) = false
  /\ (forall (cfg : TimeCfg) (override : Z),
        newDateFromString 3600000 (devTestUnlockISO cfg) = Some override ->
        override <= 1763141730000 ->
        isDoorUnlocked 3600000 cfg (devTestDay cfg) (Some 1763141730000) = true).
Proof.
  assert (Htz : - msPerDay < 3600000 < msPerDay) by (unfold msPerDay; lia).
  split; [exact Htz |].
  exact (@isDoorUnlocked_override_door2 3600000 1763141730000 Htz).
Defined.

End TimeGate.

Section ContestWindow.
Local Open Scope Z_scope.
Import WR_TIME.

(** [getMonth] never exceeds 11, so the branches guarded by [month > 12]
    cannot be taken. *)
Lemma MonthFromTime_le_11 (t : Z) : 0 <= MonthFromTime t <= 11.
Proof.
  unfold MonthFromTime. cbv zeta.
  repeat match goal with
         | |- context [if ?c then _ else _] => destruct c
         end; lia.
Qed.

Lemma month_above_12_unreachable (tza : Z) (now : Date) :
  numGt (numAdd (getMonth tza now) (Some 1)) (Some 12) = false.
Proof.
  destruct now as [t |]; [| reflexivity]. cbn.
  pose proof (MonthFromTime_le_11 (LocalTime tza t)). apply Z.ltb_ge. lia.
Qed.

(** The month of a time value depends on its day number only. *)
Lemma Day_of_day_start (d : Z) : Day (d * msPerDay) = d.
Proof. unfold Day. apply Z.div_mul. unfold msPerDay. lia. Qed.

Lemma MonthFromTime_by_day (t : Z) :
  MonthFromTime t = MonthFromTime (Day t * msPerDay).
Proof.
  unfold MonthFromTime, DayWithinYear, InLeapYear, YearFromTime.
  rewrite Day_of_day_start. reflexivity.
Qed.

Lemma Day_bounds (t lo hi : Z) :
  lo * msPerDay <= t < hi * msPerDay -> lo <= Day t < hi.
Proof.
  intros [Hlo Hhi]. unfold Day, msPerDay in *. split.
  - apply Z.div_le_lower_bound; lia.
  - apply Z.div_lt_upper_bound; lia.
Qed.






(** After the contest the month/day tests fall short of their comments
    ("Nach Dezember: alle verfügbar"): on 15 January 2026
    [getCurrentDecemberDay] gives null in both modules and
    [isPuzzleAvailable] and [isPuzzleDayAvailable] are false for every
    door, while [isDoorUnlocked] opens doors 1 to 24. *)
Lemma january_reports_nothing_available :
  WR_TIME.getCurrentDecemberDay CET january15 = None
  /\ TimeBerlin.getCurrentDecemberDay CET january15 = None
  /\ (forall day : Z,
        WinterRallyeApp.isPuzzleAvailable_legacy CET day january15 = false)
  /\ (forall day : Z,
        WinterRallyeApp.isPuzzleAvailable CET None day january15 = false)
  /\ (forall day : Z, TimeBerlin.isPuzzleDayAvailable CET day january15 = false)
  /\ forallb (fun day => WR_TIME.isDoorUnlocked CET WR_TIME.WR_TIME_CFG day january15)
       [1; 2; 3; 4; 5; 6; 7; 8; 9; 10; 11; 12; 13; 14; 15; 16; 17; 18; 19;
        20; 21; 22; 23; 24] = true.
Proof.
  repeat split; try (intros day); vm_compute; reflexivity.
Qed.

(** The month/day test opens a door only in a December, whatever the year. *)
Lemma isPuzzleAvailable_legacy_only_in_december (tza day : Z) (now : Date) :
  WinterRallyeApp.isPuzzleAvailable_legacy tza day now = true ->
  getMonth tza now = Some 11 \/ now = None.
Proof.
  destruct now as [t |]; [| auto]. left.
  unfold WinterRallyeApp.isPuzzleAvailable_legacy in H. cbn in *.
  pose proof (MonthFromTime_le_11 (LocalTime tza t)).
  destruct (Z.ltb_spec (MonthFromTime (LocalTime tza t) + 1) 12);
    [discriminate |].
  f_equal. lia.
Qed.

End ContestWindow.

(* ===================================================================== *)
(** * Properties of strings and values *)
(* ===================================================================== *)

Section StringFacts.

Lemma strEq_eq (a b : jsstring) : strEq a b = true <-> a = b.
Proof.
  revert b; induction a as [| x a IH]; intros [| y b]; simpl;
    try (split; [discriminate | congruence]); try tauto.
  rewrite andb_true_iff, N.eqb_eq, IH. split.
  - intros [-> ->]; reflexivity.
  - intros E; injection E; auto.
Qed.

Lemma strEq_refl (a : jsstring) : strEq a a = true.
Proof. apply strEq_eq; reflexivity. Qed.

Lemma strEq_false (a b : jsstring) : strEq a b = false <-> a <> b.
Proof.
  rewrite <- strEq_eq. destruct (strEq a b); split; congruence.
Qed.

(** Strict equality with a string holds for that very string only. *)
Lemma strictEq_JStr (v : JsVal) (s : jsstring) :
  strictEq v (JStr s) = true <-> v = JStr s.
Proof.
  destruct v; simpl; try (split; [discriminate | congruence]).
  rewrite strEq_eq. split; congruence.
Qed.

Lemma strictEq_JNull (v : JsVal) : strictEq v JNull = true <-> v = JNull.
Proof. destruct v; simpl; split; congruence. Qed.

Lemma strictEq_JUndefined (v : JsVal) :
  strictEq v JUndefined = true <-> v = JUndefined.
Proof. destruct v; simpl; split; congruence. Qed.

End StringFacts.

(* ===================================================================== *)
(** * Properties of the answer check (AnswersStore) *)
(* ===================================================================== *)

Section AnswerCheck.
Import AnswersStore.

Lemma includes_In (items : list JsVal) (x : jsstring) :
  includes items x = true <-> In (JStr x) items.
Proof.
  unfold includes. rewrite existsb_exists. split.
  - intros [v [Hin Heq]]. apply strictEq_JStr in Heq. subst v. exact Hin.
  - intros Hin. exists (JStr x). split; [exact Hin |].
    apply strictEq_JStr. reflexivity.
Qed.

(** C3. With an accepted-answer array configured, [validateAnswer] is true
    exactly when the normalized answer is an element of the array, as the
    same string. For the plasma filter puzzle, "Plasmafilter" and
    " PLASMA-FILTER " are accepted and "plasma filter", whose inner space
    survives normalisation, is rejected. *)
Theorem validateAnswer_accepted_membership :
  (forall (securityStatic : option HashValidator) (rules : option jsstring)
          (items : list JsVal) (hashes slt : JsVal) (answer : jsstring),
      fst (validateAnswer securityStatic answer
             {| normalize := rules; accepted := JArr items;
                answer_hashes := hashes; salt := slt |}) = true
      <-> In (JStr answer) items)
  /\ normalizeAnswer (js "Plasmafilter") plasmaConfig = js "plasmafilter"
  /\ fst (validateAnswer None
            (normalizeAnswer (js "Plasmafilter") plasmaConfig) plasmaConfig) = true
  /\ normalizeAnswer (js " PLASMA-FILTER ") plasmaConfig = js "plasma-filter"
  /\ fst (validateAnswer None
            (normalizeAnswer (js " PLASMA-FILTER ") plasmaConfig) plasmaConfig) = true
  /\ normalizeAnswer (js "plasma filter") plasmaConfig = js "plasma filter"
  /\ fst (validateAnswer None
            (normalizeAnswer (js "plasma filter") plasmaConfig) plasmaConfig) = false.
Proof.
  split; [| repeat split; vm_compute; reflexivity].
  intros securityStatic rules items hashes slt answer.
  unfold validateAnswer. cbn [accepted fst]. apply includes_In.
Qed.

(** C5. When neither [accepted] nor [answer_hashes] is an array,
    [validateAnswer] returns true for every answer, without calling the
    hash validator. *)
Theorem validateAnswer_default_accept
    (securityStatic : option HashValidator) (answer : jsstring)
    (config : Stage2Config) :
  isArray (accepted config) = false ->
  isArray (answer_hashes config) = false ->
  validateAnswer securityStatic answer config = (true, []).
Proof.
  intros Ha Hh. unfold validateAnswer.
  destruct (accepted config); try discriminate Ha;
    destruct (answer_hashes config); try discriminate Hh; reflexivity.
Qed.

(** A configuration that sets neither field, and the answer "irgendwas". *)
Lemma validateAnswer_default_accept_witness :
  isArray JUndefined = false
  /\ validateAnswer None (js "irgendwas")
       {| normalize := None; accepted := JUndefined;
          answer_hashes := JUndefined; salt := JUndefined |} = (true, []).
Proof.
  split; [reflexivity |].
  apply (@validateAnswer_default_accept None (js "irgendwas")
           {| normalize := None; accepted := JUndefined;
              answer_hashes := JUndefined; salt := JUndefined |});
    reflexivity.
Defined.

(** C10. With both an accepted-answer array and reference hashes
    configured, the verdict is membership in the array and the hash
    validator is never called. For the plasma filter puzzle with a hash
    added, the answer "filter" is rejected without a call even by a
    validator that accepts every answer, while the same configuration
    without the array accepts it through that validator. *)
Theorem validateAnswer_accepted_shadows_hashes :
  (forall (securityStatic : option HashValidator) (rules : option jsstring)
          (items : list JsVal) (hashes slt : JsVal) (answer : jsstring),
      validateAnswer securityStatic answer
        {| normalize := rules; accepted := JArr items;
           answer_hashes := hashes; salt := slt |}
      = (includes items answer, []))
  /\ validateAnswer (Some acceptAll) (js "filter")
       {| normalize := normalize plasmaConfig;
          accepted := accepted plasmaConfig;
          answer_hashes := answer_hashes hashedConfig;
          salt := salt hashedConfig |} = (false, [])
  /\ validateAnswer (Some acceptAll) (js "filter") hashedConfig
     = (true, [{| call_answer := js "filter";
                  call_hash := JStr (js "5f2a9c");
                  call_salt := JStr (js "kk") |}]).
Proof.
  split; [| split]; reflexivity.
Qed.

End AnswerCheck.

(* ===================================================================== *)
(** * Properties of token verification (QRVerify) *)
(* ===================================================================== *)

Section TokenVerification.
Import QRVerify.
Variable host : Host.
Variable publicKeys : JsMap.t KeyData.

Lemma checkEntries_disagrees (pl : JsVal) (expected : list (jsstring * JsVal)) :
  disagrees host pl expected -> rejects (checkEntries host pl expected).
Proof.
  induction expected as [| [k0 v0] tl IH]; intros (k & ev & Hin & Hbad).
  - destruct Hin.
  - cbn [checkEntries].
    destruct (getProp (hostProp host) pl k0) as [actual0 | m0] eqn:Hget;
      cbn [obind]; [| exact I].
    destruct (strictEq actual0 JUndefined) eqn:Hundef; [reflexivity |].
    destruct (negb (strictEq v0 JNull) && negb (strictEq actual0 v0)) eqn:Hneq;
      [reflexivity |].
    apply IH. destruct Hin as [Heq | Hin].
    + exfalso. injection Heq as -> ->. rewrite Hget in Hbad.
      destruct Hbad as [Hu | [(actual & Ha & Hnn & Hne) | (m & Hm)]].
      * injection Hu as ->. discriminate Hundef.
      * injection Ha as ->. rewrite Hne in Hneq.
        destruct (strictEq ev JNull) eqn:Hn; [| discriminate Hneq].
        apply strictEq_JNull in Hn. contradiction.
      * discriminate Hm.
    + exists k, ev. split; assumption.
Qed.

Lemma validateExpectedData_disagrees (pl : JsVal) (expected : list (jsstring * JsVal)) :
  disagrees host pl expected -> rejects (validateExpectedData host pl expected).
Proof.
  intros H. pose proof (checkEntries_disagrees H) as Hc.
  destruct expected; [| exact Hc].
  destruct H as (k & ev & [] & _).
Qed.

(** With [crypto.subtle] present [verifyHMACWebCrypto] never returns: the
    key is imported for [verify] only, so [sign] is refused (or, for an empty
    key, already [importKey]). *)
Lemma verifyHMACWebCrypto_throws (crypto : SubtleCrypto) (now : Z)
    (parsed : Parsed) (keyData : KeyData)
    (expectedData : list (jsstring * JsVal)) :
  verifyHMACWebCrypto host crypto now parsed keyData expectedData
  = Thrown match key keyData with
           | [] => dataErrorMessage crypto
           | _ => invalidAccessMessage crypto
           end.
Proof.
  unfold verifyHMACWebCrypto, importKey.
  destruct (key keyData) as [| c tl]; reflexivity.
Qed.

Lemma verifyHMAC_with_subtle (crypto : SubtleCrypto) (now : Z)
    (parsed : Parsed) (expectedData : list (jsstring * JsVal)) :
  subtle host = Some crypto ->
  valid (verifyHMAC host publicKeys now parsed expectedData) = false.
Proof.
  intros Hsub. unfold verifyHMAC. rewrite Hsub.
  destruct (lookupKey publicKeys (keyId parsed)) as [keyData |];
    [rewrite verifyHMACWebCrypto_throws |]; reflexivity.
Qed.

(** C4. A token whose signature verifies under the configured key, but
    whose payload disagrees with the caller's expected data in some field
    (the field is missing, or has another value), is not valid: the result
    of [verifyHMAC] has [valid = false], and so has whatever
    [performVerification] returns for it. Where the browser has
    [crypto.subtle], [verifyHMAC] calls no token valid at all, whatever its
    signature. *)
Theorem valid_signature_wrong_context_is_invalid
    (now : Z) (parsed : Parsed) (keyData : KeyData)
    (expectedData : list (jsstring * JsVal)) :
  lookupKey publicKeys (keyId parsed) = Some keyData ->
  signatureVerifies host keyData parsed ->
  disagrees host (payload parsed) expectedData ->
  valid (verifyHMAC host publicKeys now parsed expectedData) = false
  /\ (algorithm parsed = JStr (js "HMAC") ->
      match performVerification host publicKeys now parsed expectedData with
      | Returned v => valid v = false
      | Thrown _ => True
      end)
  /\ (forall (crypto : SubtleCrypto) (token : Parsed)
             (expected : list (jsstring * JsVal)),
        subtle host = Some crypto ->
        valid (verifyHMAC host publicKeys now token expected) = false).
Proof.
  intros Hkey Hsig Hbad.
  pose proof (validateExpectedData_disagrees Hbad) as Hrej.
  assert (Hv : valid (verifyHMAC host publicKeys now parsed expectedData) = false).
  { destruct (subtle host) as [crypto |] eqn:Hsub;
      [exact (verifyHMAC_with_subtle now parsed expectedData Hsub) |].
    unfold verifyHMAC. rewrite Hkey, Hsub. unfold verifyHMACFallback.
    destruct (validateExpectedData host (payload parsed) expectedData)
      as [dv | m]; cbn [obind valid]; [| reflexivity].
    cbn in Hrej. rewrite Hrej. apply andb_false_r. }
  split; [exact Hv |]. split.
  - intros Halg. unfold performVerification, verifySignature.
    destruct (timedOut host); [exact I |].
    rewrite Halg. cbn [strictEq]. rewrite strEq_refl. exact Hv.
  - intros crypto token expected Hsub.
    exact (verifyHMAC_with_subtle now token expected Hsub).
Qed.

End TokenVerification.

(** The token for door 3 presented where door 4 is expected, in a browser
    without [crypto.subtle]. *)
Lemma valid_signature_wrong_context_is_invalid_witness :
  (QRVerify.subtle demoHost = None
   /\ QRVerify.lookupKey QRVerify.predefinedKeys (QRVerify.keyId door3Token)
      = Some winterKey
   /\ signatureVerifies demoHost winterKey door3Token
   /\ disagrees demoHost (QRVerify.payload door3Token) [(js "day", JNum 4)])
  /\ QRVerify.valid (QRVerify.verifyHMAC demoHost QRVerify.predefinedKeys 0
                       door3Token [(js "day", JNum 3)]) = true
  /\ QRVerify.valid (QRVerify.verifyHMAC demoHost QRVerify.predefinedKeys 0
                       door3Token [(js "day", JNum 4)]) = false.
Proof.
  assert (Hkey : QRVerify.lookupKey QRVerify.predefinedKeys
                   (QRVerify.keyId door3Token) = Some winterKey)
    by (vm_compute; reflexivity).
  assert (Hsig : signatureVerifies demoHost winterKey door3Token)
    by (vm_compute; reflexivity).
  assert (Hbad : disagrees demoHost (QRVerify.payload door3Token)
                   [(js "day", JNum 4)]).
  { exists (js "day"), (JNum 4). split; [left; reflexivity |].
    right; left. exists (JNum 3).
    split; [vm_compute; reflexivity |]. split; [discriminate | reflexivity]. }
  split; [exact (conj eq_refl (conj Hkey (conj Hsig Hbad))) |].
  split; [vm_compute; reflexivity |].
  exact (proj1 (@valid_signature_wrong_context_is_invalid demoHost
                  QRVerify.predefinedKeys 0%Z door3Token winterKey
                  [(js "day", JNum 4)] Hkey Hsig Hbad)).
Defined.

(* ===================================================================== *)
(** * What a result tells about the cause of a rejection *)
(* ===================================================================== *)

Section Outcomes.
Import AnswersStore QRVerify.

Lemma tryHashes_no_match (v : HashValidator) (answer : jsstring) (slt : JsVal)
    (hashes : list JsVal) :
  (forall a h s, v a h s = Returned false) ->
  fst (tryHashes v answer slt hashes) = Returned false.
Proof.
  intros Hv. induction hashes as [| h tl IH]; [reflexivity |].
  cbn [tryHashes]. rewrite Hv.
  destruct (tryHashes v answer slt tl) as [r calls]. exact IH.
Qed.

(** C6, as the code has it. A result carries a two-valued outcome, the
    returned boolean of [validateAnswer] and the field [valid] of a token
    verdict. A completed check with a negative answer and a check that
    could not be completed both give [false]: for [validateAnswer], no hash
    matching, the validator module missing and the validator throwing; for
    [verifyHMAC], a wrong signature and an unknown key, and with
    [crypto.subtle] present the exception that ends every check. The token
    verdicts differ in their [error] text only. *)
Theorem rejection_and_failure_share_the_outcome :
  (forall (v : HashValidator) (answer : jsstring) (config : Stage2Config)
          (hashes : list JsVal),
      isArray (accepted config) = false ->
      answer_hashes config = JArr hashes ->
      (forall a h s, v a h s = Returned false) ->
      fst (validateAnswer (Some v) answer config) = false)
  /\ (forall (answer : jsstring) (config : Stage2Config) (hashes : list JsVal),
        isArray (accepted config) = false ->
        answer_hashes config = JArr hashes ->
        validateAnswer None answer config = (false, []))
  /\ (forall (v : HashValidator) (answer : jsstring) (config : Stage2Config)
             (hashes : list JsVal) (m : jsstring),
        isArray (accepted config) = false ->
        answer_hashes config = JArr hashes ->
        (forall a h s, v a h s = Thrown m) ->
        fst (validateAnswer (Some v) answer config) = false)
  /\ (forall (host : Host) (publicKeys : JsMap.t KeyData) (now : Z)
             (parsed : Parsed) (keyData : KeyData),
        lookupKey publicKeys (keyId parsed) = Some keyData ->
        subtle host = None ->
        simpleHashCompare (key keyData ++ originalData parsed)
          (signature parsed) = false ->
        valid (verifyHMAC host publicKeys now parsed []) = false
        /\ error (verifyHMAC host publicKeys now parsed [])
           = JStr (js "Ung" ++ uuml ++ js "ltige Signatur (Fallback)"))
  /\ (forall (host : Host) (publicKeys : JsMap.t KeyData) (now : Z)
             (parsed : Parsed) (keyData : KeyData) (crypto : SubtleCrypto)
             (expectedData : list (jsstring * JsVal)),
        lookupKey publicKeys (keyId parsed) = Some keyData ->
        subtle host = Some crypto ->
        valid (verifyHMAC host publicKeys now parsed expectedData) = false
        /\ error (verifyHMAC host publicKeys now parsed expectedData)
           = JStr match key keyData with
                  | [] => dataErrorMessage crypto
                  | _ => invalidAccessMessage crypto
                  end)
  /\ (forall (host : Host) (publicKeys : JsMap.t KeyData) (now : Z)
             (parsed : Parsed) (expectedData : list (jsstring * JsVal)),
        lookupKey publicKeys (keyId parsed) = None ->
        valid (verifyHMAC host publicKeys now parsed expectedData) = false
        /\ error (verifyHMAC host publicKeys now parsed expectedData)
           = JStr (js "Unbekannte Key-ID: " ++ toStr (keyId parsed))).
Proof.
  split; [| split; [| split; [| split; [| split]]]].
  - intros v answer config hashes Ha Hh Hv. unfold validateAnswer.
    pose proof (@tryHashes_no_match v answer
                  (orElse (AnswersStore.salt config) (JStr [])) hashes Hv) as Ht.
    destruct (accepted config); try discriminate Ha; rewrite Hh;
      destruct (tryHashes v answer _ hashes) as [r calls];
      cbn in Ht; rewrite Ht; reflexivity.
  - intros answer config hashes Ha Hh. unfold validateAnswer.
    destruct (accepted config); try discriminate Ha; rewrite Hh; reflexivity.
  - intros v answer config hashes m Ha Hh Hv. unfold validateAnswer.
    destruct (accepted config); try discriminate Ha; rewrite Hh;
      (destruct hashes as [| h tl]; [reflexivity |]);
      cbn [tryHashes]; rewrite Hv; reflexivity.
  - intros host publicKeys now parsed keyData Hkey Hsub Hneq.
    unfold verifyHMAC. rewrite Hkey, Hsub. unfold verifyHMACFallback.
    cbv zeta. rewrite Hneq. split; reflexivity.
  - intros host publicKeys now parsed keyData crypto expectedData Hkey Hsub.
    unfold verifyHMAC. rewrite Hkey, Hsub, verifyHMACWebCrypto_throws.
    split; reflexivity.
  - intros host publicKeys now parsed expectedData Hkey.
    unfold verifyHMAC. rewrite Hkey. split; reflexivity.
Qed.

(** The plasma filter puzzle with a hash: a validator that finds no match,
    and a missing validator module. *)
Lemma rejection_and_failure_share_the_outcome_witness :
  (isArray (accepted hashedConfig) = false
   /\ answer_hashes hashedConfig = JArr [JStr (js "5f2a9c")])
  /\ fst (validateAnswer (Some rejectAll) (js "falsch") hashedConfig) = false
  /\ validateAnswer None (js "falsch") hashedConfig = (false, []).
Proof.
  assert (Ha : isArray (accepted hashedConfig) = false) by reflexivity.
  assert (Hh : answer_hashes hashedConfig = JArr [JStr (js "5f2a9c")])
    by reflexivity.
  split; [split; assumption |]. split.
  - exact (proj1 rejection_and_failure_share_the_outcome rejectAll
             (js "falsch") hashedConfig [JStr (js "5f2a9c")] Ha Hh
             (fun _ _ _ => eq_refl)).
  - exact (proj1 (proj2 rejection_and_failure_share_the_outcome)
             (js "falsch") hashedConfig [JStr (js "5f2a9c")] Ha Hh).
Defined.

(** C6 fails as stated: the wrong answer "falsch" (a completed check) and
    a check cut short by an exception of the validator, or by its module
    missing, return the same value; the verdicts for a forged signature and
    for an unknown key, in a browser without [crypto.subtle], have the same
    [valid] field. *)
Lemma rejection_indistinguishable_from_failure :
  fst (validateAnswer (Some rejectAll) (js "falsch") hashedConfig)
  = fst (validateAnswer (Some alwaysThrows) (js "falsch") hashedConfig)
  /\ fst (validateAnswer (Some rejectAll) (js "falsch") hashedConfig)
     = fst (validateAnswer None (js "falsch") hashedConfig)
  /\ valid (verifyHMAC demoHost predefinedKeys 0 forgedToken [])
     = valid (verifyHMAC demoHost predefinedKeys 0 strangerToken [])
  /\ error (verifyHMAC demoHost predefinedKeys 0 forgedToken [])
     = JStr (js "Ung" ++ uuml ++ js "ltige Signatur (Fallback)")
  /\ error (verifyHMAC demoHost predefinedKeys 0 strangerToken [])
     = JStr (js "Unbekannte Key-ID: sommer2026").
Proof.
  repeat split; vm_compute; reflexivity.
Qed.

End Outcomes.

(* ===================================================================== *)
(** * Properties of the verification caches *)
(* ===================================================================== *)

Section Caches.
Local Open Scope Z_scope.

Lemma JsMap_get_set_same (V : Type) (m : JsMap.t V) (k : jsstring) (v : V) :
  JsMap.get (JsMap.set m k v) k = Some v.
Proof.
  induction m as [| [k' v'] tl IH]; cbn [JsMap.set JsMap.get].
  - rewrite strEq_refl. reflexivity.
  - destruct (strEq k' k) eqn:E; cbn [JsMap.get]; rewrite E;
      [reflexivity | exact IH].
Qed.

Lemma JsMap_get_set_other (V : Type) (m : JsMap.t V) (k k2 : jsstring) (v : V) :
  k <> k2 -> JsMap.get (JsMap.set m k v) k2 = JsMap.get m k2.
Proof.
  intros Hne. induction m as [| [k' v'] tl IH]; cbn [JsMap.set JsMap.get].
  - apply strEq_false in Hne. rewrite Hne. reflexivity.
  - destruct (strEq k' k) eqn:E; cbn [JsMap.get].
    + apply strEq_eq in E. subst k'. apply strEq_false in Hne.
      rewrite Hne. reflexivity.
    + rewrite IH. reflexivity.
Qed.


Lemma cacheVerificationResult_stored (now : Z) (cache : QRVerify.Cache)
    (k : jsstring) (r : QRVerify.Verdict) :
  JsMap.get (QRVerify.cacheVerificationResult now cache k r) k
  = Some {| QRVerify.result := r; QRVerify.ce_timestamp := now |}.
Proof. unfold QRVerify.cacheVerificationResult. apply JsMap_get_set_same. Qed.




End Caches.

(* ===================================================================== *)
(** * Properties of answer normalisation (AnswersStore) *)
(* ===================================================================== *)

Section Normalisation.
Import AnswersStore.
Local Open Scope N_scope.

(** ** Code units *)

Ltac bool_to_prop :=
  repeat rewrite ?orb_false_iff, ?andb_false_iff, ?orb_true_iff,
    ?andb_true_iff, ?negb_true_iff, ?negb_false_iff, ?N.eqb_eq, ?N.eqb_neq,
    ?N.leb_le, ?N.leb_gt in *.

Lemma lowerChar_cases (c : N) :
  lowerChar c = c
  \/ ((65 <= c <= 90 \/ (192 <= c <= 222 /\ c <> 215)) /\ lowerChar c = c + 32).
Proof.
  unfold lowerChar.
  destruct ((65 <=? c) && (c <=? 90)) eqn:E1.
  - right. bool_to_prop. split; [left; lia | reflexivity].
  - destruct ((192 <=? c) && (c <=? 222) && negb (c =? 215)) eqn:E2.
    + right. bool_to_prop. split; [right; lia | reflexivity].
    + left. reflexivity.
Qed.

Lemma isWhiteSpace_letters (c : N) :
  33 <= c <= 159 \/ 161 <= c <= 5759 -> isWhiteSpace c = false.
Proof. intros H. unfold isWhiteSpace. bool_to_prop. lia. Qed.

Lemma isPunctuation_letters (c : N) :
  64 <= c -> isPunctuation c = false.
Proof. intros H. unfold isPunctuation. bool_to_prop. lia. Qed.

Lemma lowerChar_idempotent (c : N) : lowerChar (lowerChar c) = lowerChar c.
Proof.
  destruct (lowerChar_cases c) as [E | [Hr E]]; rewrite E; [exact E |].
  unfold lowerChar.
  replace ((65 <=? c + 32) && (c + 32 <=? 90)) with false
    by (symmetry; bool_to_prop; lia).
  replace ((192 <=? c + 32) && (c + 32 <=? 222) && negb (c + 32 =? 215)) with false
    by (symmetry; bool_to_prop; lia).
  reflexivity.
Qed.

Lemma lowerChar_whitespace (c : N) :
  isWhiteSpace (lowerChar c) = isWhiteSpace c.
Proof.
  destruct (lowerChar_cases c) as [E | [Hr E]]; rewrite E; [reflexivity |].
  rewrite !isWhiteSpace_letters by lia. reflexivity.
Qed.

Lemma lowerChar_of_whitespace (c : N) :
  isWhiteSpace c = true -> lowerChar c = c.
Proof.
  intros H. destruct (lowerChar_cases c) as [E | [Hr E]]; [exact E |].
  rewrite isWhiteSpace_letters in H by lia. discriminate H.
Qed.

Lemma lowerChar_punctuation (c : N) :
  isPunctuation (lowerChar c) = isPunctuation c.
Proof.
  destruct (lowerChar_cases c) as [E | [Hr E]]; rewrite E; [reflexivity |].
  rewrite !isPunctuation_letters by lia. reflexivity.
Qed.

(** ** Steps that keep a property of every code unit *)

Lemma Forall_trimStart (P : N -> Prop) (s : jsstring) :
  Forall P s -> Forall P (trimStart s).
Proof.
  induction 1 as [| c tl Hc Htl IH]; cbn [trimStart]; [constructor |].
  destruct (isWhiteSpace c); [exact IH | constructor; assumption].
Qed.

Lemma Forall_trimEnd (P : N -> Prop) (s : jsstring) :
  Forall P s -> Forall P (trimEnd s).
Proof.
  induction 1 as [| c tl Hc Htl IH]; cbn [trimEnd]; [constructor |].
  destruct (trimEnd tl) as [| x r].
  - destruct (isWhiteSpace c); [constructor | constructor; [exact Hc | constructor]].
  - constructor; assumption.
Qed.

Lemma Forall_trim (P : N -> Prop) (s : jsstring) :
  Forall P s -> Forall P (trim s).
Proof. intros H. apply Forall_trimEnd, Forall_trimStart, H. Qed.

Lemma Forall_collapseFrom (P : N -> Prop) (b : bool) (s : jsstring) :
  P SPACE -> Forall P s -> Forall P (collapseFrom b s).
Proof.
  intros Hsp H. revert b.
  induction H as [| c tl Hc Htl IH]; intros b; cbn [collapseFrom];
    [constructor |].
  destruct (isWhiteSpace c).
  - destruct b; [apply IH | constructor; [exact Hsp | apply IH]].
  - constructor; [exact Hc | apply IH].
Qed.

Lemma Forall_replaceAll (P : N -> Prop) (c : N) (rep s : jsstring) :
  Forall P rep -> Forall P s -> Forall P (replaceAll c rep s).
Proof.
  intros Hrep H. unfold replaceAll.
  induction H as [| x tl Hx Htl IH]; cbn [flat_map]; [constructor |].
  apply Forall_app. split; [| exact IH].
  destruct (x =? c); [exact Hrep | constructor; [exact Hx | constructor]].
Qed.

Lemma Forall_filter (P : N -> Prop) (f : N -> bool) (s : jsstring) :
  Forall P s -> Forall P (filter f s).
Proof.
  induction 1 as [| x tl Hx Htl IH]; cbn [filter]; [constructor |].
  destruct (f x); [constructor; assumption | exact IH].
Qed.

Lemma filter_all (f : N -> bool) (s : jsstring) :
  Forall (fun c => f c = true) s -> filter f s = s.
Proof.
  induction 1 as [| x tl Hx Htl IH]; cbn [filter]; [reflexivity |].
  rewrite Hx, IH. reflexivity.
Qed.

Lemma filter_satisfies (f : N -> bool) (s : jsstring) :
  Forall (fun c => f c = true) (filter f s).
Proof.
  induction s as [| x tl IH]; cbn [filter]; [constructor |].
  destruct (f x) eqn:E; [constructor; assumption | exact IH].
Qed.

(** ** The shape that a step leaves behind *)

Lemma headOk_trimStart (s : jsstring) : headOk (trimStart s) = true.
Proof.
  induction s as [| c tl IH]; cbn [trimStart]; [reflexivity |].
  destruct (isWhiteSpace c) eqn:E; [exact IH |]. cbn [headOk]. rewrite E.
  reflexivity.
Qed.

Lemma trimStart_fixed (s : jsstring) : headOk s = true -> trimStart s = s.
Proof.
  destruct s as [| c tl]; [reflexivity |]. cbn [headOk trimStart].
  destruct (isWhiteSpace c); [discriminate | reflexivity].
Qed.

Lemma headOk_trimEnd (s : jsstring) : headOk s = true -> headOk (trimEnd s) = true.
Proof.
  destruct s as [| c tl]; [reflexivity |]. cbn [headOk trimEnd]. intros H.
  apply negb_true_iff in H. destruct (trimEnd tl).
  - rewrite H. cbn [headOk]. rewrite H. reflexivity.
  - cbn [headOk]. rewrite H. reflexivity.
Qed.

Lemma lastOkFrom_trimEnd (p : bool) (s : jsstring) :
  trimEnd s <> [] -> lastOkFrom p (trimEnd s) = true.
Proof.
  revert p. induction s as [| c tl IH]; intros p; cbn [trimEnd];
    [congruence |].
  destruct (trimEnd tl) as [| x r] eqn:E.
  - destruct (isWhiteSpace c) eqn:Ec; [congruence |]. intros _.
    cbn [lastOkFrom]. rewrite Ec. reflexivity.
  - intros _. change (lastOkFrom p (c :: x :: r))
      with (lastOkFrom (negb (isWhiteSpace c)) (x :: r)).
    apply IH. discriminate.
Qed.

Lemma lastOk_trimEnd (s : jsstring) : lastOkFrom true (trimEnd s) = true.
Proof.
  destruct (trimEnd s) as [| x r] eqn:E; [reflexivity |].
  rewrite <- E. apply lastOkFrom_trimEnd. rewrite E. discriminate.
Qed.

Lemma trimEnd_fixed_from (p : bool) (s : jsstring) :
  s <> [] -> lastOkFrom p s = true -> trimEnd s = s.
Proof.
  revert p. induction s as [| c tl IH]; intros p Hne H; [congruence |].
  cbn [lastOkFrom] in H. destruct tl as [| x r].
  - cbn [lastOkFrom] in H. cbn [trimEnd].
    destruct (isWhiteSpace c); [discriminate | reflexivity].
  - assert (Ht : trimEnd (x :: r) = x :: r)
      by (apply (IH (negb (isWhiteSpace c))); [discriminate | exact H]).
    change (trimEnd (c :: x :: r))
      with (match trimEnd (x :: r) with
            | [] => if isWhiteSpace c then [] else [c]
            | tl' => c :: tl'
            end).
    rewrite Ht. reflexivity.
Qed.

Lemma trimEnd_fixed (s : jsstring) : lastOkFrom true s = true -> trimEnd s = s.
Proof.
  destruct s as [| c tl]; [reflexivity |]. apply trimEnd_fixed_from. discriminate.
Qed.

Lemma trim_fixed (s : jsstring) :
  headOk s = true -> lastOkFrom true s = true -> trim s = s.
Proof.
  intros Hh Hl. unfold trim. rewrite trimStart_fixed by exact Hh.
  apply trimEnd_fixed, Hl.
Qed.

Lemma noWhiteSpace_headOk (s : jsstring) : noWhiteSpace s -> headOk s = true.
Proof. destruct 1; [reflexivity | assumption]. Qed.

Lemma noWhiteSpace_lastOk (p : bool) (s : jsstring) :
  noWhiteSpace s -> p = true -> lastOkFrom p s = true.
Proof.
  intros H. revert p. induction H as [| c tl Hc Htl IH]; intros p Hp;
    cbn [lastOkFrom]; [exact Hp | apply IH, Hc].
Qed.

Lemma noWhiteSpace_okRuns (b : bool) (s : jsstring) :
  noWhiteSpace s -> okRuns b s = true.
Proof.
  intros H. revert b. induction H as [| c tl Hc Htl IH]; intros b;
    cbn [okRuns]; [reflexivity |].
  apply negb_true_iff in Hc. rewrite Hc. apply IH.
Qed.

Lemma collapseFrom_fixed (b : bool) (s : jsstring) :
  okRuns b s = true -> collapseFrom b s = s.
Proof.
  revert b. induction s as [| c tl IH]; intros b H; [reflexivity |].
  cbn [okRuns] in H. cbn [collapseFrom].
  destruct (isWhiteSpace c).
  - apply andb_true_iff in H. destruct H as [H Htl].
    apply andb_true_iff in H. destruct H as [Hc Hb].
    apply N.eqb_eq in Hc. apply negb_true_iff in Hb. subst b c.
    rewrite (IH true Htl). reflexivity.
  - rewrite (IH false H). reflexivity.
Qed.

Lemma okRuns_collapseFrom (b b' : bool) (s : jsstring) :
  (b' = true -> b = true) -> okRuns b' (collapseFrom b s) = true.
Proof.
  revert b b'. induction s as [| c tl IH]; intros b b' Hb; [reflexivity |].
  cbn [collapseFrom]. destruct (isWhiteSpace c) eqn:Ec.
  - destruct b.
    + apply IH. auto.
    + destruct b'; [specialize (Hb eq_refl); discriminate |].
      cbn [okRuns]. change (isWhiteSpace SPACE) with true. cbn.
      apply IH. auto.
  - cbn [okRuns]. rewrite Ec. apply IH. discriminate.
Qed.

Lemma okRuns_weaken (b : bool) (s : jsstring) :
  okRuns b s = true -> okRuns false s = true.
Proof.
  destruct s as [| c tl]; [reflexivity |]. cbn [okRuns].
  destruct (isWhiteSpace c); [| auto].
  intros H. apply andb_true_iff in H. destruct H as [H Htl].
  apply andb_true_iff in H. destruct H as [Hc _].
  rewrite Hc, Htl. reflexivity.
Qed.

Lemma okRuns_trimStart (b : bool) (s : jsstring) :
  okRuns b s = true -> okRuns false (trimStart s) = true.
Proof.
  revert b. induction s as [| c tl IH]; intros b H; [reflexivity |].
  cbn [trimStart]. destruct (isWhiteSpace c) eqn:Ec.
  - cbn [okRuns] in H. rewrite Ec in H. apply andb_true_iff in H.
    destruct H as [_ Htl]. apply (IH true Htl).
  - cbn [okRuns] in *. rewrite Ec in *. exact H.
Qed.

Lemma okRuns_trimEnd (b : bool) (s : jsstring) :
  okRuns b s = true -> okRuns b (trimEnd s) = true.
Proof.
  revert b. induction s as [| c tl IH]; intros b H; [reflexivity |].
  cbn [trimEnd]. cbn [okRuns] in H. destruct (trimEnd tl) as [| x r] eqn:E.
  - destruct (isWhiteSpace c) eqn:Ec; [reflexivity |].
    cbn [okRuns]. rewrite Ec. reflexivity.
  - cbn [okRuns]. fold (okRuns true (x :: r)). fold (okRuns false (x :: r)).
    destruct (isWhiteSpace c).
    + apply andb_true_iff in H. destruct H as [H Htl]. rewrite H.
      apply (IH true Htl).
    + apply (IH false H).
Qed.

Lemma lastOkFrom_collapseFrom (p p' b : bool) (s : jsstring) :
  (p = true -> p' = true) ->
  lastOkFrom p s = true -> lastOkFrom p' (collapseFrom b s) = true.
Proof.
  revert p p' b. induction s as [| c tl IH]; intros p p' b Hp H.
  - cbn in *. auto.
  - cbn [lastOkFrom] in H. cbn [collapseFrom].
    destruct (isWhiteSpace c) eqn:Ec; cbn [negb] in H.
    + destruct b.
      * apply (IH false); [discriminate | exact H].
      * cbn [lastOkFrom]. change (isWhiteSpace SPACE) with true. cbn [negb].
        apply (IH false); [discriminate | exact H].
    + cbn [lastOkFrom]. rewrite Ec. cbn [negb].
      apply (IH true); [auto | exact H].
Qed.

Lemma headOk_collapseFrom (s : jsstring) :
  headOk s = true -> headOk (collapseFrom false s) = true.
Proof.
  destruct s as [| c tl]; [reflexivity |]. cbn [headOk collapseFrom].
  destruct (isWhiteSpace c) eqn:Ec; [discriminate |].
  intros _. cbn [headOk]. rewrite Ec. reflexivity.
Qed.

(** ** Lowercasing and replacing keep the shape *)

Lemma headOk_toLowerCase (s : jsstring) : headOk (toLowerCase s) = headOk s.
Proof.
  destruct s as [| c tl]; [reflexivity |]. cbn. rewrite lowerChar_whitespace.
  reflexivity.
Qed.

Lemma lastOkFrom_toLowerCase (p : bool) (s : jsstring) :
  lastOkFrom p (toLowerCase s) = lastOkFrom p s.
Proof.
  revert p. induction s as [| c tl IH]; intros p; [reflexivity |].
  cbn [toLowerCase map lastOkFrom]. rewrite lowerChar_whitespace. apply IH.
Qed.

Lemma okRuns_toLowerCase (b : bool) (s : jsstring) :
  okRuns b (toLowerCase s) = okRuns b s.
Proof.
  revert b. induction s as [| c tl IH]; intros b; [reflexivity |].
  cbn [toLowerCase map okRuns]. rewrite lowerChar_whitespace.
  destruct (isWhiteSpace c) eqn:Ec.
  - rewrite (@lowerChar_of_whitespace c Ec). f_equal. apply IH.
  - apply IH.
Qed.

Lemma okRuns_app_plain (b : bool) (rep s : jsstring) :
  rep <> [] -> noWhiteSpace rep -> okRuns b (rep ++ s) = okRuns false s.
Proof.
  intros Hne H. revert b. induction H as [| x tl Hx Htl IH]; intros b;
    [congruence |].
  apply negb_true_iff in Hx. cbn [app okRuns]. rewrite Hx.
  destruct tl as [| y r]; [reflexivity |]. apply IH. discriminate.
Qed.

Lemma lastOkFrom_app_plain (p : bool) (rep s : jsstring) :
  rep <> [] -> noWhiteSpace rep -> lastOkFrom p (rep ++ s) = lastOkFrom true s.
Proof.
  intros Hne H. revert p. induction H as [| x tl Hx Htl IH]; intros p;
    [congruence |].
  cbn [app lastOkFrom]. rewrite Hx.
  destruct tl as [| y r]; [reflexivity |]. apply IH. discriminate.
Qed.

Lemma okRuns_replaceAll (c : N) (rep : jsstring) (b : bool) (s : jsstring) :
  plainReplacement c rep -> okRuns b (replaceAll c rep s) = okRuns b s.
Proof.
  intros (Hc & Hne & Hrep). unfold replaceAll. revert b.
  induction s as [| x tl IH]; intros b; [reflexivity |].
  cbn [flat_map]. destruct (N.eqb_spec x c) as [-> | Hx].
  - rewrite (@okRuns_app_plain b rep _ Hne Hrep). cbn [okRuns]. rewrite Hc. apply IH.
  - cbn [app okRuns]. rewrite !IH. reflexivity.
Qed.

Lemma lastOkFrom_replaceAll (c : N) (rep : jsstring) (p : bool) (s : jsstring) :
  plainReplacement c rep ->
  lastOkFrom p (replaceAll c rep s) = lastOkFrom p s.
Proof.
  intros (Hc & Hne & Hrep). unfold replaceAll. revert p.
  induction s as [| x tl IH]; intros p; [reflexivity |].
  cbn [flat_map]. destruct (N.eqb_spec x c) as [-> | Hx].
  - rewrite (@lastOkFrom_app_plain p rep _ Hne Hrep). cbn [lastOkFrom]. rewrite Hc.
    apply IH.
  - cbn [app lastOkFrom]. apply IH.
Qed.

Lemma headOk_replaceAll (c : N) (rep : jsstring) (s : jsstring) :
  plainReplacement c rep -> headOk (replaceAll c rep s) = headOk s.
Proof.
  intros (Hc & Hne & Hrep). destruct s as [| x tl]; [reflexivity |].
  unfold replaceAll. cbn [flat_map headOk].
  destruct (N.eqb_spec x c) as [-> | Hx]; [| reflexivity].
  rewrite Hc. destruct Hrep as [| y r Hy _]; [congruence |]. exact Hy.
Qed.

Lemma replaceAll_absent (c : N) (rep s : jsstring) :
  Forall (fun x => x <> c) s -> replaceAll c rep s = s.
Proof.
  unfold replaceAll. induction 1 as [| x tl Hx Htl IH]; [reflexivity |].
  cbn [flat_map]. apply N.eqb_neq in Hx. rewrite Hx, IH. reflexivity.
Qed.

Lemma replaceAll_removes (c : N) (rep s : jsstring) :
  Forall (fun x => x <> c) rep -> Forall (fun x => x <> c) (replaceAll c rep s).
Proof.
  intros Hrep. unfold replaceAll. induction s as [| x tl IH];
    cbn [flat_map]; [constructor |].
  apply Forall_app. split; [| exact IH].
  destruct (N.eqb_spec x c) as [-> | Hx]; [exact Hrep |].
  constructor; [exact Hx | constructor].
Qed.

Lemma toLowerCase_fixed (s : jsstring) :
  Forall (fun c => lowerChar c = c) s -> toLowerCase s = s.
Proof.
  unfold toLowerCase. induction 1 as [| x tl Hx Htl IH]; [reflexivity |].
  cbn [map]. rewrite Hx, IH. reflexivity.
Qed.

Lemma toLowerCase_lower (s : jsstring) :
  Forall (fun c => lowerChar c = c) (toLowerCase s).
Proof.
  unfold toLowerCase. induction s as [| x tl IH]; cbn [map]; constructor;
    [apply lowerChar_idempotent | exact IH].
Qed.

Lemma Forall_toLowerCase (P : N -> Prop) (s : jsstring) :
  (forall c, P c -> P (lowerChar c)) -> Forall P s -> Forall P (toLowerCase s).
Proof.
  intros HP. unfold toLowerCase. induction 1 as [| x tl Hx Htl IH];
    cbn [map]; constructor; auto.
Qed.

(** ** Rule lists that normalise in one pass *)

Lemma plain_ae : plainReplacement a_umlaut (js "ae").
Proof. repeat split; [discriminate | repeat constructor]. Qed.
Lemma plain_oe : plainReplacement o_umlaut (js "oe").
Proof. repeat split; [discriminate | repeat constructor]. Qed.
Lemma plain_ue : plainReplacement u_umlaut (js "ue").
Proof. repeat split; [discriminate | repeat constructor]. Qed.
Lemma plain_ss : plainReplacement sharp_s (js "ss").
Proof. repeat split; [discriminate | repeat constructor]. Qed.

Lemma achieved_fixed (r : Rule) (s : jsstring) :
  achieved r s -> applyStep r s = s.
Proof.
  destruct r; cbn [achieved applyStep]; intros H.
  - apply toLowerCase_fixed, H.
  - apply trim_fixed; apply H.
  - apply collapseFrom_fixed, H.
  - apply replaceAll_absent, H.
  - apply replaceAll_absent, H.
  - apply replaceAll_absent, H.
  - apply replaceAll_absent, H.
  - apply filter_all, H.
  - apply filter_all, H.
  - reflexivity.
Qed.

Lemma achieved_by_step (r : Rule) (s : jsstring) : achieved r (applyStep r s).
Proof.
  destruct r; cbn [achieved applyStep].
  - apply toLowerCase_lower.
  - unfold trim. split.
    + apply headOk_trimEnd, headOk_trimStart.
    + apply lastOk_trimEnd.
  - apply okRuns_collapseFrom. auto.
  - apply replaceAll_removes. repeat constructor; discriminate.
  - apply replaceAll_removes. repeat constructor; discriminate.
  - apply replaceAll_removes. repeat constructor; discriminate.
  - apply replaceAll_removes. repeat constructor; discriminate.
  - apply filter_satisfies.
  - apply filter_satisfies.
  - exact I.
Qed.

(** A property of every code unit that holds for the space, for the
    replacement texts, and is kept by lowercasing when asked for, is kept by
    every step. *)
Lemma Forall_applyStep (P : N -> Prop) (later : Rule) (s : jsstring) :
  (later = Lowercase -> forall c, P c -> P (lowerChar c)) ->
  (later = CollapseSpaces -> P SPACE) ->
  Forall P (js "aeouss") ->
  Forall P s -> Forall P (applyStep later s).
Proof.
  intros Hlow Hsp Hrep H.
  assert (Hin : forall x, In x (js "aeouss") -> P x)
    by (apply Forall_forall; exact Hrep).
  destruct later; cbn [applyStep].
  - apply Forall_toLowerCase; auto.
  - apply Forall_trim, H.
  - apply Forall_collapseFrom; auto.
  - apply Forall_replaceAll; [| exact H].
    repeat constructor; apply Hin; cbn; auto 10.
  - apply Forall_replaceAll; [| exact H].
    repeat constructor; apply Hin; cbn; auto 10.
  - apply Forall_replaceAll; [| exact H].
    repeat constructor; apply Hin; cbn; auto 10.
  - apply Forall_replaceAll; [| exact H].
    repeat constructor; apply Hin; cbn; auto 10.
  - apply Forall_filter, H.
  - apply Forall_filter, H.
  - exact H.
Qed.

Lemma noWhiteSpace_applyStep (later : Rule) (s : jsstring) :
  noWhiteSpace s -> noWhiteSpace (applyStep later s).
Proof.
  intros H. destruct later; cbn [applyStep].
  - apply Forall_toLowerCase; [| exact H].
    intros c Hc. rewrite lowerChar_whitespace. exact Hc.
  - apply Forall_trim, H.
  - unfold collapseSpaces. rewrite collapseFrom_fixed; [exact H |].
    apply noWhiteSpace_okRuns, H.
  - apply Forall_replaceAll; [repeat constructor | exact H].
  - apply Forall_replaceAll; [repeat constructor | exact H].
  - apply Forall_replaceAll; [repeat constructor | exact H].
  - apply Forall_replaceAll; [repeat constructor | exact H].
  - apply Forall_filter, H.
  - apply Forall_filter, H.
  - exact H.
Qed.

Lemma trimmed_applyStep (later : Rule) (s : jsstring) :
  keeps Trim later = true ->
  achieved Trim s -> achieved Trim (applyStep later s).
Proof.
  intros Hk [Hh Hl]. destruct later; try discriminate Hk;
    cbn [achieved applyStep].
  - rewrite headOk_toLowerCase, lastOkFrom_toLowerCase. auto.
  - apply (achieved_by_step Trim).
  - split; [apply headOk_collapseFrom, Hh |].
    apply (@lastOkFrom_collapseFrom true true false); auto.
  - rewrite (headOk_replaceAll _ plain_ae), (lastOkFrom_replaceAll _ _ plain_ae). auto.
  - rewrite (headOk_replaceAll _ plain_oe), (lastOkFrom_replaceAll _ _ plain_oe). auto.
  - rewrite (headOk_replaceAll _ plain_ue), (lastOkFrom_replaceAll _ _ plain_ue). auto.
  - rewrite (headOk_replaceAll _ plain_ss), (lastOkFrom_replaceAll _ _ plain_ss). auto.
  - split.
    + apply noWhiteSpace_headOk, filter_satisfies.
    + apply noWhiteSpace_lastOk; [apply filter_satisfies | reflexivity].
  - auto.
Qed.

Lemma collapsed_applyStep (later : Rule) (s : jsstring) :
  keeps CollapseSpaces later = true ->
  achieved CollapseSpaces s -> achieved CollapseSpaces (applyStep later s).
Proof.
  intros Hk H. destruct later; try discriminate Hk; cbn [achieved applyStep] in *.
  - rewrite okRuns_toLowerCase. exact H.
  - unfold trim. apply okRuns_trimEnd. apply (@okRuns_trimStart false). exact H.
  - apply (achieved_by_step CollapseSpaces).
  - rewrite (okRuns_replaceAll _ _ plain_ae). exact H.
  - rewrite (okRuns_replaceAll _ _ plain_oe). exact H.
  - rewrite (okRuns_replaceAll _ _ plain_ue). exact H.
  - rewrite (okRuns_replaceAll _ _ plain_ss). exact H.
  - apply noWhiteSpace_okRuns, filter_satisfies.
  - exact H.
Qed.

Lemma achieved_kept (r later : Rule) (s : jsstring) :
  keeps r later = true -> achieved r s -> achieved r (applyStep later s).
Proof.
  intros Hk H. destruct r.
  - apply Forall_applyStep; try exact H.
    + intros _ c _. apply lowerChar_idempotent.
    + reflexivity.
    + repeat constructor.
  - apply trimmed_applyStep; assumption.
  - apply collapsed_applyStep; assumption.
  - apply Forall_applyStep; try exact H.
    + intros ->. discriminate Hk.
    + discriminate.
    + repeat constructor; discriminate.
  - apply Forall_applyStep; try exact H.
    + intros ->. discriminate Hk.
    + discriminate.
    + repeat constructor; discriminate.
  - apply Forall_applyStep; try exact H.
    + intros ->. discriminate Hk.
    + discriminate.
    + repeat constructor; discriminate.
  - apply Forall_applyStep; try exact H.
    + intros ->. discriminate Hk.
    + discriminate.
    + repeat constructor; discriminate.
  - apply noWhiteSpace_applyStep, H.
  - apply Forall_applyStep; try exact H.
    + intros _ c Hc. rewrite lowerChar_punctuation. exact Hc.
    + reflexivity.
    + repeat constructor.
  - exact I.
Qed.

(** ** One pass is enough for a settled rule list *)

Lemma applyRules_runSteps (rules : list jsstring) (s : jsstring) :
  applyRules rules s = runSteps (map ruleOfName rules) s.
Proof.
  unfold applyRules, runSteps, applyRule. revert s.
  induction rules as [| r tl IH]; intros s; [reflexivity |]. cbn. apply IH.
Qed.

Lemma achieved_through (r : Rule) (steps : list Rule) (s : jsstring) :
  forallb (keeps r) steps = true -> achieved r s -> achieved r (runSteps steps s).
Proof.
  revert s. induction steps as [| x tl IH]; intros s Hk H; [exact H |].
  cbn [forallb] in Hk. apply andb_true_iff in Hk. destruct Hk as [Hx Htl].
  cbn [runSteps fold_left]. apply IH; [exact Htl |].
  apply achieved_kept; assumption.
Qed.

Lemma settled_achieves_all (steps : list Rule) (s : jsstring) :
  settled steps = true ->
  Forall (fun r => achieved r (runSteps steps s)) steps.
Proof.
  revert s. induction steps as [| x tl IH]; intros s Hs; [constructor |].
  cbn [settled] in Hs. apply andb_true_iff in Hs. destruct Hs as [Hx Htl].
  constructor.
  - cbn [runSteps fold_left]. apply achieved_through; [exact Hx |].
    apply achieved_by_step.
  - apply (IH (applyStep x s) Htl).
Qed.

Lemma runSteps_fixed (steps : list Rule) (s : jsstring) :
  Forall (fun r => achieved r s) steps -> runSteps steps s = s.
Proof.
  induction 1 as [| x tl Hx Htl IH]; [reflexivity |].
  cbn [runSteps fold_left]. rewrite (@achieved_fixed x s Hx). exact IH.
Qed.

Lemma runSteps_idempotent (steps : list Rule) (s : jsstring) :
  settled steps = true ->
  runSteps steps (runSteps steps s) = runSteps steps s.
Proof.
  intros Hs. apply runSteps_fixed, settled_achieves_all, Hs.
Qed.

(** ** Latin-1 answers stay Latin-1 *)

Lemma lowerChar_latin1 (c : N) : c < 256 -> lowerChar c < 256.
Proof.
  intros H. unfold lowerChar.
  destruct ((65 <=? c) && (c <=? 90)) eqn:E1.
  - apply andb_true_iff in E1. destruct E1 as [_ E].
    apply N.leb_le in E. lia.
  - destruct ((192 <=? c) && (c <=? 222) && negb (c =? 215)) eqn:E2;
      [| exact H].
    apply andb_true_iff in E2. destruct E2 as [E2 _].
    apply andb_true_iff in E2. destruct E2 as [_ E].
    apply N.leb_le in E. lia.
Qed.

Lemma latin1_applyStep (r : Rule) (s : jsstring) :
  latin1 s -> latin1 (applyStep r s).
Proof.
  unfold latin1. apply Forall_applyStep.
  - intros _ c. apply lowerChar_latin1.
  - intros _. reflexivity.
  - repeat constructor.
Qed.

Lemma latin1_runSteps (steps : list Rule) (s : jsstring) :
  latin1 s -> latin1 (runSteps steps s).
Proof.
  revert s. induction steps as [| r tl IH]; intros s H; [exact H |].
  cbn [runSteps fold_left]. apply IH, latin1_applyStep, H.
Qed.

Lemma latin1_normalizeAnswer (answer : jsstring) (config : Stage2Config) :
  latin1 answer -> latin1 (normalizeAnswer answer config).
Proof.
  intros H. unfold normalizeAnswer. destruct answer as [| c tl]; [exact H |].
  rewrite applyRules_runSteps. apply latin1_runSteps, H.
Qed.

(** C9, as the code has it. For every answer of Latin-1 characters (code
    units below 256) and every rule string in which no "lowercase" follows
    a "replace-..." rule and no "remove-punctuation" follows "trim" or
    "collapse-spaces", the normalised answer is again of Latin-1
    characters, and normalising it again changes nothing; unknown rule
    names may stand anywhere. The default rule string is of this kind. *)
Theorem normalizeAnswer_idempotent_when_settled
    (answer : jsstring) (config : Stage2Config) :
  latin1 answer ->
  settled (map ruleOfName (rulesOf config)) = true ->
  latin1 (normalizeAnswer answer config)
  /\ normalizeAnswer (normalizeAnswer answer config) config
     = normalizeAnswer answer config.
Proof.
  intros Hlatin Hs. split; [apply latin1_normalizeAnswer, Hlatin |].
  unfold normalizeAnswer at 2 3.
  destruct answer as [| c tl]; [reflexivity |].
  unfold normalizeAnswer.
  destruct (applyRules (rulesOf config) (c :: tl)) as [| x r] eqn:E;
    [reflexivity |].
  rewrite <- E, !applyRules_runSteps. apply runSteps_idempotent, Hs.
Qed.

(** The default rule string, on " PLASMA-  Filter ". *)
Lemma normalizeAnswer_idempotent_when_settled_witness :
  (latin1 (js " PLASMA-  Filter ")
   /\ settled (map ruleOfName (rulesOf plasmaConfig)) = true)
  /\ normalizeAnswer (normalizeAnswer (js " PLASMA-  Filter ") plasmaConfig)
       plasmaConfig
     = normalizeAnswer (js " PLASMA-  Filter ") plasmaConfig.
Proof.
  assert (Hlatin : latin1 (js " PLASMA-  Filter "))
    by (repeat constructor).
  assert (Hs : settled (map ruleOfName (rulesOf plasmaConfig)) = true)
    by (vm_compute; reflexivity).
  split; [exact (conj Hlatin Hs) |].
  exact (proj2 (@normalizeAnswer_idempotent_when_settled
                  (js " PLASMA-  Filter ") plasmaConfig Hlatin Hs)).
Defined.

(** C9 fails as stated: with the rules "trim, remove-punctuation" the
    answer "- a" normalises to " a" and that to "a"; with the rules
    "replace-ä->ae, lowercase" the answer "Ä" normalises to "ä" and that to
    "ae". *)
Lemma normalizeAnswer_not_idempotent :
  normalizeAnswer (js "- a") trimThenPunctuation = js " a"
  /\ normalizeAnswer (normalizeAnswer (js "- a") trimThenPunctuation)
       trimThenPunctuation = js "a"
  /\ normalizeAnswer (normalizeAnswer (js "- a") trimThenPunctuation)
       trimThenPunctuation
     <> normalizeAnswer (js "- a") trimThenPunctuation
  /\ normalizeAnswer [196] replaceThenLowercase = [228]
  /\ normalizeAnswer (normalizeAnswer [196] replaceThenLowercase)
       replaceThenLowercase = js "ae".
Proof.
  repeat split; try (vm_compute; reflexivity).
  vm_compute. discriminate.
Qed.

End Normalisation.

(* ===================================================================== *)
(** * The calendar arithmetic on the contest years *)
(* ===================================================================== *)

Section Calendar.
Local Open Scope Z_scope.

(** Checked for every day from 1 January 2025 to 31 December 2026. *)
Lemma YearFromDay_contest_years (d : Z) :
  DayFromYear 2025 <= d < DayFromYear 2027 ->
  yearContains d = true /\ 2025 <= YearFromDay d <= 2026.
Proof.
  intros H.
  assert (Hall : forallb (fun k => yearContains (20089 + Z.of_nat k)
                                   && (2025 <=? YearFromDay (20089 + Z.of_nat k))
                                   && (YearFromDay (20089 + Z.of_nat k) <=? 2026))
                         (seq 0 730) = true)
    by (vm_compute; reflexivity).
  rewrite forallb_forall in Hall.
  change (DayFromYear 2025) with 20089 in H.
  change (DayFromYear 2027) with 20819 in H.
  specialize (Hall (Z.to_nat (d - 20089))).
  replace (20089 + Z.of_nat (Z.to_nat (d - 20089))) with d in Hall by lia.
  assert (Hin : In (Z.to_nat (d - 20089)) (seq 0 730)) by (apply in_seq; lia).
  specialize (Hall Hin).
  apply andb_true_iff in Hall. destruct Hall as [Hall Hhi].
  apply andb_true_iff in Hall. destruct Hall as [Hc Hlo].
  split; [exact Hc |]. split; [apply Z.leb_le, Hlo | apply Z.leb_le, Hhi].
Qed.

End Calendar.

(* ===================================================================== *)
(** * Properties of the string hash behind the cache keys *)
(* ===================================================================== *)

Section StringHash.
Local Open Scope Z_scope.
Import Int32.

Lemma toInt32_range (z : Z) : - 2147483648 <= toInt32 z < 2147483648.
Proof.
  unfold toInt32, two32. cbv zeta.
  pose proof (Z.mod_pos_bound z 4294967296 eq_refl) as Hm.
  destruct (Z.ltb_spec (z mod 4294967296) 2147483648); lia.
Qed.

Lemma toInt32_wraps (z : Z) : exists k, toInt32 z = z + k * two32.
Proof.
  unfold toInt32, two32. cbv zeta.
  pose proof (Z.div_mod z 4294967296) as Hd.
  destruct (Z.ltb_spec (z mod 4294967296) 2147483648).
  - exists (- (z / 4294967296)). lia.
  - exists (- (z / 4294967296) - 1). lia.
Qed.

Lemma toInt32_shift (z k : Z) : toInt32 (z + k * two32) = toInt32 z.
Proof.
  unfold toInt32. cbv zeta. rewrite Z_mod_plus_full. reflexivity.
Qed.

Lemma toInt32_fixed (z : Z) :
  - 2147483648 <= z < 2147483648 -> toInt32 z = z.
Proof.
  intros H. unfold toInt32, two32. cbv zeta.
  destruct (Z_lt_le_dec z 0) as [Hneg | Hpos].
  - replace (z mod 4294967296) with (z + 4294967296).
    + destruct (Z.ltb_spec (z + 4294967296) 2147483648); lia.
    + apply Z.mod_unique with (q := -1); lia.
  - rewrite Z.mod_small by lia.
    destruct (Z.ltb_spec z 2147483648); lia.
Qed.

Lemma and_diag (z : Z) : and z z = toInt32 z.
Proof.
  unfold and. rewrite Z.land_diag. apply toInt32_fixed, toInt32_range.
Qed.

(** One round of the loop multiplies by 31 and adds the code unit, in
    32-bit arithmetic. *)
Lemma hashStep_times_31 (hash : Z) (char : N) :
  hashStep hash char = toInt32 (31 * hash + Z.of_N char).
Proof.
  unfold hashStep. cbv zeta. rewrite and_diag. unfold shl.
  rewrite Z.shiftl_mul_pow2 by lia. change (2 ^ 5) with 32.
  destruct (toInt32_wraps hash) as [k1 Hk1]. rewrite Hk1.
  destruct (toInt32_wraps ((hash + k1 * two32) * 32)) as [k2 Hk2]. rewrite Hk2.
  replace ((hash + k1 * two32) * 32 + k2 * two32 - hash + Z.of_N char)
    with (31 * hash + Z.of_N char + (32 * k1 + k2) * two32) by lia.
  apply toInt32_shift.
Qed.

Lemma toInt32_times_31 (z : Z) (c : N) :
  toInt32 (31 * toInt32 z + Z.of_N c) = toInt32 (31 * z + Z.of_N c).
Proof.
  destruct (toInt32_wraps z) as [k Hk]. rewrite Hk.
  replace (31 * (z + k * two32) + Z.of_N c)
    with (31 * z + Z.of_N c + (31 * k) * two32) by lia.
  apply toInt32_shift.
Qed.

Lemma fold_hashStep (s : jsstring) (h p : Z) :
  h = toInt32 p ->
  fold_left hashStep s h
  = toInt32 (fold_left (fun acc c => 31 * acc + Z.of_N c) s p).
Proof.
  revert h p. induction s as [| c tl IH]; intros h p Hh; [exact Hh |].
  cbn [fold_left]. apply IH. rewrite hashStep_times_31, Hh.
  apply toInt32_times_31.
Qed.

(** X1. The string hash of the cache keys and test signatures is the
    polynomial of the code units in powers of 31, wrapped to a signed
    32-bit integer; appending a code unit multiplies by 31 and adds it. *)
Theorem stringHash_is_polynomial31 (s : jsstring) (c : N) :
  stringHash s = toInt32 (polynomial31 s)
  /\ stringHash (s ++ [c]) = toInt32 (31 * stringHash s + Z.of_N c)
  /\ - 2147483648 <= stringHash s < 2147483648.
Proof.
  assert (Hp : forall t, stringHash t = toInt32 (polynomial31 t)).
  { intros t. unfold stringHash, polynomial31. apply fold_hashStep. reflexivity. }
  split; [apply Hp |]. split.
  - unfold stringHash. rewrite fold_left_app. cbn [fold_left].
    apply hashStep_times_31.
  - rewrite Hp. apply toInt32_range.
Qed.

Lemma polynomial31_app (a b : jsstring) (p : Z) :
  fold_left (fun acc c => 31 * acc + Z.of_N c) (a ++ b) p
  = fold_left (fun acc c => 31 * acc + Z.of_N c) b
      (fold_left (fun acc c => 31 * acc + Z.of_N c) a p).
Proof. apply fold_left_app. Qed.

(** X2. Raising one code unit by one and lowering the next by 31 does not
    change the hash, wherever in the token it happens: the two tokens are
    different and get the same cache key from [QRVerify.getCacheKey]. *)
Theorem getCacheKey_collides (before after : jsstring) (a b : N) :
  (31 <= b)%N ->
  before ++ [a; b] ++ after <> before ++ [(a + 1)%N; (b - 31)%N] ++ after
  /\ QRVerify.getCacheKey (before ++ [a; b] ++ after)
     = QRVerify.getCacheKey (before ++ [(a + 1)%N; (b - 31)%N] ++ after).
Proof.
  intros Hb. split.
  - intros E. apply app_inv_head in E. injection E as E _. lia.
  - unfold QRVerify.getCacheKey. f_equal.
    unfold stringHash.
    rewrite !(@fold_hashStep _ 0 0 eq_refl). f_equal.
    rewrite !polynomial31_app. f_equal. cbn [fold_left]. lia.
Qed.

(** The pair "an" and "bO" inside a token of the hmac form. *)
Lemma getCacheKey_collides_witness :
  (31 <= 110)%N
  /\ js "hmac.winter2025." ++ [97%N; 110%N] ++ js ".e30="
     <> js "hmac.winter2025." ++ [(97 + 1)%N; (110 - 31)%N] ++ js ".e30="
  /\ QRVerify.getCacheKey (js "hmac.winter2025." ++ [97%N; 110%N] ++ js ".e30=")
     = QRVerify.getCacheKey
         (js "hmac.winter2025." ++ [(97 + 1)%N; (110 - 31)%N] ++ js ".e30=").
Proof.
  assert (Hb : (31 <= 110)%N) by lia.
  split; [exact Hb |].
  exact (@getCacheKey_collides (js "hmac.winter2025.") (js ".e30=") 97%N 110%N Hb).
Defined.

End StringHash.

(* ===================================================================== *)
(** * Properties of the token cache: bound, sweep, repeated calls *)
(* ===================================================================== *)

Section TokenCache.
Local Open Scope Z_scope.
Import QRVerify.

Lemma JsMap_get_absent (V : Type) (m : JsMap.t V) (k : jsstring) :
  ~ In k (map fst m) -> JsMap.get m k = None.
Proof.
  induction m as [| [k' v] tl IH]; intros Hn; [reflexivity |].
  cbn [JsMap.get]. destruct (strEq k' k) eqn:E.
  - apply strEq_eq in E. subst k'. exfalso. apply Hn. left. reflexivity.
  - apply IH. intros Hin. apply Hn. right. exact Hin.
Qed.

Lemma JsMap_set_keys (V : Type) (m : JsMap.t V) (k : jsstring) (v : V) :
  (In k (map fst m) /\ map fst (JsMap.set m k v) = map fst m)
  \/ (~ In k (map fst m) /\ map fst (JsMap.set m k v) = map fst m ++ [k]).
Proof.
  induction m as [| [k' v'] tl IH]; cbn [JsMap.set map fst].
  - right. split; [intros [] | reflexivity].
  - destruct (strEq k' k) eqn:E.
    + apply strEq_eq in E. subst k'. left. split; [left |]; reflexivity.
    + apply strEq_false in E. cbn [map fst].
      destruct IH as [[Hin Heq] | [Hn Heq]].
      * left. split; [right; exact Hin | rewrite Heq; reflexivity].
      * right. split; [| rewrite Heq; reflexivity].
        intros [H | H]; [exact (E H) | exact (Hn H)].
Qed.

Lemma JsMap_set_distinct (V : Type) (m : JsMap.t V) (k : jsstring) (v : V) :
  distinctKeys m -> distinctKeys (JsMap.set m k v).
Proof.
  unfold distinctKeys. intros Hd.
  destruct (JsMap_set_keys m k v) as [[_ Heq] | [Hn Heq]]; rewrite Heq.
  - exact Hd.
  - apply NoDup_app; [exact Hd | repeat constructor; intros [] |].
    intros x Hx [<- | []]. exact (Hn Hx).
Qed.

Lemma JsMap_set_length (V : Type) (m : JsMap.t V) (k : jsstring) (v : V) :
  (List.length (JsMap.set m k v) <= S (List.length m))%nat.
Proof.
  rewrite <- (length_map fst (JsMap.set m k v)), <- (length_map fst m).
  destruct (JsMap_set_keys m k v) as [[_ Heq] | [_ Heq]]; rewrite Heq.
  - lia.
  - rewrite length_app. cbn. lia.
Qed.

Lemma JsMap_delete_keys (V : Type) (m : JsMap.t V) (k x : jsstring) :
  x <> k -> In x (map fst m) -> In x (map fst (JsMap.delete m k)).
Proof.
  intros Hne. induction m as [| [k' v'] tl IH]; [intros [] |].
  cbn [JsMap.delete map fst]. intros [H | H].
  - subst k'. destruct (strEq x k) eqn:E.
    + apply strEq_eq in E. contradiction.
    + left. reflexivity.
  - destruct (strEq k' k); [exact H | right; exact (IH H)].
Qed.

Lemma JsMap_delete_subset (V : Type) (m : JsMap.t V) (k x : jsstring) :
  In x (map fst (JsMap.delete m k)) -> In x (map fst m).
Proof.
  induction m as [| [k' v'] tl IH]; [intros [] |].
  cbn [JsMap.delete map fst]. destruct (strEq k' k).
  - intros H. right. exact H.
  - intros [H | H]; [left; exact H | right; exact (IH H)].
Qed.

Lemma JsMap_delete_distinct (V : Type) (m : JsMap.t V) (k : jsstring) :
  distinctKeys m -> distinctKeys (JsMap.delete m k).
Proof.
  unfold distinctKeys. induction m as [| [k' v'] tl IH]; intros Hd;
    [constructor |].
  cbn [JsMap.delete]. cbn [map fst] in Hd. inversion Hd as [| ? ? Hn Hd'].
  destruct (strEq k' k); [exact Hd' |].
  cbn [map fst]. constructor; [| exact (IH Hd')].
  intros Hin. apply Hn. exact (JsMap_delete_subset _ _ _ Hin).
Qed.

Lemma JsMap_delete_length (V : Type) (m : JsMap.t V) (k : jsstring) :
  In k (map fst m) -> S (List.length (JsMap.delete m k)) = List.length m.
Proof.
  induction m as [| [k' v'] tl IH]; [intros [] |].
  cbn [JsMap.delete map fst]. intros Hin. destruct (strEq k' k) eqn:E.
  - reflexivity.
  - apply strEq_false in E. destruct Hin as [H | H]; [contradiction |].
    cbn [List.length]. rewrite (IH H). reflexivity.
Qed.

(** Deleting a list of distinct keys that are present removes as many
    entries. *)
Lemma delete_all_length (V : Type) (es : list (jsstring * V)) (m : JsMap.t V) :
  NoDup (map fst es) ->
  (forall x, In x (map fst es) -> In x (map fst m)) ->
  (List.length (fold_left (fun c e => JsMap.delete c (fst e)) es m)
   + List.length es = List.length m)%nat.
Proof.
  revert m. induction es as [| [k v] tl IH]; intros m Hd Hin; [cbn; lia |].
  cbn [fold_left fst List.length]. cbn [map fst] in Hd, Hin.
  inversion Hd as [| ? ? Hn Hd'].
  rewrite Nat.add_succ_r, IH; [| exact Hd' |].
  - apply JsMap_delete_length. apply Hin. left. reflexivity.
  - intros y Hy. apply JsMap_delete_keys.
    + intros ->. exact (Hn Hy).
    + apply Hin. right. exact Hy.
Qed.

Lemma delete_all_distinct (V : Type) (es : list (jsstring * V)) (m : JsMap.t V) :
  distinctKeys m ->
  distinctKeys (fold_left (fun c e => JsMap.delete c (fst e)) es m).
Proof.
  revert m. induction es as [| e tl IH]; intros m Hd; [exact Hd |].
  cbn [fold_left]. apply IH, JsMap_delete_distinct, Hd.
Qed.

Lemma insertByAge_permutation (e : jsstring * CacheEntry)
    (l : list (jsstring * CacheEntry)) :
  Permutation (insertByAge e l) (e :: l).
Proof.
  induction l as [| x tl IH]; cbn [insertByAge]; [apply Permutation_refl |].
  destruct (ce_timestamp (snd e) <? ce_timestamp (snd x)).
  - apply Permutation_refl.
  - apply perm_trans with (x :: e :: tl).
    + apply perm_skip, IH.
    + apply perm_swap.
Qed.

Lemma sortByAge_permutation (l : list (jsstring * CacheEntry)) :
  Permutation (sortByAge l) l.
Proof.
  unfold sortByAge.
  assert (H : forall acc, Permutation (fold_left (fun a e => insertByAge e a) l acc)
                            (acc ++ l)).
  { induction l as [| x tl IH]; intros acc; cbn [fold_left].
    - rewrite app_nil_r. apply Permutation_refl.
    - apply perm_trans with (insertByAge x acc ++ tl); [apply IH |].
      apply perm_trans with ((x :: acc) ++ tl).
      + apply Permutation_app_tail, insertByAge_permutation.
      + cbn [app]. apply Permutation_middle. }
  exact (H []).
Qed.

Lemma firstn_subset (A : Type) (n : nat) (l : list A) (a : A) :
  In a (firstn n l) -> In a l.
Proof.
  revert n. induction l as [| x tl IH]; intros n; destruct n; cbn [firstn];
    try (intros []).
  - left. assumption.
  - right. eapply IH. eassumption.
Qed.

Lemma firstn_distinct (A : Type) (n : nat) (l : list A) :
  NoDup l -> NoDup (firstn n l).
Proof.
  revert n. induction l as [| x tl IH]; intros n Hd; destruct n;
    cbn [firstn]; try constructor.
  - inversion Hd as [| ? ? Hn Hd']. intros Hin. apply Hn.
    exact (firstn_subset _ _ _ Hin).
  - inversion Hd. apply IH. assumption.
Qed.

Lemma sortByAge_keys (cache : Cache) (n : nat) :
  distinctKeys cache ->
  NoDup (map fst (firstn n (sortByAge cache)))
  /\ (forall x, In x (map fst (firstn n (sortByAge cache))) ->
                In x (map fst cache)).
Proof.
  intros Hd.
  pose proof (Permutation_map fst (sortByAge_permutation cache)) as Hp.
  rewrite <- firstn_map. split.
  - apply firstn_distinct.
    exact (Permutation_NoDup (Permutation_sym Hp) Hd).
  - intros x Hx. apply (Permutation_in _ Hp).
    exact (firstn_subset _ _ _ Hx).
Qed.

Lemma distinctb_sound (keys : list jsstring) :
  distinctb keys = true -> NoDup keys.
Proof.
  induction keys as [| k tl IH]; intros H; [constructor |].
  cbn [distinctb] in H. apply andb_true_iff in H. destruct H as [Hk Htl].
  constructor; [| exact (IH Htl)].
  intros Hin. apply negb_true_iff in Hk.
  assert (Hex : existsb (strEq k) tl = true).
  { apply existsb_exists. exists k. split; [exact Hin | apply strEq_refl]. }
  congruence.
Qed.

Lemma JsMap_get_delete_other (V : Type) (m : JsMap.t V) (k x : jsstring) :
  x <> k -> JsMap.get (JsMap.delete m k) x = JsMap.get m x.
Proof.
  intros Hne. induction m as [| [k' v'] tl IH]; [reflexivity |].
  cbn [JsMap.delete JsMap.get]. destruct (strEq k' k) eqn:E.
  - apply strEq_eq in E. subst k'.
    destruct (strEq k x) eqn:E2; [| reflexivity].
    apply strEq_eq in E2. congruence.
  - cbn [JsMap.get]. rewrite IH. reflexivity.
Qed.

Lemma JsMap_delete_absent (V : Type) (m : JsMap.t V) (k : jsstring) :
  distinctKeys m -> ~ In k (map fst (JsMap.delete m k)).
Proof.
  unfold distinctKeys. induction m as [| [k' v'] tl IH]; intros Hd;
    [intros [] |].
  cbn [map fst] in Hd. apply NoDup_cons_iff in Hd. destruct Hd as [Hn Hd'].
  cbn [JsMap.delete]. destruct (strEq k' k) eqn:E.
  - apply strEq_eq in E. rewrite <- E. exact Hn.
  - apply strEq_false in E. cbn [map fst].
    intros [Hk | Hk]; [exact (E Hk) | exact (IH Hd' Hk)].
Qed.

Lemma delete_all_subset (V : Type) (es : list (jsstring * V)) (m : JsMap.t V)
    (x : jsstring) :
  In x (map fst (fold_left (fun c e => JsMap.delete c (fst e)) es m)) ->
  In x (map fst m).
Proof.
  revert m. induction es as [| e tl IH]; intros m H; [exact H |].
  cbn [fold_left] in H. exact (JsMap_delete_subset _ _ _ (IH _ H)).
Qed.

(** A key that is not deleted keeps its entry. *)
Lemma delete_all_get_other (V : Type) (es : list (jsstring * V)) (m : JsMap.t V)
    (x : jsstring) :
  ~ In x (map fst es) ->
  JsMap.get (fold_left (fun c e => JsMap.delete c (fst e)) es m) x
  = JsMap.get m x.
Proof.
  revert m. induction es as [| e tl IH]; intros m Hn; [reflexivity |].
  cbn [fold_left]. cbn [map] in Hn. rewrite IH.
  - apply JsMap_get_delete_other. intros ->. apply Hn. left. reflexivity.
  - intros Hin. apply Hn. right. exact Hin.
Qed.

(** A key that is deleted is not found afterwards. *)
Lemma delete_all_get_deleted (V : Type) (es : list (jsstring * V))
    (m : JsMap.t V) (x : jsstring) :
  distinctKeys m -> In x (map fst es) ->
  JsMap.get (fold_left (fun c e => JsMap.delete c (fst e)) es m) x = None.
Proof.
  intros Hd Hin. apply JsMap_get_absent. revert m Hd.
  induction es as [| e tl IH]; intros m Hd; [destruct Hin |].
  cbn [fold_left]. cbn [map] in Hin. destruct Hin as [<- | Hin].
  - intros H. apply delete_all_subset in H.
    exact (@JsMap_delete_absent _ m (fst e) Hd H).
  - apply (IH Hin). apply JsMap_delete_distinct, Hd.
Qed.

Lemma JsMap_get_entry (V : Type) (m : JsMap.t V) (e : jsstring * V) :
  distinctKeys m -> In e m -> JsMap.get m (fst e) = Some (snd e).
Proof.
  unfold distinctKeys. induction m as [| [k' v'] tl IH]; intros Hd Hin;
    [destruct Hin |].
  cbn [map fst] in Hd. apply NoDup_cons_iff in Hd. destruct Hd as [Hn Hd'].
  cbn [JsMap.get]. destruct Hin as [<- | Hin].
  - cbn [fst snd]. rewrite strEq_refl. reflexivity.
  - destruct (strEq k' (fst e)) eqn:E; [| exact (IH Hd' Hin)].
    apply strEq_eq in E. exfalso. apply Hn. rewrite E.
    apply in_map. exact Hin.
Qed.

Lemma insertByAge_sorted (e : jsstring * CacheEntry)
    (l : list (jsstring * CacheEntry)) :
  StronglySorted notYounger l -> StronglySorted notYounger (insertByAge e l).
Proof.
  induction 1 as [| x tl Hs IH Hx]; cbn [insertByAge].
  - constructor; constructor.
  - destruct (Z.ltb_spec (ce_timestamp (snd e)) (ce_timestamp (snd x)))
      as [Hlt | Hge].
    + constructor; [constructor; assumption |].
      constructor; [unfold notYounger; lia |].
      apply (Forall_impl (notYounger e)) with (2 := Hx).
      unfold notYounger. intros y Hy. lia.
    + constructor; [exact IH |].
      apply Forall_forall. intros y Hy.
      apply (Permutation_in _ (insertByAge_permutation e tl)) in Hy.
      destruct Hy as [<- | Hy]; [exact Hge |].
      rewrite Forall_forall in Hx. exact (Hx y Hy).
Qed.

Lemma sortByAge_sorted (l : list (jsstring * CacheEntry)) :
  StronglySorted notYounger (sortByAge l).
Proof.
  unfold sortByAge.
  assert (H : forall acc, StronglySorted notYounger acc ->
                StronglySorted notYounger
                  (fold_left (fun a e => insertByAge e a) l acc)).
  { induction l as [| x tl IH]; intros acc Hacc; [exact Hacc |].
    cbn [fold_left]. apply IH, insertByAge_sorted, Hacc. }
  apply H. constructor.
Qed.

Lemma skipn_subset (A : Type) (n : nat) (l : list A) (a : A) :
  In a (skipn n l) -> In a l.
Proof.
  intros H. rewrite <- (firstn_skipn n l). apply in_or_app. right. exact H.
Qed.

(** In a sorted list no entry of a front part is younger than one of the
    rest. *)
Lemma sorted_front_and_rest (n : nat) (l : list (jsstring * CacheEntry))
    (a b : jsstring * CacheEntry) :
  StronglySorted notYounger l ->
  In a (firstn n l) -> In b (skipn n l) -> notYounger a b.
Proof.
  intros Hs. revert n. induction Hs as [| x tl Hs IH Hx]; intros n Ha Hb.
  - destruct n; destruct Ha.
  - destruct n as [| n]; [destruct Ha |].
    cbn [firstn skipn] in Ha, Hb. destruct Ha as [<- | Ha].
    + rewrite Forall_forall in Hx. apply Hx.
      exact (skipn_subset _ _ _ Hb).
    + exact (IH n Ha Hb).
Qed.

Lemma NoDup_app_disjoint (A : Type) (l1 l2 : list A) (x : A) :
  NoDup (l1 ++ l2) -> In x l1 -> ~ In x l2.
Proof.
  induction l1 as [| y tl IH]; intros Hd Hin; [destruct Hin |].
  cbn [app] in Hd. apply NoDup_cons_iff in Hd. destruct Hd as [Hn Hd'].
  destruct Hin as [<- | Hin].
  - intros Hx. apply Hn. apply in_or_app. right. exact Hx.
  - exact (IH Hd' Hin).
Qed.

(** X3. Storing a verdict never lets the token cache grow beyond its
    limit of 100 entries, keeps the keys distinct, and the new verdict is
    found under its key. A cache that is not full loses nothing. A full
    cache first loses its 20 oldest entries: its entries fall into 20
    evicted ones and 80 kept ones, none of the evicted younger than any of
    the kept; afterwards no evicted key is found and every kept entry is
    found unchanged (the key of the new verdict apart, which holds the new
    verdict), so the cache holds at most 81 entries. *)
Theorem cacheVerificationResult_stays_bounded
    (now : Z) (cache : Cache) (k : jsstring) (r : Verdict) :
  distinctKeys cache ->
  JsMap.size cache <= maxCacheEntries ->
  distinctKeys (cacheVerificationResult now cache k r)
  /\ JsMap.size (cacheVerificationResult now cache k r) <= maxCacheEntries
  /\ (JsMap.size cache = maxCacheEntries ->
      JsMap.size (cacheVerificationResult now cache k r) <= 81)
  /\ JsMap.get (cacheVerificationResult now cache k r) k
     = Some {| result := r; ce_timestamp := now |}
  /\ (JsMap.size cache < maxCacheEntries ->
      forall x : jsstring, x <> k ->
        JsMap.get (cacheVerificationResult now cache k r) x
        = JsMap.get cache x)
  /\ (JsMap.size cache = maxCacheEntries ->
      exists evicted kept : list (jsstring * CacheEntry),
        Permutation cache (evicted ++ kept)
        /\ List.length evicted = 20%nat
        /\ List.length kept = 80%nat
        /\ (forall a b, In a evicted -> In b kept -> notYounger a b)
        /\ (forall a, In a evicted -> fst a <> k ->
              JsMap.get (cacheVerificationResult now cache k r) (fst a) = None)
        /\ (forall b, In b kept -> fst b <> k ->
              JsMap.get (cacheVerificationResult now cache k r) (fst b)
              = Some (snd b))).
Proof.
  intros Hd Hsize.
  split; [| split; [| split; [| split;
    [apply cacheVerificationResult_stored | split]]]].
  - unfold cacheVerificationResult. apply JsMap_set_distinct.
    destruct (maxCacheEntries <=? JsMap.size cache); [| exact Hd].
    apply delete_all_distinct, Hd.
  - unfold cacheVerificationResult, JsMap.size, maxCacheEntries in *.
    destruct (Z.leb_spec 100 (Z.of_nat (List.length cache))) as [Hfull | Hroom].
    + change (Z.to_nat (100 * 2 / 10)) with 20%nat.
      destruct (sortByAge_keys 20 Hd) as [Hnd Hin].
      pose proof (delete_all_length (firstn 20 (sortByAge cache)) cache Hnd Hin)
        as Hlen.
      rewrite length_firstn, (Permutation_length (sortByAge_permutation cache))
        in Hlen.
      pose proof (JsMap_set_length
                    (fold_left (fun c e => JsMap.delete c (fst e))
                               (firstn 20 (sortByAge cache)) cache)
                    k {| result := r; ce_timestamp := now |}) as Hset.
      lia.
    + pose proof (JsMap_set_length cache k {| result := r; ce_timestamp := now |}).
      lia.
  - intros Hfull.
    unfold cacheVerificationResult, JsMap.size, maxCacheEntries in *.
    destruct (Z.leb_spec 100 (Z.of_nat (List.length cache))) as [_ | Hroom];
      [| lia].
    change (Z.to_nat (100 * 2 / 10)) with 20%nat.
    destruct (sortByAge_keys 20 Hd) as [Hnd Hin].
    pose proof (delete_all_length (firstn 20 (sortByAge cache)) cache Hnd Hin)
      as Hlen.
    rewrite length_firstn, (Permutation_length (sortByAge_permutation cache))
      in Hlen.
    pose proof (JsMap_set_length
                  (fold_left (fun c e => JsMap.delete c (fst e))
                             (firstn 20 (sortByAge cache)) cache)
                  k {| result := r; ce_timestamp := now |}) as Hset.
    lia.
  - intros Hroom x Hne. unfold cacheVerificationResult.
    destruct (Z.leb_spec maxCacheEntries (JsMap.size cache)) as [Hfull | _];
      [lia |].
    apply JsMap_get_set_other. congruence.
  - intros Hfull.
    pose proof (sortByAge_permutation cache) as Hperm.
    assert (Hlen : List.length (sortByAge cache) = 100%nat).
    { rewrite (Permutation_length Hperm).
      unfold JsMap.size, maxCacheEntries in Hfull. lia. }
    assert (Hkeys : NoDup (map fst (firstn 20 (sortByAge cache))
                           ++ map fst (skipn 20 (sortByAge cache)))).
    { rewrite <- map_app, firstn_skipn.
      exact (Permutation_NoDup (Permutation_sym (Permutation_map fst Hperm)) Hd). }
    assert (Hafter : forall x : jsstring, x <> k ->
              JsMap.get (cacheVerificationResult now cache k r) x
              = JsMap.get (fold_left (fun c e => JsMap.delete c (fst e))
                             (firstn 20 (sortByAge cache)) cache) x).
    { intros x Hne. unfold cacheVerificationResult.
      destruct (Z.leb_spec maxCacheEntries (JsMap.size cache)) as [_ | Hroom];
        [| lia].
      change (Z.to_nat (maxCacheEntries * 2 / 10)) with 20%nat.
      apply JsMap_get_set_other. congruence. }
    exists (firstn 20 (sortByAge cache)), (skipn 20 (sortByAge cache)).
    split; [rewrite firstn_skipn; apply Permutation_sym, Hperm |].
    split; [rewrite length_firstn, Hlen; reflexivity |].
    split; [rewrite length_skipn, Hlen; reflexivity |].
    split; [| split].
    + intros a b Ha Hb.
      exact (@sorted_front_and_rest 20 (sortByAge cache) a b
               (sortByAge_sorted cache) Ha Hb).
    + intros a Ha Hne. rewrite (Hafter _ Hne).
      apply delete_all_get_deleted; [exact Hd |]. apply in_map. exact Ha.
    + intros b Hb Hne. rewrite (Hafter _ Hne).
      rewrite delete_all_get_other.
      * apply JsMap_get_entry; [exact Hd |].
        apply (Permutation_in _ Hperm). exact (skipn_subset _ _ _ Hb).
      * intros Hin.
        apply (@NoDup_app_disjoint _ _ _ (fst b) Hkeys Hin).
        apply in_map. exact Hb.
Qed.

(** A verdict stored in a full cache of 100 entries under a new key. *)
Lemma cacheVerificationResult_stays_bounded_witness :
  (distinctKeys fullCache /\ JsMap.size fullCache <= maxCacheEntries)
  /\ JsMap.size fullCache = maxCacheEntries
  /\ JsMap.size (cacheVerificationResult 100 fullCache (js "2el") (failure 0 []))
     <= 81.
Proof.
  assert (Hd : distinctKeys fullCache)
    by (apply distinctb_sound; vm_compute; reflexivity).
  assert (Hs : JsMap.size fullCache <= maxCacheEntries)
    by (vm_compute; discriminate).
  assert (Hfull : JsMap.size fullCache = maxCacheEntries)
    by (vm_compute; reflexivity).
  split; [exact (conj Hd Hs) |]. split; [exact Hfull |].
  exact (proj1 (proj2 (proj2
           (@cacheVerificationResult_stays_bounded 100 fullCache (js "2el")
              (failure 0 []) Hd Hs))) Hfull).
Defined.

(** X4. The sweep of [startCacheCleanup] removes exactly the entries
    older than the cache timeout: afterwards a key is found if and only if
    it was found before with an age of at most the timeout, and then with
    the same entry. *)
Theorem sweep_removes_exactly_the_expired
    (now : Z) (cache : Cache) (k : jsstring) :
  distinctKeys cache ->
  JsMap.get (sweep now cache) k
  = match JsMap.get cache k with
    | Some e => if cacheTimeout <? now - ce_timestamp e then None else Some e
    | None => None
    end.
Proof.
  unfold distinctKeys, sweep. induction cache as [| [k' e'] tl IH]; intros Hd;
    [reflexivity |].
  cbn [map fst] in Hd. inversion Hd as [| ? ? Hn Hd'].
  cbn [filter snd JsMap.get].
  destruct (strEq k' k) eqn:E.
  - apply strEq_eq in E. subst.
    destruct (cacheTimeout <? now - ce_timestamp e'); cbn [negb].
    + rewrite (IH Hd'). rewrite (@JsMap_get_absent _ tl _ Hn). reflexivity.
    + cbn [JsMap.get]. rewrite strEq_refl. reflexivity.
  - destruct (cacheTimeout <? now - ce_timestamp e'); cbn [negb].
    + apply (IH Hd').
    + cbn [JsMap.get]. rewrite E. apply (IH Hd').
Qed.

(** A cache with one verdict, swept six minutes after it was stored. *)
Lemma sweep_removes_exactly_the_expired_witness :
  distinctKeys [(js "2el", {| result := failure 0 []; ce_timestamp := 0 |})]
  /\ JsMap.get (sweep 360000
                  [(js "2el", {| result := failure 0 []; ce_timestamp := 0 |})])
       (js "2el") = None.
Proof.
  assert (Hd : distinctKeys
                 [(js "2el", {| result := failure 0 []; ce_timestamp := 0 |})])
    by (repeat constructor; intros []).
  split; [exact Hd |].
  exact (@sweep_removes_exactly_the_expired 360000 _ (js "2el") Hd).
Defined.

End TokenCache.

(* ===================================================================== *)
(** * Properties of the token pipeline (QRVerify) *)
(* ===================================================================== *)

Section TokenPipeline.
Local Open Scope Z_scope.
Import QRVerify.
Variable host : Host.
Variable publicKeys : JsMap.t KeyData.

Lemma validateExpectedData_checkEntries (pl : JsVal)
    (expected : list (jsstring * JsVal)) :
  validateExpectedData host pl expected = checkEntries host pl expected.
Proof. destruct expected; reflexivity. Qed.

(** The check of the expected data either finds them all met and answers
    [{ valid: true }], or finds one unmet and answers otherwise. *)
Lemma checkEntries_cases (pl : JsVal) (expected : list (jsstring * JsVal)) :
  (meets host pl expected
   /\ checkEntries host pl expected
      = Returned {| dv_valid := true; dv_error := JUndefined |})
  \/ (~ meets host pl expected /\ rejects (checkEntries host pl expected)).
Proof.
  unfold meets. induction expected as [| [k v] tl IH].
  - left. split; [constructor | reflexivity].
  - cbn [checkEntries].
    destruct (getProp (hostProp host) pl k) as [actual | m] eqn:Hget;
      cbn [obind].
    2:{ right. split; [| exact I]. intros Hm.
        inversion Hm as [| ? ? (a & Ha & _) _]. cbn [fst] in Ha.
        rewrite Hget in Ha. discriminate Ha. }
    destruct (strictEq actual JUndefined) eqn:Hundef.
    { right. split; [| reflexivity]. intros Hm.
      inversion Hm as [| ? ? (a & Ha & Hnu & _) _]. cbn [fst] in Ha.
      rewrite Hget in Ha. injection Ha as <-.
      apply strictEq_JUndefined in Hundef. contradiction. }
    destruct (negb (strictEq v JNull) && negb (strictEq actual v)) eqn:Hneq.
    { right. split; [| reflexivity]. intros Hm.
      inversion Hm as [| ? ? (a & Ha & _ & Hok) _]. cbn [fst snd] in Ha, Hok.
      rewrite Hget in Ha. injection Ha as <-.
      apply andb_true_iff in Hneq. destruct Hneq as [Hn Hd].
      apply negb_true_iff in Hn, Hd.
      destruct Hok as [-> | Hsame]; [discriminate Hn | congruence]. }
    destruct IH as [[Hm Hc] | [Hm Hc]].
    + left. split; [| exact Hc]. constructor; [| exact Hm].
      exists actual. cbn [fst snd]. split; [exact Hget |]. split.
      * intros ->. discriminate Hundef.
      * apply andb_false_iff in Hneq. destruct Hneq as [Hn | Hd].
        -- left. apply negb_false_iff in Hn. apply strictEq_JNull. exact Hn.
        -- right. apply negb_false_iff in Hd. exact Hd.
    + right. split; [| exact Hc]. intros Hall.
      inversion Hall. contradiction.
Qed.

Lemma validateExpectedData_met (pl : JsVal) (expected : list (jsstring * JsVal)) :
  meets host pl expected ->
  validateExpectedData host pl expected
  = Returned {| dv_valid := true; dv_error := JUndefined |}.
Proof.
  intros Hm. rewrite validateExpectedData_checkEntries.
  destruct (checkEntries_cases pl expected) as [[_ Hc] | [Hn _]];
    [exact Hc | contradiction].
Qed.

Lemma validateExpectedData_unmet (pl : JsVal) (expected : list (jsstring * JsVal)) :
  ~ meets host pl expected ->
  rejects (validateExpectedData host pl expected).
Proof.
  intros Hn. rewrite validateExpectedData_checkEntries.
  destruct (checkEntries_cases pl expected) as [[Hm _] | [_ Hc]];
    [contradiction | exact Hc].
Qed.

Lemma validateExpectedData_valid (pl : JsVal) (expected : list (jsstring * JsVal))
    (dv : DataValid) :
  validateExpectedData host pl expected = Returned dv ->
  dv_valid dv = true ->
  meets host pl expected.
Proof.
  intros Hr Hv. rewrite validateExpectedData_checkEntries in Hr.
  destruct (checkEntries_cases pl expected) as [[Hm _] | [_ Hc]];
    [exact Hm |].
  rewrite Hr in Hc. cbn [rejects] in Hc. congruence.
Qed.

(** X5. [validateExpectedData] answers [{ valid: true }] exactly when the
    payload meets every expectation: each expected field can be read, is
    not [undefined], and equals the expected value unless that is [null].
    In every other case it answers [valid: false] or throws. *)
Theorem validateExpectedData_accepts_what_meets
    (pl : JsVal) (expected : list (jsstring * JsVal)) :
  (validateExpectedData host pl expected
   = Returned {| dv_valid := true; dv_error := JUndefined |}
   <-> meets host pl expected)
  /\ (forall dv, validateExpectedData host pl expected = Returned dv ->
                 dv_valid dv = true -> meets host pl expected)
  /\ (~ meets host pl expected ->
      rejects (validateExpectedData host pl expected)).
Proof.
  split; [| split].
  - split.
    + intros Hr. exact (validateExpectedData_valid _ _ Hr eq_refl).
    + apply validateExpectedData_met.
  - intros dv. apply validateExpectedData_valid.
  - apply validateExpectedData_unmet.
Qed.

(** A call that finds no usable verdict in the cache parses and verifies
    the token. *)
Lemma verifyQRCode_uncached (at_ : Instants) (cache : Cache) (qrData : jsstring)
    (expectedData : list (jsstring * JsVal)) :
  checkRateLimit host = Some true ->
  ic_valid (validateQRInput qrData) = true ->
  unanswered at_ cache qrData ->
  verifyQRCode host publicKeys at_ cache qrData expectedData
  = verifyUncached host publicKeys at_ cache (getCacheKey qrData) qrData
      expectedData.
Proof.
  intros Hrate Hvalid Hmiss. unfold verifyQRCode, unanswered in *.
  rewrite Hrate, Hvalid. cbn [negb].
  destruct (JsMap.get cache (getCacheKey qrData)) as [cached |]; [| reflexivity].
  destruct (Z.ltb_spec (atLookup at_ - ce_timestamp cached) cacheTimeout);
    [lia | reflexivity].
Qed.

(** X6. The input check comes before everything else: when the rate limit
    is exceeded or missing, or the token is empty, longer than 1024 code
    units or only white space, [verifyQRCode] answers [valid: false] and
    leaves the cache as it is, even if the cache holds a positive verdict
    for the token. *)
Theorem verifyQRCode_refuses_bad_input
    (at_ : Instants) (cache : Cache) (qrData : jsstring)
    (expectedData : list (jsstring * JsVal)) :
  checkRateLimit host <> Some true
  \/ qrData = []
  \/ maxPayloadSize < Z.of_nat (List.length qrData)
  \/ trim qrData = [] ->
  valid (fst (verifyQRCode host publicKeys at_ cache qrData expectedData)) = false
  /\ snd (verifyQRCode host publicKeys at_ cache qrData expectedData) = cache.
Proof.
  intros Hbad. unfold verifyQRCode.
  destruct (checkRateLimit host) as [[|] |]; try (split; reflexivity).
  assert (Hinvalid : ic_valid (validateQRInput qrData) = false).
  { destruct Hbad as [Hr | [-> | [Hlong | Hblank]]].
    - congruence.
    - reflexivity.
    - unfold validateQRInput. destruct qrData; [reflexivity |].
      destruct (Z.ltb_spec maxPayloadSize (Z.of_nat (List.length (n :: qrData))));
        [reflexivity | lia].
    - unfold validateQRInput. destruct qrData; [reflexivity |].
      destruct (maxPayloadSize <? _); [reflexivity |].
      rewrite Hblank. reflexivity. }
  rewrite Hinvalid. split; reflexivity.
Qed.

(** X7. A token whose algorithm is neither HMAC nor none is never
    verified: [performVerification] throws for it (for ECDSA and RSA-PSS
    the verifiers do not exist, any other name is refused), and
    [verifyQRCode] leaves the cache as it is. It answers [valid: false],
    with one exception: a verdict not yet five minutes old that the cache
    holds under the token's cache key (a 32-bit hash of the token, which
    another token can share) is returned as it is. *)
Theorem unsupported_algorithm_never_verifies
    (at_ : Instants) (cache : Cache) (qrData : jsstring)
    (expectedData : list (jsstring * JsVal)) (parsed : Parsed) :
  parseQRCode host qrData = Some parsed ->
  algorithm parsed <> JStr (js "HMAC") ->
  algorithm parsed <> JStr (js "none") ->
  (forall now : Z, exists message : jsstring,
      performVerification host publicKeys now parsed expectedData
      = Thrown message)
  /\ snd (verifyQRCode host publicKeys at_ cache qrData expectedData) = cache
  /\ (unanswered at_ cache qrData ->
      valid (fst (verifyQRCode host publicKeys at_ cache qrData expectedData))
      = false)
  /\ (valid (fst (verifyQRCode host publicKeys at_ cache qrData expectedData))
      = true ->
      exists cached : CacheEntry,
        JsMap.get cache (getCacheKey qrData) = Some cached
        /\ atLookup at_ - ce_timestamp cached < cacheTimeout
        /\ fst (verifyQRCode host publicKeys at_ cache qrData expectedData)
           = result cached).
Proof.
  intros Hparse Hhmac Hnone.
  assert (Hthrows : forall now : Z, exists message : jsstring,
            performVerification host publicKeys now parsed expectedData
            = Thrown message).
  { intros now. unfold performVerification, verifySignature.
    destruct (timedOut host); [eexists; reflexivity |].
    destruct (strictEq (algorithm parsed) (JStr (js "HMAC"))) eqn:E1.
    { apply strictEq_JStr in E1. contradiction. }
    destruct (strictEq (algorithm parsed) (JStr (js "ECDSA")));
      [eexists; reflexivity |].
    destruct (strictEq (algorithm parsed) (JStr (js "RSA-PSS")));
      [eexists; reflexivity |].
    destruct (strictEq (algorithm parsed) (JStr (js "none"))) eqn:E2.
    { apply strictEq_JStr in E2. contradiction. }
    eexists; reflexivity. }
  assert (Hfresh :
    verifyUncached host publicKeys at_ cache (getCacheKey qrData) qrData
      expectedData
    = (failure (atVerdict at_)
         match performVerification host publicKeys (atVerdict at_) parsed
                 expectedData with
         | Thrown message => message
         | Returned _ => []
         end, cache)).
  { unfold verifyUncached. rewrite Hparse.
    destruct (Hthrows (atVerdict at_)) as [message ->]. reflexivity. }
  split; [exact Hthrows |].
  unfold unanswered, verifyQRCode.
  destruct (checkRateLimit host) as [[|] |];
    [| repeat split; discriminate | repeat split; discriminate].
  destruct (negb (ic_valid (validateQRInput qrData)));
    [repeat split; discriminate |].
  destruct (JsMap.get cache (getCacheKey qrData)) as [cached |].
  - destruct (Z.ltb_spec (atLookup at_ - ce_timestamp cached) cacheTimeout)
      as [Hhit | Hold].
    + cbn [fst snd]. split; [reflexivity |]. split; [intros Hmiss; lia |].
      intros _. exists cached. repeat split. exact Hhit.
    + rewrite Hfresh. repeat split; discriminate.
  - rewrite Hfresh. repeat split; discriminate.
Qed.

(** [verifyHMAC] on a token whose key is configured: valid exactly when
    there is no [crypto.subtle], the fallback hash of key and payload
    segment is the signature, and the payload meets the expectations. *)
Lemma verifyHMAC_valid_iff (now : Z) (parsed : Parsed) (keyData : KeyData)
    (expectedData : list (jsstring * JsVal)) :
  lookupKey publicKeys (keyId parsed) = Some keyData ->
  valid (verifyHMAC host publicKeys now parsed expectedData) = true
  <-> subtle host = None
      /\ simpleHashCompare (key keyData ++ originalData parsed)
           (signature parsed) = true
      /\ meets host (payload parsed) expectedData.
Proof.
  intros Hkey. unfold verifyHMAC. rewrite Hkey.
  destruct (subtle host) as [crypto |].
  - rewrite verifyHMACWebCrypto_throws. cbn [valid].
    split; [discriminate | intros [Hnone _]; discriminate Hnone].
  - unfold verifyHMACFallback. rewrite validateExpectedData_checkEntries.
    destruct (checkEntries_cases (payload parsed) expectedData)
      as [[Hm Hc] | [Hn Hc]].
    + rewrite Hc. cbn [obind valid dv_valid]. rewrite andb_true_r.
      split; [intros Hs; repeat split; assumption | intros (_ & Hs & _); exact Hs].
    + destruct (checkEntries host (payload parsed) expectedData) as [dv | m];
        cbn [obind valid].
      * cbn [rejects] in Hc. rewrite Hc, andb_false_r.
        split; [discriminate | intros (_ & _ & Hm); contradiction].
      * split; [discriminate | intros (_ & _ & Hm); contradiction].
Qed.

Lemma split_first_piece (sep : N) (s p q : jsstring) (r : list jsstring) :
  split sep s = p :: q :: r -> exists rest, s = p ++ sep :: rest.
Proof.
  revert p. induction s as [| c tl IH]; intros p Hs; cbn [split] in Hs.
  - discriminate Hs.
  - destruct (N.eqb_spec c sep) as [-> | Hne].
    + injection Hs as <- _. exists tl. reflexivity.
    + destruct (split sep tl) as [| p' ps] eqn:Htl; [discriminate Hs |].
      injection Hs as <- ->. destruct (IH p' eq_refl) as [rest ->].
      exists rest. reflexivity.
Qed.

Lemma startsWith_app (a b c : jsstring) :
  startsWith (a ++ b) (a ++ c) = startsWith b c.
Proof.
  induction a as [| x a IH]; [reflexivity |].
  cbn [app startsWith]. rewrite N.eqb_refl. exact IH.
Qed.

(** A token of four dot-separated pieces that begins with [hmac] is read
    by [parseHMACFormat]. *)
Lemma parseQRCode_hmac (qrData kid sig b64 txt : jsstring) (pl : JsVal) :
  split 46 qrData = [js "hmac"; kid; sig; b64] ->
  atob host b64 = Returned txt ->
  JSON_parse host txt = Returned pl ->
  parseQRCode host qrData
  = Some {| version := JStr (js "hmac");
            algorithm := JStr (js "HMAC");
            keyId := JStr kid;
            signature := JStr sig;
            payload := pl;
            originalData := b64 |}.
Proof.
  intros Hsplit Hatob Hjson. unfold parseQRCode, matchV1. rewrite Hsplit.
  destruct (split_first_piece _ _ Hsplit) as [rest Hqr].
  assert (Hstart : startsWith qrData (js "hmac.") = true).
  { rewrite Hqr. change (js "hmac.") with (js "hmac" ++ [46%N]).
    rewrite startsWith_app. cbn [startsWith]. rewrite N.eqb_refl.
    destruct rest; reflexivity. }
  rewrite Hstart. unfold parseHMACFormat. rewrite Hsplit, Hatob.
  cbn [obind]. rewrite Hjson. reflexivity.
Qed.

(** X8. Let [verifyQRCode] get as far as verifying a token
    [hmac.<key id>.<signature>.<payload>]: the rate limit and the input
    check let it pass, the cache holds no verdict under its cache key that
    is less than five minutes old, the timer of [withTimeout] does not
    fire, the payload segment decodes to a JSON text, and the key id is
    configured. Then the token is valid exactly when the browser has no
    [crypto.subtle], the signature is the fallback hash (in hex) of the key
    followed by the payload segment, and the payload meets the caller's
    expectations; in a browser with [crypto.subtle] no such token is valid.
    The verdict, valid or not, is stored in the cache under the token's
    cache key. *)
Theorem hmac_token_valid_iff_signed_and_expected
    (at_ : Instants) (cache : Cache) (qrData kid sig b64 txt : jsstring)
    (pl : JsVal) (keyData : KeyData) (expectedData : list (jsstring * JsVal)) :
  checkRateLimit host = Some true ->
  timedOut host = false ->
  ic_valid (validateQRInput qrData) = true ->
  unanswered at_ cache qrData ->
  split 46 qrData = [js "hmac"; kid; sig; b64] ->
  atob host b64 = Returned txt ->
  JSON_parse host txt = Returned pl ->
  JsMap.get publicKeys kid = Some keyData ->
  (valid (fst (verifyQRCode host publicKeys at_ cache qrData expectedData)) = true
   <-> subtle host = None
       /\ simpleHashCompare (key keyData ++ b64) (JStr sig) = true
       /\ meets host pl expectedData)
  /\ (subtle host <> None ->
      valid (fst (verifyQRCode host publicKeys at_ cache qrData expectedData))
      = false)
  /\ JsMap.get (snd (verifyQRCode host publicKeys at_ cache qrData expectedData))
       (getCacheKey qrData)
     = Some {| result :=
                 fst (verifyQRCode host publicKeys at_ cache qrData expectedData);
               ce_timestamp := atStore at_ |}.
Proof.
  intros Hrate Htimer Hvalid Hmiss Hsplit Hatob Hjson Hkey.
  rewrite (@verifyQRCode_uncached at_ cache qrData expectedData Hrate Hvalid Hmiss).
  unfold verifyUncached.
  rewrite (@parseQRCode_hmac qrData kid sig b64 txt pl Hsplit Hatob Hjson).
  unfold performVerification. rewrite Htimer.
  unfold verifySignature. cbn [algorithm].
  replace (strictEq (JStr (js "HMAC")) (JStr (js "HMAC"))) with true
    by reflexivity.
  cbn [fst snd].
  pose proof (@verifyHMAC_valid_iff (atVerdict at_)
                {| version := JStr (js "hmac");
                   algorithm := JStr (js "HMAC");
                   keyId := JStr kid;
                   signature := JStr sig;
                   payload := pl;
                   originalData := b64 |} keyData expectedData Hkey) as Hiff.
  cbn [signature payload originalData] in Hiff.
  split; [exact Hiff |]. split.
  - intros Hsub. apply not_true_is_false. intros Hv.
    apply Hiff in Hv. destruct Hv as [Hnone _]. contradiction.
  - apply cacheVerificationResult_stored.
Qed.

(** A token that is a JSON text in braces is read by [parseSimpleFormat]. *)
Lemma parseQRCode_plain_json (qrData : jsstring) (pl : JsVal) :
  startsWith qrData (js "{") = true ->
  endsWith qrData (js "}") = true ->
  JSON_parse host qrData = Returned pl ->
  parseQRCode host qrData
  = Some {| version := JStr (js "simple");
            algorithm := JStr (js "none");
            keyId := JNull;
            signature := JNull;
            payload := pl;
            originalData := qrData |}.
Proof.
  intros Hopen Hclose Hjson. unfold parseQRCode.
  assert (Hv1 : matchV1 qrData = None).
  { destruct qrData as [| c rest]; [discriminate Hopen |].
    change (js "{") with [123%N] in Hopen. cbn [startsWith] in Hopen.
    apply andb_true_iff in Hopen. destruct Hopen as [Hc _].
    apply N.eqb_eq in Hc. subst c.
    unfold matchV1. cbn [split]. change (123 =? 46)%N with false.
    destruct (split 46 rest) as [| p [| g1 [| g2 [| g3 ps]]]]; reflexivity. }
  assert (Hhmac : startsWith qrData (js "hmac.") = false).
  { destruct qrData as [| c rest]; [discriminate Hopen |].
    change (js "{") with [123%N] in Hopen. cbn [startsWith] in Hopen.
    apply andb_true_iff in Hopen. destruct Hopen as [Hc _].
    apply N.eqb_eq in Hc. subst c. reflexivity. }
  rewrite Hv1, Hhmac, Hopen, Hclose. cbn [andb].
  unfold parseSimpleFormat. rewrite Hjson. reflexivity.
Qed.

(** X9. Let [verifyQRCode] get as far as verifying a token that is a JSON
    text in braces: the rate limit and the input check let it pass, the
    cache holds no verdict under its cache key that is less than five
    minutes old, and the timer of [withTimeout] does not fire. The token
    carries no signature and is checked against no key: it is valid exactly
    when its content meets the caller's expectations, so with no
    expectations every such token is valid. *)
Theorem unsigned_token_valid_iff_expected
    (at_ : Instants) (cache : Cache) (qrData : jsstring) (pl : JsVal)
    (expectedData : list (jsstring * JsVal)) :
  checkRateLimit host = Some true ->
  timedOut host = false ->
  ic_valid (validateQRInput qrData) = true ->
  unanswered at_ cache qrData ->
  startsWith qrData (js "{") = true ->
  endsWith qrData (js "}") = true ->
  JSON_parse host qrData = Returned pl ->
  (valid (fst (verifyQRCode host publicKeys at_ cache qrData expectedData)) = true
   <-> meets host pl expectedData)
  /\ (expectedData = [] ->
      valid (fst (verifyQRCode host publicKeys at_ cache qrData expectedData))
      = true).
Proof.
  intros Hrate Htimer Hvalid Hmiss Hopen Hclose Hjson.
  assert (Hiff :
    valid (fst (verifyQRCode host publicKeys at_ cache qrData expectedData)) = true
    <-> meets host pl expectedData).
  { rewrite (@verifyQRCode_uncached at_ cache qrData expectedData Hrate Hvalid
               Hmiss).
    unfold verifyUncached.
    rewrite (@parseQRCode_plain_json qrData pl Hopen Hclose Hjson).
    unfold performVerification. rewrite Htimer.
    unfold verifySignature. cbn [algorithm].
    replace (strictEq (JStr (js "none")) (JStr (js "HMAC"))) with false
      by reflexivity.
    replace (strictEq (JStr (js "none")) (JStr (js "ECDSA"))) with false
      by reflexivity.
    replace (strictEq (JStr (js "none")) (JStr (js "RSA-PSS"))) with false
      by reflexivity.
    replace (strictEq (JStr (js "none")) (JStr (js "none"))) with true
      by reflexivity.
    unfold verifyPlaintext. cbn [payload].
    rewrite validateExpectedData_checkEntries.
    destruct (checkEntries_cases pl expectedData) as [[Hm Hc] | [Hn Hc]].
    - rewrite Hc. cbn [obind fst valid dv_valid]. tauto.
    - destruct (checkEntries host pl expectedData) as [dv | m];
        cbn [obind fst valid].
      + cbn [rejects] in Hc. rewrite Hc.
        split; [discriminate | intros Hm; contradiction].
      + cbn [failure valid].
        split; [discriminate | intros Hm; contradiction]. }
  split; [exact Hiff |].
  intros ->. apply Hiff. constructor.
Qed.

End TokenPipeline.

Section TokenPipelineInstances.
Local Open Scope Z_scope.
Import QRVerify.

(** A blank token, with a positive verdict waiting in the cache. *)
Lemma verifyQRCode_refuses_bad_input_witness :
  (checkRateLimit parsingHost <> Some true
   \/ js "   " = []
   \/ maxPayloadSize < Z.of_nat (List.length (js "   "))
   \/ trim (js "   ") = [])
  /\ valid (fst (verifyQRCode parsingHost predefinedKeys qrFirstCall
                   [(getCacheKey (js "   "),
                     {| result := verifyHMAC parsingHost predefinedKeys 0
                                    door3Token [];
                        ce_timestamp := 1763114400000 |})]
                   (js "   ") [])) = false.
Proof.
  assert (Hbad : checkRateLimit parsingHost <> Some true
                 \/ js "   " = []
                 \/ maxPayloadSize < Z.of_nat (List.length (js "   "))
                 \/ trim (js "   ") = [])
    by (right; right; right; reflexivity).
  split; [exact Hbad |].
  exact (proj1 (@verifyQRCode_refuses_bad_input parsingHost predefinedKeys
                  qrFirstCall _ (js "   ") [] Hbad)).
Defined.

(** A v1 token that declares the algorithm ECDSA. *)
Lemma unsupported_algorithm_never_verifies_witness :
  (parseQRCode parsingHost ecdsaRaw
      = Some {| version := JStr (js "1.0");
                algorithm := JStr (js "ECDSA");
                keyId := JStr (js "winter2025");
                signature := JStr (js "sig");
                payload := ecdsaPayload;
                originalData := ecdsaBase64 |}
   /\ JStr (js "ECDSA") <> JStr (js "HMAC")
   /\ JStr (js "ECDSA") <> JStr (js "none"))
  /\ valid (fst (verifyQRCode parsingHost predefinedKeys qrFirstCall []
                   ecdsaRaw [])) = false.
Proof.
  assert (Hparse : parseQRCode parsingHost ecdsaRaw
                   = Some {| version := JStr (js "1.0");
                             algorithm := JStr (js "ECDSA");
                             keyId := JStr (js "winter2025");
                             signature := JStr (js "sig");
                             payload := ecdsaPayload;
                             originalData := ecdsaBase64 |})
    by (vm_compute; reflexivity).
  assert (H1 : JStr (js "ECDSA") <> JStr (js "HMAC")) by discriminate.
  assert (H2 : JStr (js "ECDSA") <> JStr (js "none")) by discriminate.
  split; [exact (conj Hparse (conj H1 H2)) |].
  exact (proj1 (proj2 (proj2
           (@unsupported_algorithm_never_verifies parsingHost predefinedKeys
              qrFirstCall [] ecdsaRaw [] _ Hparse H1 H2))) I).
Defined.

(** The door-3 token, signed with the fallback hash under the key
    winter2025 and expected to be for day 3, in a browser without
    [crypto.subtle]. *)
Lemma hmac_token_valid_iff_signed_and_expected_witness :
  (checkRateLimit parsingHost = Some true
   /\ timedOut parsingHost = false
   /\ ic_valid (validateQRInput door3Raw) = true
   /\ unanswered qrFirstCall [] door3Raw
   /\ split 46 door3Raw
      = [js "hmac"; js "winter2025"; door3Signature; day3Base64]
   /\ atob parsingHost day3Base64 = Returned day3Text
   /\ JSON_parse parsingHost day3Text = Returned door3Payload
   /\ JsMap.get predefinedKeys (js "winter2025") = Some winterKey)
  /\ valid (fst (verifyQRCode parsingHost predefinedKeys qrFirstCall []
                   door3Raw [(js "day", JNum 3)])) = true.
Proof.
  assert (Hrate : checkRateLimit parsingHost = Some true) by reflexivity.
  assert (Htimer : timedOut parsingHost = false) by reflexivity.
  assert (Hvalid : ic_valid (validateQRInput door3Raw) = true)
    by (vm_compute; reflexivity).
  assert (Hmiss : unanswered qrFirstCall [] door3Raw) by exact I.
  assert (Hsplit : split 46 door3Raw
                   = [js "hmac"; js "winter2025"; door3Signature; day3Base64])
    by (vm_compute; reflexivity).
  assert (Hatob : atob parsingHost day3Base64 = Returned day3Text)
    by (vm_compute; reflexivity).
  assert (Hjson : JSON_parse parsingHost day3Text = Returned door3Payload)
    by (vm_compute; reflexivity).
  assert (Hkey : JsMap.get predefinedKeys (js "winter2025") = Some winterKey)
    by (vm_compute; reflexivity).
  split;
    [exact (conj Hrate (conj Htimer (conj Hvalid (conj Hmiss (conj Hsplit
              (conj Hatob (conj Hjson Hkey))))))) |].
  apply (proj1 (@hmac_token_valid_iff_signed_and_expected parsingHost
                  predefinedKeys qrFirstCall [] door3Raw (js "winter2025")
                  door3Signature day3Base64 day3Text door3Payload winterKey
                  [(js "day", JNum 3)]
                  Hrate Htimer Hvalid Hmiss Hsplit Hatob Hjson Hkey)).
  split; [reflexivity |]. split; [vm_compute; reflexivity |].
  constructor; [| constructor].
  exists (JNum 3). split; [vm_compute; reflexivity |].
  split; [discriminate | right; reflexivity].
Defined.

(** The JSON text of day 3, sent as it is, with no expectations. *)
Lemma unsigned_token_valid_iff_expected_witness :
  (checkRateLimit parsingHost = Some true
   /\ timedOut parsingHost = false
   /\ ic_valid (validateQRInput day3Text) = true
   /\ unanswered qrFirstCall [] day3Text
   /\ startsWith day3Text (js "{") = true
   /\ endsWith day3Text (js "}") = true
   /\ JSON_parse parsingHost day3Text = Returned door3Payload)
  /\ valid (fst (verifyQRCode parsingHost predefinedKeys qrFirstCall []
                   day3Text [])) = true.
Proof.
  assert (Hrate : checkRateLimit parsingHost = Some true) by reflexivity.
  assert (Htimer : timedOut parsingHost = false) by reflexivity.
  assert (Hvalid : ic_valid (validateQRInput day3Text) = true)
    by (vm_compute; reflexivity).
  assert (Hmiss : unanswered qrFirstCall [] day3Text) by exact I.
  assert (Hopen : startsWith day3Text (js "{") = true) by (vm_compute; reflexivity).
  assert (Hclose : endsWith day3Text (js "}") = true) by (vm_compute; reflexivity).
  assert (Hjson : JSON_parse parsingHost day3Text = Returned door3Payload)
    by (vm_compute; reflexivity).
  split;
    [exact (conj Hrate (conj Htimer (conj Hvalid (conj Hmiss (conj Hopen
              (conj Hclose Hjson)))))) |].
  exact (proj2 (@unsigned_token_valid_iff_expected parsingHost predefinedKeys
                  qrFirstCall [] day3Text door3Payload []
                  Hrate Htimer Hvalid Hmiss Hopen Hclose Hjson) eq_refl).
Defined.

End TokenPipelineInstances.

(* ===================================================================== *)
(** * Properties of the clock (WR_TIME) *)
(* ===================================================================== *)

Section Clock.
Local Open Scope Z_scope.
Import WR_TIME WR_TIME_clock.

(** Moving the day of the month by [k] moves the day number by [k]:
    [MakeDay] carries over into the neighbouring months and years. *)
Lemma MakeDay_of_fields (t k : Z) :
  MakeDay (YearFromTime t) (MonthFromTime t) (DateFromTime t + k) = Day t + k.
Proof.
  unfold MakeDay, DateFromTime, MonthFromTime, InLeapYear, DayWithinYear.
  cbv zeta.
  set (y := YearFromTime t).
  set (l := if isLeap y then 1 else 0).
  repeat match goal with
         | |- context [if ?c <? ?d then _ else _] => destruct (c <? d)
         end;
    try match goal with
        | |- context [y + ?m / 12] =>
            change (y + m / 12) with (y + 0); change (m mod 12) with m
        end;
    fold l; cbn [monthStart]; rewrite ?Z.add_0_r; lia.
Qed.

Lemma Day_of_time_in_day (d w : Z) :
  0 <= w < msPerDay -> Day (d * msPerDay + w) = d.
Proof.
  intros Hw. unfold Day. rewrite Z.add_comm, Z.div_add by (unfold msPerDay; lia).
  rewrite Z.div_small by exact Hw. reflexivity.
Qed.

Lemma TimeWithinDay_of_time_in_day (d w : Z) :
  0 <= w < msPerDay -> TimeWithinDay (d * msPerDay + w) = w.
Proof.
  intros Hw. unfold TimeWithinDay.
  rewrite Z.add_comm, Z.mod_add by (unfold msPerDay; lia).
  apply Z.mod_small. exact Hw.
Qed.

Lemma time_as_day_and_rest (t : Z) :
  t = Day t * msPerDay + TimeWithinDay t /\ 0 <= TimeWithinDay t < msPerDay.
Proof.
  unfold Day, TimeWithinDay. split.
  - rewrite Z.mul_comm. apply Z.div_mod. unfold msPerDay. lia.
  - apply Z.mod_pos_bound. unfold msPerDay. lia.
Qed.

(** The clock fields of a time value are those of its time within the
    day. *)
Lemma clock_fields (d h m s ms : Z) :
  0 <= h < 24 -> 0 <= m < 60 -> 0 <= s < 60 -> 0 <= ms < 1000 ->
  let t := d * msPerDay + MakeTime h m s ms in
  HourFromTime t = h /\ MinFromTime t = m /\ SecFromTime t = s
  /\ msFromTime t = ms.
Proof.
  intros Hh Hm Hs Hms t. subst t.
  unfold HourFromTime, MinFromTime, SecFromTime, msFromTime, MakeTime,
    msPerDay, msPerHour, msPerMinute, msPerSecond.
  repeat split.
  - replace (d * 86400000 + (h * 3600000 + m * 60000 + s * 1000 + ms))
      with ((m * 60000 + s * 1000 + ms) + (d * 24 + h) * 3600000) by lia.
    rewrite Z.div_add by lia. rewrite (Z.div_small (m * 60000 + s * 1000 + ms))
      by lia.
    rewrite Z.add_0_l, Z.add_comm, Z.mod_add by lia. apply Z.mod_small. lia.
  - replace (d * 86400000 + (h * 3600000 + m * 60000 + s * 1000 + ms))
      with ((s * 1000 + ms) + (d * 1440 + h * 60 + m) * 60000) by lia.
    rewrite Z.div_add by lia. rewrite (Z.div_small (s * 1000 + ms)) by lia.
    rewrite Z.add_0_l.
    replace (d * 1440 + h * 60 + m) with (m + (d * 24 + h) * 60) by lia.
    rewrite Z.mod_add by lia. apply Z.mod_small. lia.
  - replace (d * 86400000 + (h * 3600000 + m * 60000 + s * 1000 + ms))
      with (ms + (d * 86400 + h * 3600 + m * 60 + s) * 1000) by lia.
    rewrite Z.div_add by lia. rewrite (Z.div_small ms) by lia.
    rewrite Z.add_0_l.
    replace (d * 86400 + h * 3600 + m * 60 + s)
      with (s + (d * 1440 + h * 60 + m) * 60) by lia.
    rewrite Z.mod_add by lia. apply Z.mod_small. lia.
  - replace (d * 86400000 + (h * 3600000 + m * 60000 + s * 1000 + ms))
      with (ms + (d * 86400 + h * 3600 + m * 60 + s) * 1000) by lia.
    rewrite Z.mod_add by lia. apply Z.mod_small. lia.
Qed.

(** X10. [getNextDailyUnlock] returns the next 09:00 local time strictly
    after [now]: an instant later than [now], at most 24 hours away, whose
    local clock reads 09:00:00.000. At 09:00:00.000 sharp it is the 09:00
    of the following day. *)
Theorem getNextDailyUnlock_is_the_next_nine
    (tza : Z) (iso : jsstring) (now : Z) :
  - msPerDay < tza < msPerDay ->
  Z.abs now <= 8640000000000000 - 3 * msPerDay ->
  exists next : Z,
    getNextDailyUnlock tza (WR_TIME_CFG_with iso) (Some now) = Some next
    /\ now < next <= now + msPerDay
    /\ getHours tza (Some next) = Some 9
    /\ getMinutes tza (Some next) = Some 0
    /\ getSeconds tza (Some next) = Some 0
    /\ getMilliseconds tza (Some next) = Some 0.
Proof.
  intros Htz Hnow.
  destruct (time_as_day_and_rest (LocalTime tza now)) as [Hsplit Hrest].
  set (d := Day (LocalTime tza now)) in *.
  set (w := TimeWithinDay (LocalTime tza now)) in *.
  assert (Hnine : 0 <= MakeTime 9 0 0 0 < msPerDay)
    by (unfold MakeTime, msPerDay, msPerHour, msPerMinute, msPerSecond; lia).
  assert (Hfields : forall k,
    getHours tza (Some (UTC tza (k * msPerDay + MakeTime 9 0 0 0))) = Some 9
    /\ getMinutes tza (Some (UTC tza (k * msPerDay + MakeTime 9 0 0 0))) = Some 0
    /\ getSeconds tza (Some (UTC tza (k * msPerDay + MakeTime 9 0 0 0))) = Some 0
    /\ getMilliseconds tza (Some (UTC tza (k * msPerDay + MakeTime 9 0 0 0)))
       = Some 0).
  { intros k. unfold getHours, getMinutes, getSeconds, getMilliseconds, option_map.
    rewrite LocalTime_UTC.
    destruct (@clock_fields k 9 0 0 0) as (H1 & H2 & H3 & H4); try lia.
    rewrite H1, H2, H3, H4. repeat split; reflexivity. }
  assert (Htoday :
    setHours tza (Some now) 9 0 0 0
    = Some (UTC tza (d * msPerDay + MakeTime 9 0 0 0))).
  { unfold setHours. cbv zeta. fold d. unfold MakeDate.
    apply TimeClip_in_range.
    unfold UTC, LocalTime, MakeTime, msPerDay, msPerHour, msPerMinute,
      msPerSecond in *. lia. }
  unfold getNextDailyUnlock. cbn [dailyUnlockHour dailyUnlockMinute WR_TIME_CFG_with].
  cbv zeta. rewrite Htoday. cbn [numLt].
  destruct (Z.ltb_spec now (UTC tza (d * msPerDay + MakeTime 9 0 0 0)))
    as [Hbefore | Hafter].
  - exists (UTC tza (d * msPerDay + MakeTime 9 0 0 0)).
    split; [reflexivity |]. split; [| apply Hfields].
    unfold UTC, LocalTime, MakeTime, msPerDay, msPerHour, msPerMinute,
      msPerSecond in *. lia.
  - exists (UTC tza ((d + 1) * msPerDay + MakeTime 9 0 0 0)).
    split; [| split; [| apply Hfields]].
    + unfold setDate, getDate, option_map, numAdd. cbv zeta.
      rewrite LocalTime_UTC, MakeDay_of_fields.
      rewrite (Day_of_time_in_day d Hnine),
        (TimeWithinDay_of_time_in_day d Hnine).
      unfold MakeDate. apply TimeClip_in_range.
      unfold UTC, LocalTime, MakeTime, msPerDay, msPerHour, msPerMinute,
        msPerSecond in *. lia.
    + unfold UTC, LocalTime, MakeTime, msPerDay, msPerHour, msPerMinute,
        msPerSecond in *. lia.
Qed.

(** In a host on Central European Time, at 09:00:00.000 on 1 December
    2025. *)
Lemma getNextDailyUnlock_is_the_next_nine_witness :
  (- msPerDay < CET < msPerDay
   /\ Z.abs 1764576000000 <= 8640000000000000 - 3 * msPerDay)
  /\ exists next : Z,
    getNextDailyUnlock CET WR_TIME_CFG (Some 1764576000000) = Some next
    /\ 1764576000000 < next <= 1764576000000 + msPerDay
    /\ getHours CET (Some next) = Some 9
    /\ getMinutes CET (Some next) = Some 0
    /\ getSeconds CET (Some next) = Some 0
    /\ getMilliseconds CET (Some next) = Some 0.
Proof.
  assert (Htz : - msPerDay < CET < msPerDay) by (unfold msPerDay, CET; lia).
  assert (Hnow : Z.abs 1764576000000 <= 8640000000000000 - 3 * msPerDay)
    by (unfold msPerDay; lia).
  split; [exact (conj Htz Hnow) |].
  exact (@getNextDailyUnlock_is_the_next_nine CET
           (js "2025-11-14T18:35:00+01:00") 1764576000000 Htz Hnow).
Defined.

End Clock.

(* ===================================================================== *)
(** * Properties of the countdown text *)
(* ===================================================================== *)

Section Countdown.
Local Open Scope Z_scope.
Import WR_TIME_clock.

Lemma split_without_separator (sep : N) (s : jsstring) :
  ~ In sep s -> split sep s = [s].
Proof.
  induction s as [| c tl IH]; intros Hn; [reflexivity |].
  cbn [split]. destruct (N.eqb_spec c sep) as [-> | Hne].
  - exfalso. apply Hn. left. reflexivity.
  - rewrite IH; [reflexivity |]. intros Hin. apply Hn. right. exact Hin.
Qed.

Lemma split_at_separator (sep : N) (a b : jsstring) :
  ~ In sep a -> split sep (a ++ sep :: b) = a :: split sep b.
Proof.
  induction a as [| c tl IH]; intros Hn.
  - cbn [app split]. rewrite N.eqb_refl. reflexivity.
  - cbn [app split]. destruct (N.eqb_spec c sep) as [-> | Hne].
    + exfalso. apply Hn. left. reflexivity.
    + rewrite IH; [reflexivity |]. intros Hin. apply Hn. right. exact Hin.
Qed.

Lemma padStart_two_places (n : Z) :
  0 <= n < 100 ->
  let p := padStart 2 48 (numberToString n) in
  List.length p = 2%nat /\ digitsVal 0 p = Some n /\ ~ In 58%N p.
Proof.
  intros Hn p.
  assert (Hall : forallb (fun k => twoPlaces (Z.of_nat k)) (seq 0 100) = true)
    by (vm_compute; reflexivity).
  rewrite forallb_forall in Hall.
  specialize (Hall (Z.to_nat n)). rewrite Z2Nat.id in Hall by lia.
  assert (Hin : In (Z.to_nat n) (seq 0 100)) by (apply in_seq; lia).
  apply Hall in Hin. unfold twoPlaces in Hin. fold p in Hin.
  apply andb_true_iff in Hin. destruct Hin as [Hin Hcolon].
  apply andb_true_iff in Hin. destruct Hin as [Hlen Hval].
  split; [apply Nat.eqb_eq; exact Hlen |]. split.
  - destruct (digitsVal 0 p) as [v |]; [| discriminate Hval].
    apply Z.eqb_eq in Hval. congruence.
  - intros Hc. apply negb_true_iff in Hcolon.
    assert (Hex : existsb (N.eqb 58) p = true).
    { apply existsb_exists. exists 58%N. split; [exact Hc | apply N.eqb_refl]. }
    congruence.
Qed.

(** X11. The countdown text reads back as the remaining whole seconds:
    for a remaining time of less than 100 hours [formatCountdown] gives
    eight characters [HH:MM:SS] whose fields add up to the seconds left,
    and for no remaining time it gives 00:00:00. *)
Theorem formatCountdown_reads_back (delta : Z) :
  (delta <= 0 -> formatCountdown (Some delta) = js "00:00:00")
  /\ (0 < delta < 100 * msPerHour ->
      List.length (formatCountdown (Some delta)) = 8%nat
      /\ readCountdown (formatCountdown (Some delta)) = Some (delta / 1000)).
Proof.
  split.
  - intros Hle. unfold formatCountdown.
    destruct (Z.leb_spec delta 0); [reflexivity | lia].
  - intros Hd. unfold formatCountdown, msPerHour in *.
    destruct (Z.leb_spec delta 0) as [Hneg | _]; [lia |]. cbv zeta.
    set (total := delta / 1000).
    assert (Htotal : 0 <= total < 360000).
    { subst total. split.
      - apply Z.div_pos; lia.
      - apply Z.div_lt_upper_bound; lia. }
    rewrite !Z.rem_mod_nonneg by lia.
    set (h := total / 3600). set (m := total mod 3600 / 60).
    set (s := total mod 60).
    assert (Hh : 0 <= h < 100).
    { subst h. split; [apply Z.div_pos; lia | apply Z.div_lt_upper_bound; lia]. }
    assert (Hm : 0 <= m < 60).
    { subst m. pose proof (Z.mod_pos_bound total 3600 ltac:(lia)).
      split; [apply Z.div_pos; lia | apply Z.div_lt_upper_bound; lia]. }
    assert (Hs : 0 <= s < 60) by (subst s; apply Z.mod_pos_bound; lia).
    assert (Hsum : h * 3600 + m * 60 + s = total).
    { subst h m s. clear. Z.div_mod_to_equations. lia. }
    destruct (padStart_two_places Hh) as (Lh & Vh & Ch).
    destruct (@padStart_two_places m ltac:(lia)) as (Lm & Vm & Cm).
    destruct (@padStart_two_places s ltac:(lia)) as (Ls & Vs & Cs).
    cbv zeta in *. change (js ":") with [58%N]. split.
    + rewrite !length_app, Lh, Lm, Ls. reflexivity.
    + unfold readCountdown. cbn [app].
      rewrite (@split_at_separator 58 _ _ Ch), (@split_at_separator 58 _ _ Cm),
        (@split_without_separator 58 _ Cs).
      rewrite Vh, Vm, Vs, Hsum. reflexivity.
Qed.

End Countdown.

(* ===================================================================== *)
(** * Properties of the release tests in December 2025 *)
(* ===================================================================== *)

Section Releases.
Local Open Scope Z_scope.
Import WR_TIME.

(** X12. A door that [isDoorUnlocked] reports open stays open at every
    later instant, for any configuration; and with the scheduled releases
    alone (that is, for a door other than the dev-test door) an open door
    means that every door with a smaller number is open as well. *)
Theorem doors_stay_open_and_open_in_order
    (tza : Z) (iso : jsstring) (now : Z) :
  - msPerDay < tza < msPerDay ->
  (forall (cfg : TimeCfg) (day later : Z),
      isDoorUnlocked tza cfg day (Some now) = true ->
      now <= later ->
      isDoorUnlocked tza cfg day (Some later) = true)
  /\ (forall first second : Z,
        1 <= first <= second -> second <= 24 ->
        second <> devTestDay (WR_TIME_CFG_with iso) ->
        isDoorUnlocked tza (WR_TIME_CFG_with iso) second (Some now) = true ->
        isDoorUnlocked tza (WR_TIME_CFG_with iso) first (Some now) = true).
Proof.
  intros Htz. split.
  - intros cfg day later Hopen Hle. unfold isDoorUnlocked in *.
    destruct (newDateFromString tza (devTestUnlockISO cfg)) as [ov |];
      destruct (getDoorUnlockDate tza cfg day) as [uv |];
      destruct (day =? devTestDay cfg); cbn [numGe andb] in *;
      repeat match goal with
             | |- context [?a <=? ?b] => destruct (Z.leb_spec a b)
             | H : context [?a <=? ?b] |- _ => destruct (Z.leb_spec a b)
             end;
      try reflexivity; try discriminate; lia.
  - intros first second Hfirst Hsecond Hdev Hopen.
    assert (H1 : 1 <= first <= 24) by lia.
    assert (H2 : 1 <= second <= 24) by lia.
    unfold isDoorUnlocked in *.
    rewrite (getDoorUnlockDate_value iso Htz H1).
    rewrite (getDoorUnlockDate_value iso Htz H2) in Hopen.
    destruct (Z.eqb_spec second (devTestDay (WR_TIME_CFG_with iso)));
      [contradiction |].
    cbn [andb numGe] in Hopen. apply Z.leb_le in Hopen.
    destruct ((first =? devTestDay (WR_TIME_CFG_with iso))
              && numGe (Some now)
                   (newDateFromString tza
                      (devTestUnlockISO (WR_TIME_CFG_with iso))));
      [reflexivity |].
    cbn [numGe]. apply Z.leb_le.
    unfold UTC, msPerDay, msPerHour in *. nia.
Qed.

(** In a host on Central European Time, at noon of 5 December 2025. *)
Lemma doors_stay_open_and_open_in_order_witness :
  - msPerDay < CET < msPerDay
  /\ (forall (cfg : TimeCfg) (day later : Z),
        isDoorUnlocked CET cfg day (Some 1764932400000) = true ->
        1764932400000 <= later ->
        isDoorUnlocked CET cfg day (Some later) = true)
  /\ (forall first second : Z,
        1 <= first <= second -> second <= 24 ->
        second <> devTestDay WR_TIME_CFG ->
        isDoorUnlocked CET WR_TIME_CFG second (Some 1764932400000) = true ->
        isDoorUnlocked CET WR_TIME_CFG first (Some 1764932400000) = true).
Proof.
  assert (Htz : - msPerDay < CET < msPerDay) by (unfold msPerDay, CET; lia).
  split; [exact Htz |].
  exact (@doors_stay_open_and_open_in_order CET
           (js "2025-11-14T18:35:00+01:00") 1764932400000 Htz).
Defined.

(** In December the day of the month is at least 1. *)
Lemma DateFromTime_in_december (t : Z) :
  MonthFromTime t = 11 -> 1 <= DateFromTime t.
Proof.
  unfold DateFromTime, MonthFromTime. cbv zeta.
  repeat match goal with
         | |- context [if ?c <? ?d then _ else _] => destruct (Z.ltb_spec c d)
         end; intros Hm; try discriminate Hm.
  lia.
Qed.

Lemma HourFromTime_bounds (t : Z) : 0 <= HourFromTime t < 24.
Proof. unfold HourFromTime. apply Z.mod_pos_bound. lia. Qed.

Lemma MinFromTime_bounds (t : Z) : 0 <= MinFromTime t < 60.
Proof. unfold MinFromTime. apply Z.mod_pos_bound. lia. Qed.

(** The release-time test of TimeBerlin: the clock reads 06:00 or later. *)
Lemma release_time_reached (tza t : Z) :
  numGt (getHours tza (Some t)) (Some (TimeBerlin.hour TimeBerlin.dailyReleaseTime))
  || (numEq (getHours tza (Some t))
        (Some (TimeBerlin.hour TimeBerlin.dailyReleaseTime))
      && numGe (getMinutes tza (Some t))
           (Some (TimeBerlin.minute TimeBerlin.dailyReleaseTime)))
  = (6 <=? HourFromTime (LocalTime tza t)).
Proof.
  cbn [getHours getMinutes option_map numGt numEq numGe TimeBerlin.hour
       TimeBerlin.minute TimeBerlin.dailyReleaseTime].
  pose proof (MinFromTime_bounds (LocalTime tza t)) as Hmin.
  destruct (Z.ltb_spec 6 (HourFromTime (LocalTime tza t)));
    destruct (Z.eqb_spec (HourFromTime (LocalTime tza t)) 6);
    destruct (Z.leb_spec 0 (MinFromTime (LocalTime tza t)));
    destruct (Z.leb_spec 6 (HourFromTime (LocalTime tza t)));
    cbn [orb andb]; try reflexivity; lia.
Qed.

(** X13. [isPuzzleDayAvailable] of TimeBerlin holds exactly in a December,
    up to the 24th, for the doors before the day of the month and, from
    06:00 local time on, for the door of that day. From 25 December on,
    and in every other month, it reports no door available, also not the
    doors that were available before. *)
Theorem isPuzzleDayAvailable_only_in_december_up_to_24
    (tza puzzleDay t : Z) :
  (TimeBerlin.isPuzzleDayAvailable tza puzzleDay (Some t) = true
   <-> MonthFromTime (LocalTime tza t) = 11
       /\ DateFromTime (LocalTime tza t) <= 24
       /\ (puzzleDay < DateFromTime (LocalTime tza t)
           \/ (puzzleDay = DateFromTime (LocalTime tza t)
               /\ 6 <= HourFromTime (LocalTime tza t))))
  /\ TimeBerlin.isPuzzleDayAvailable tza puzzleDay None = false.
Proof.
  split; [| reflexivity].
  unfold TimeBerlin.isPuzzleDayAvailable, TimeBerlin.getCurrentDecemberDay.
  cbv zeta. rewrite release_time_reached, !month_above_12_unreachable.
  cbn [getMonth getDate option_map numAdd numEq numGe].
  pose proof (MonthFromTime_le_11 (LocalTime tza t)) as Hmonth.
  pose proof (@DateFromTime_in_december (LocalTime tza t)) as Hdate.
  destruct (Z.eqb_spec (MonthFromTime (LocalTime tza t) + 1) 12) as [Hdec | Hother];
    cbn [andb].
  2:{ split; [discriminate | intros [Hm _]; lia]. }
  assert (Hm : MonthFromTime (LocalTime tza t) = 11) by lia.
  specialize (Hdate Hm).
  destruct (Z.leb_spec 1 (DateFromTime (LocalTime tza t))) as [_ |]; [| lia].
  cbn [andb].
  destruct (Z.leb_spec (DateFromTime (LocalTime tza t)) 24) as [Hle | Hgt].
  2:{ split; [discriminate | intros (_ & Hd & _); lia]. }
  destruct (Z.ltb_spec puzzleDay (DateFromTime (LocalTime tza t))) as [Hlt | Hge].
  { split; [intros _ | reflexivity]. split; [exact Hm |]. split; [exact Hle |].
    left. exact Hlt. }
  destruct (Z.eqb_spec puzzleDay (DateFromTime (LocalTime tza t))) as [Heq | Hne].
  - destruct (Z.leb_spec 6 (HourFromTime (LocalTime tza t))) as [H6 | H6].
    + split; [intros _ | reflexivity]. split; [exact Hm |]. split; [exact Hle |].
      right. split; assumption.
    + split; [discriminate | intros (_ & _ & [Hlt | [_ Hh]]); lia].
  - split; [discriminate | intros (_ & _ & [Hlt | [Heq _]]); lia].
Qed.

(** The calendar fields of a time value depend on its day number only. *)
Lemma YearFromTime_by_day (t : Z) :
  YearFromTime t = YearFromTime (Day t * msPerDay).
Proof. unfold YearFromTime. rewrite Day_of_day_start. reflexivity. Qed.

Lemma DateFromTime_by_day (t : Z) :
  DateFromTime t = DateFromTime (Day t * msPerDay).
Proof.
  unfold DateFromTime. rewrite <- MonthFromTime_by_day.
  unfold DayWithinYear, InLeapYear. rewrite <- YearFromTime_by_day.
  rewrite Day_of_day_start. reflexivity.
Qed.

(** The calendar fields of the days of December 2025. *)
Lemma december_2025 (t k : Z) :
  1 <= k <= 31 -> Day t = 20422 + k ->
  YearFromTime t = 2025 /\ MonthFromTime t = 11 /\ DateFromTime t = k.
Proof.
  intros Hk Hday.
  assert (Hall : forallb (fun n =>
                   (YearFromTime ((20422 + Z.of_nat n) * msPerDay) =? 2025)
                   && (MonthFromTime ((20422 + Z.of_nat n) * msPerDay) =? 11)
                   && (DateFromTime ((20422 + Z.of_nat n) * msPerDay)
                       =? Z.of_nat n))
                 (seq 1 31) = true) by (vm_compute; reflexivity).
  rewrite forallb_forall in Hall. specialize (Hall (Z.to_nat k)).
  rewrite Z2Nat.id in Hall by lia.
  assert (Hin : In (Z.to_nat k) (seq 1 31)) by (apply in_seq; lia).
  apply Hall in Hin. apply andb_true_iff in Hin. destruct Hin as [Hin Hd].
  apply andb_true_iff in Hin. destruct Hin as [Hy Hm].
  apply Z.eqb_eq in Hy, Hm, Hd.
  rewrite YearFromTime_by_day, MonthFromTime_by_day, DateFromTime_by_day, Hday.
  split; [exact Hy |]. split; [exact Hm | exact Hd].
Qed.

Lemma HourFromTime_in_day (t : Z) :
  HourFromTime t = TimeWithinDay t / msPerHour.
Proof.
  destruct (time_as_day_and_rest t) as [Hsplit Hrest].
  unfold HourFromTime. rewrite Hsplit at 1.
  unfold msPerDay, msPerHour in *.
  replace (Day t * 86400000 + TimeWithinDay t)
    with (TimeWithinDay t + Day t * 24 * 3600000) by lia.
  rewrite Z.div_add by lia. rewrite Z.mod_add by lia.
  apply Z.mod_small. split.
  - apply Z.div_pos; lia.
  - apply Z.div_lt_upper_bound; lia.
Qed.

Lemma hour_reached (w h : Z) :
  (h <=? w / msPerHour) = (h * msPerHour <=? w).
Proof.
  unfold msPerHour.
  pose proof (Z.mul_div_le w 3600000 ltac:(lia)).
  pose proof (Z.mul_succ_div_gt w 3600000 ltac:(lia)).
  destruct (Z.leb_spec h (w / 3600000)); destruct (Z.leb_spec (h * 3600000) w);
    try reflexivity; lia.
Qed.

(** X14. On the day of a door in December 2025 the three availability
    tests open the door at three different times: the month/day test of
    main.js from midnight, [isPuzzleDayAvailable] of TimeBerlin from 06:00,
    and [isDoorUnlocked] of WR_TIME (for a door other than the dev-test
    door) from 09:00 local time. *)
Theorem three_tests_three_opening_times
    (tza : Z) (iso : jsstring) (day t : Z) :
  - msPerDay < tza < msPerDay ->
  1 <= day <= 24 ->
  day <> devTestDay (WR_TIME_CFG_with iso) ->
  Day (LocalTime tza t) = 20422 + day ->
  getDate tza (Some t) = Some day
  /\ WinterRallyeApp.isPuzzleAvailable_legacy tza day (Some t) = true
  /\ TimeBerlin.isPuzzleDayAvailable tza day (Some t)
     = (6 <=? HourFromTime (LocalTime tza t))
  /\ isDoorUnlocked tza (WR_TIME_CFG_with iso) day (Some t)
     = (9 <=? HourFromTime (LocalTime tza t)).
Proof.
  intros Htz Hday Hdev Hd.
  destruct (@december_2025 (LocalTime tza t) day ltac:(lia) Hd)
    as (Hy & Hm & Hdate).
  split; [cbn [getDate option_map]; rewrite Hdate; reflexivity |].
  split; [| split].
  - unfold WinterRallyeApp.isPuzzleAvailable_legacy.
    cbn [getMonth getDate option_map numAdd numLt numEq].
    rewrite Hm, Hdate. change (11 + 1 <? 12) with false.
    change (11 + 1 =? 12) with true. rewrite Z.ltb_irrefl. reflexivity.
  - unfold TimeBerlin.isPuzzleDayAvailable, TimeBerlin.getCurrentDecemberDay.
    cbv zeta. rewrite release_time_reached.
    cbn [getMonth getDate option_map numAdd numEq numGe].
    rewrite Hm, Hdate. change (11 + 1 =? 12) with true.
    destruct (Z.leb_spec 1 day); [| lia].
    destruct (Z.leb_spec day 24); [| lia].
    cbn [andb]. rewrite Z.ltb_irrefl, Z.eqb_refl. reflexivity.
  - unfold isDoorUnlocked.
    destruct (Z.eqb_spec day (devTestDay (WR_TIME_CFG_with iso)));
      [contradiction |].
    cbn [andb]. cbv zeta. rewrite (getDoorUnlockDate_value iso Htz Hday).
    cbn [numGe]. rewrite HourFromTime_in_day, hour_reached.
    destruct (time_as_day_and_rest (LocalTime tza t)) as [Hsplit Hrest].
    rewrite Hd in Hsplit.
    unfold UTC, LocalTime, msPerDay, msPerHour in *.
    destruct (Z.leb_spec (9 * 3600000) (TimeWithinDay (t + tza)));
      [apply Z.leb_le | apply Z.leb_gt]; lia.
Qed.

(** Door 5 in a host on Central European Time, at 07:30 on 5 December
    2025: available for two of the tests, locked for the third. *)
Lemma three_tests_three_opening_times_witness :
  (- msPerDay < CET < msPerDay /\ 1 <= 5 <= 24
   /\ 5 <> devTestDay WR_TIME_CFG
   /\ Day (LocalTime CET 1764916200000) = 20422 + 5)
  /\ WinterRallyeApp.isPuzzleAvailable_legacy CET 5 (Some 1764916200000) = true
  /\ TimeBerlin.isPuzzleDayAvailable CET 5 (Some 1764916200000) = true
  /\ isDoorUnlocked CET WR_TIME_CFG 5 (Some 1764916200000) = false.
Proof.
  assert (Htz : - msPerDay < CET < msPerDay) by (unfold msPerDay, CET; lia).
  assert (Hday : 1 <= 5 <= 24) by lia.
  assert (Hdev : 5 <> devTestDay WR_TIME_CFG) by (simpl; lia).
  assert (Hd : Day (LocalTime CET 1764916200000) = 20422 + 5)
    by (vm_compute; reflexivity).
  split; [exact (conj Htz (conj Hday (conj Hdev Hd))) |].
  destruct (@three_tests_three_opening_times CET
              (js "2025-11-14T18:35:00+01:00") 5 1764916200000 Htz Hday Hdev Hd)
    as (_ & Hlegacy & Hberlin & Hdoor).
  split; [exact Hlegacy |]. split.
  - rewrite Hberlin. vm_compute. reflexivity.
  - unfold WR_TIME_CFG. rewrite Hdoor. vm_compute. reflexivity.
Defined.

Lemma MakeDay_december_2025 (n : Z) : MakeDay 2025 11 n = 20422 + n.
Proof.
  unfold MakeDay. change (2025 + 11 / 12) with 2025.
  change (11 mod 12) with 11. change (DayFromYear 2025) with 20089.
  change (monthStart 11 (if isLeap 2025 then 1 else 0)) with 334. lia.
Qed.

Lemma isPuzzleDayAvailable_december_2025 (tza puzzleDay t k : Z) :
  1 <= k <= 31 -> Day (LocalTime tza t) = 20422 + k ->
  TimeBerlin.isPuzzleDayAvailable tza puzzleDay (Some t)
  = (k <=? 24)
    && ((puzzleDay <? k)
        || ((puzzleDay =? k) && (6 <=? HourFromTime (LocalTime tza t)))).
Proof.
  intros Hk Hd.
  destruct (@december_2025 (LocalTime tza t) k Hk Hd) as (_ & Hm & Hdate).
  unfold TimeBerlin.isPuzzleDayAvailable, TimeBerlin.getCurrentDecemberDay.
  cbv zeta. rewrite release_time_reached, !month_above_12_unreachable.
  cbn [getMonth getDate option_map numAdd numEq numGe].
  rewrite Hm, Hdate. change (11 + 1 =? 12) with true.
  destruct (Z.leb_spec 1 k); [| lia]. cbn [andb].
  destruct (k <=? 24); cbn [andb]; [| reflexivity].
  destruct (puzzleDay <? k); [reflexivity |].
  destruct (puzzleDay =? k); reflexivity.
Qed.

(** The release at 06:00 local time on December [n], 2025. *)
Lemma release_fields (tza n : Z) :
  1 <= n <= 31 ->
  let next := Some (UTC tza ((20422 + n) * msPerDay + MakeTime 6 0 0 0)) in
  getMonth tza next = Some 11 /\ getDate tza next = Some n
  /\ getHours tza next = Some 6 /\ getMinutes tza next = Some 0
  /\ Day (LocalTime tza (UTC tza ((20422 + n) * msPerDay + MakeTime 6 0 0 0)))
     = 20422 + n.
Proof.
  intros Hn next. subst next.
  unfold getMonth, getDate, getHours, getMinutes, option_map.
  rewrite LocalTime_UTC.
  assert (Hsix : 0 <= MakeTime 6 0 0 0 < msPerDay)
    by (unfold MakeTime, msPerDay, msPerHour, msPerMinute, msPerSecond; lia).
  pose proof (Day_of_time_in_day (20422 + n) Hsix) as Hd.
  destruct (@december_2025 _ n Hn Hd) as (_ & Hm & Hdate).
  destruct (@clock_fields (20422 + n) 6 0 0 0) as (H1 & H2 & _); try lia.
  rewrite Hm, Hdate, H1, H2. repeat split; try reflexivity. exact Hd.
Qed.

(** X15. In December 2025 [getNextPuzzleTime] returns the next release of
    TimeBerlin: an instant after [now], at most 24 hours away, at 06:00
    local time on a December day [n] up to the 24th, such that door [n]
    is not available at [now] and is available at the returned instant.
    It returns null exactly from 06:00 on 24 December on. *)
Theorem getNextPuzzleTime_is_the_next_release (tza t : Z) :
  - msPerDay < tza < msPerDay ->
  20423 * msPerDay <= LocalTime tza t < 20454 * msPerDay ->
  match TimeBerlin_next.getNextPuzzleTime tza (Some t) with
  | Some next =>
      exists r n : Z,
        next = Some r
        /\ t < r <= t + msPerDay
        /\ 1 <= n <= 24
        /\ getMonth tza next = Some 11
        /\ getDate tza next = Some n
        /\ getHours tza next = Some 6
        /\ getMinutes tza next = Some 0
        /\ TimeBerlin.isPuzzleDayAvailable tza n (Some t) = false
        /\ TimeBerlin.isPuzzleDayAvailable tza n next = true
  | None => 20446 * msPerDay + 6 * msPerHour <= LocalTime tza t
  end.
Proof.
  intros Htz Hdec.
  pose proof (@Day_bounds _ _ _ Hdec) as Hday.
  destruct (time_as_day_and_rest (LocalTime tza t)) as [Hsplit Hrest].
  set (k := Day (LocalTime tza t) - 20422).
  assert (Hk : 1 <= k <= 31) by (subst k; lia).
  assert (Hd : Day (LocalTime tza t) = 20422 + k) by (subst k; lia).
  destruct (@december_2025 (LocalTime tza t) k Hk Hd) as (Hy & Hm & Hdate).
  pose proof (HourFromTime_in_day (LocalTime tza t)) as Hhour.
  assert (Hsix : 0 <= MakeTime 6 0 0 0 < msPerDay)
    by (unfold MakeTime, msPerDay, msPerHour, msPerMinute, msPerSecond; lia).
  (* the instant that the two setters produce for a day [n] *)
  assert (Hset : forall n, 1 <= n <= 24 ->
    setHours tza (setDate tza (Some t) (Some n)) 6 0 0 0
    = Some (UTC tza ((20422 + n) * msPerDay + MakeTime 6 0 0 0))).
  { intros n Hn. unfold setDate. cbv zeta.
    rewrite Hy, Hm, MakeDay_december_2025. unfold MakeDate.
    rewrite TimeClip_in_range
      by (unfold UTC, LocalTime, msPerDay in *; lia).
    unfold setHours. cbv zeta. rewrite LocalTime_UTC.
    rewrite (Day_of_time_in_day (20422 + n) Hrest). unfold MakeDate.
    apply TimeClip_in_range.
    unfold UTC, LocalTime, MakeTime, msPerDay, msPerHour, msPerMinute,
      msPerSecond in *. lia. }
  (* what holds of the returned instant *)
  assert (Hnext : forall n, 1 <= n <= 24 ->
    t < UTC tza ((20422 + n) * msPerDay + MakeTime 6 0 0 0) <= t + msPerDay ->
    TimeBerlin.isPuzzleDayAvailable tza n (Some t) = false ->
    exists r n0 : Z,
      Some (UTC tza ((20422 + n) * msPerDay + MakeTime 6 0 0 0)) = Some r
      /\ t < r <= t + msPerDay
      /\ 1 <= n0 <= 24
      /\ getMonth tza (Some (UTC tza ((20422 + n) * msPerDay + MakeTime 6 0 0 0)))
         = Some 11
      /\ getDate tza (Some (UTC tza ((20422 + n) * msPerDay + MakeTime 6 0 0 0)))
         = Some n0
      /\ getHours tza (Some (UTC tza ((20422 + n) * msPerDay + MakeTime 6 0 0 0)))
         = Some 6
      /\ getMinutes tza (Some (UTC tza ((20422 + n) * msPerDay + MakeTime 6 0 0 0)))
         = Some 0
      /\ TimeBerlin.isPuzzleDayAvailable tza n0 (Some t) = false
      /\ TimeBerlin.isPuzzleDayAvailable tza n0
           (Some (UTC tza ((20422 + n) * msPerDay + MakeTime 6 0 0 0))) = true).
  { intros n Hn Hlater Hnot.
    destruct (@release_fields tza n ltac:(lia)) as (F1 & F2 & F3 & F4 & F5).
    exists (UTC tza ((20422 + n) * msPerDay + MakeTime 6 0 0 0)), n.
    repeat (split; [first [reflexivity | assumption | lia] |]).
    rewrite (@isPuzzleDayAvailable_december_2025 tza n _ n ltac:(lia) F5).
    assert (F6 : HourFromTime
                   (LocalTime tza
                      (UTC tza ((20422 + n) * msPerDay + MakeTime 6 0 0 0))) = 6).
    { unfold getHours, option_map in F3. congruence. }
    rewrite F6.
    destruct (Z.leb_spec n 24); [| lia].
    rewrite Z.eqb_refl, Z.ltb_irrefl. reflexivity. }
  unfold TimeBerlin_next.getNextPuzzleTime. cbv zeta.
  rewrite release_time_reached.
  cbn [getMonth getDate option_map numAdd numEq numGt].
  rewrite Hm, Hdate. change (11 + 1 =? 12) with true. cbn [negb orb].
  destruct (Z.ltb_spec 24 k) as [Hlate | Hin].
  { unfold msPerDay, msPerHour in *. lia. }
  destruct (Z.leb_spec 6 (HourFromTime (LocalTime tza t))) as [Hpast | Hearly].
  - assert (Hw : 6 * msPerHour <= TimeWithinDay (LocalTime tza t)).
    { rewrite Hhour in Hpast. apply Z.leb_le in Hpast.
      rewrite hour_reached in Hpast. apply Z.leb_le in Hpast. exact Hpast. }
    cbn [numAdd numGt].
    destruct (Z.ltb_spec 24 (k + 1)) as [Hlast | Hmore].
    + unfold msPerDay, msPerHour in *. lia.
    + cbn [TimeBerlin.hour TimeBerlin.minute TimeBerlin.second
           TimeBerlin.dailyReleaseTime].
      rewrite (Hset (k + 1)) by lia. apply Hnext; [lia | |].
      * unfold UTC, LocalTime, MakeTime, msPerDay, msPerHour, msPerMinute,
          msPerSecond in *. lia.
      * rewrite (@isPuzzleDayAvailable_december_2025 tza (k + 1) t k Hk Hd).
        destruct (Z.ltb_spec (k + 1) k); [lia |].
        destruct (Z.eqb_spec (k + 1) k); [lia |].
        apply andb_false_r.
  - assert (Hw : TimeWithinDay (LocalTime tza t) < 6 * msPerHour).
    { rewrite Hhour in Hearly. apply Z.leb_gt in Hearly.
      rewrite hour_reached in Hearly. apply Z.leb_gt in Hearly. exact Hearly. }
    cbn [numGt]. destruct (Z.ltb_spec 24 k); [lia |].
    cbn [TimeBerlin.hour TimeBerlin.minute TimeBerlin.second
         TimeBerlin.dailyReleaseTime].
    rewrite (Hset k) by lia. apply Hnext; [lia | |].
    + unfold UTC, LocalTime, MakeTime, msPerDay, msPerHour, msPerMinute,
        msPerSecond in *. lia.
    + rewrite (@isPuzzleDayAvailable_december_2025 tza k t k Hk Hd).
      rewrite Z.ltb_irrefl, Z.eqb_refl.
      destruct (Z.leb_spec 6 (HourFromTime (LocalTime tza t))); [lia |].
      apply andb_false_r.
Qed.

(** In a host on Central European Time, at 07:30 on 5 December 2025: the
    next release is that of door 6. *)
Lemma getNextPuzzleTime_is_the_next_release_witness :
  (- msPerDay < CET < msPerDay
   /\ 20423 * msPerDay <= LocalTime CET 1764916200000 < 20454 * msPerDay)
  /\ match TimeBerlin_next.getNextPuzzleTime CET (Some 1764916200000) with
     | Some next =>
         exists r n : Z,
           next = Some r
           /\ 1764916200000 < r <= 1764916200000 + msPerDay
           /\ 1 <= n <= 24
           /\ getMonth CET next = Some 11
           /\ getDate CET next = Some n
           /\ getHours CET next = Some 6
           /\ getMinutes CET next = Some 0
           /\ TimeBerlin.isPuzzleDayAvailable CET n (Some 1764916200000) = false
           /\ TimeBerlin.isPuzzleDayAvailable CET n next = true
     | None => 20446 * msPerDay + 6 * msPerHour <= LocalTime CET 1764916200000
     end.
Proof.
  assert (Htz : - msPerDay < CET < msPerDay) by (unfold msPerDay, CET; lia).
  assert (Hdec : 20423 * msPerDay <= LocalTime CET 1764916200000
                 < 20454 * msPerDay)
    by (unfold LocalTime, CET, msPerDay; lia).
  split; [exact (conj Htz Hdec) |].
  exact (@getNextPuzzleTime_is_the_next_release CET 1764916200000 Htz Hdec).
Defined.

End Releases.

(* ===================================================================== *)
(** * Properties of AnswerUtil: normal form, hashes, checks, history *)
(* ===================================================================== *)

Section AnswerUtilFacts.
Local Open Scope Z_scope.
Import AnswerUtil AnswerUtilTools.

Lemma normalizeAnswer_app (a b : jsstring) :
  normalizeAnswer (a ++ b) = normalizeAnswer a ++ normalizeAnswer b.
Proof.
  unfold normalizeAnswer, replaceDiacritics, toLowerCase.
  rewrite map_app, filter_app, flat_map_app, filter_app. reflexivity.
Qed.

Ltac code_units :=
  repeat rewrite ?orb_false_iff, ?andb_false_iff, ?orb_true_iff,
    ?andb_true_iff, ?negb_true_iff, ?negb_false_iff, ?N.eqb_eq, ?N.eqb_neq,
    ?N.leb_le, ?N.leb_gt in *.

Lemma lowerChar_not_capital (c : N) :
  ((65 <=? lowerChar c) && (lowerChar c <=? 90))%N = false.
Proof.
  unfold lowerChar.
  destruct ((65 <=? c) && (c <=? 90))%N eqn:E1;
    [code_units; lia |].
  destruct ((192 <=? c) && (c <=? 222) && negb (c =? 215))%N eqn:E2;
    [code_units; lia | exact E1].
Qed.

Lemma lowerAlnum_of_alnum (x : N) :
  isAlphaNum x = true -> ((65 <=? x) && (x <=? 90))%N = false ->
  isLowerAlnum x = true.
Proof.
  unfold isAlphaNum, isLowerAlnum. intros Ha Hc. code_units. lia.
Qed.

(** What one code unit becomes. *)
Lemma normalizeAnswer_unit (c : N) :
  Forall (fun x => isLowerAlnum x = true) (normalizeAnswer [c]).
Proof.
  unfold normalizeAnswer, replaceDiacritics, toLowerCase. cbn [map filter].
  pose proof (lowerChar_not_capital c) as Hcap.
  destruct (isWhiteSpace (lowerChar c)); cbn [negb flat_map];
    [constructor |].
  rewrite app_nil_r. unfold diacritic.
  repeat match goal with
         | |- context [if ?b then _ else _] =>
             destruct b; [vm_compute; repeat constructor |]
         end.
  cbn [filter]. destruct (isAlphaNum (lowerChar c)) eqn:Ha; [| constructor].
  constructor; [| constructor].
  apply lowerAlnum_of_alnum; assumption.
Qed.

Lemma normalizeAnswer_alphabet (s : jsstring) :
  Forall (fun x => isLowerAlnum x = true) (normalizeAnswer s).
Proof.
  induction s as [| c tl IH]; [constructor |].
  change (c :: tl) with ([c] ++ tl). rewrite normalizeAnswer_app.
  apply Forall_app. split; [apply normalizeAnswer_unit | exact IH].
Qed.

Lemma normalizeAnswer_fixes_unit (c : N) :
  isLowerAlnum c = true -> normalizeAnswer [c] = [c].
Proof.
  intros Hc. unfold normalizeAnswer, replaceDiacritics, toLowerCase.
  cbn [map filter].
  assert (Hl : lowerChar c = c).
  { unfold isLowerAlnum, lowerChar in *.
    destruct ((65 <=? c) && (c <=? 90))%N eqn:E1; [code_units; lia |].
    destruct ((192 <=? c) && (c <=? 222) && negb (c =? 215))%N eqn:E2;
      [code_units; lia | reflexivity]. }
  rewrite Hl.
  assert (Hw : isWhiteSpace c = false).
  { unfold isLowerAlnum, isWhiteSpace in *. code_units. lia. }
  rewrite Hw. cbn [negb flat_map]. rewrite app_nil_r.
  assert (Hd : diacritic c = [c]).
  { unfold isLowerAlnum, diacritic in *.
    repeat match goal with
           | |- context [if ?b then _ else _] =>
               destruct b eqn:?; [exfalso; code_units; lia |]
           end.
    reflexivity. }
  rewrite Hd. cbn [filter].
  assert (Ha : isAlphaNum c = true).
  { unfold isLowerAlnum, isAlphaNum in *. code_units. lia. }
  rewrite Ha. reflexivity.
Qed.

Lemma normalizeAnswer_fixes_alphabet (s : jsstring) :
  Forall (fun x => isLowerAlnum x = true) s -> normalizeAnswer s = s.
Proof.
  induction 1 as [| c tl Hc _ IH]; [reflexivity |].
  change (c :: tl) with ([c] ++ tl).
  rewrite normalizeAnswer_app, IH, (@normalizeAnswer_fixes_unit c Hc).
  reflexivity.
Qed.

(** X16. [normalizeAnswer] of AnswerUtil works code unit by code unit:
    the result consists of the letters a to z and the digits only, a
    second pass changes nothing, the normal form of a concatenation is the
    concatenation of the normal forms, and a sharp s is dropped (it is in
    the replacement table but not in the pattern that selects what to
    replace). *)
Theorem normalizeAnswer_yields_lowercase_alphanumerics (a b : jsstring) :
  Forall (fun x => isLowerAlnum x = true) (normalizeAnswer a)
  /\ normalizeAnswer (normalizeAnswer a) = normalizeAnswer a
  /\ normalizeAnswer (a ++ b) = normalizeAnswer a ++ normalizeAnswer b
  /\ normalizeAnswer (a ++ [223%N] ++ b) = normalizeAnswer (a ++ b).
Proof.
  split; [apply normalizeAnswer_alphabet |].
  split; [apply normalizeAnswer_fixes_alphabet, normalizeAnswer_alphabet |].
  split; [apply normalizeAnswer_app |].
  rewrite !normalizeAnswer_app. reflexivity.
Qed.

Lemma includesChar_In (s : jsstring) (c : N) :
  includesChar s c = true <-> In c s.
Proof.
  unfold includesChar. rewrite existsb_exists. split.
  - intros (x & Hin & Hx). apply N.eqb_eq in Hx. subst x. exact Hin.
  - intros Hin. exists c. split; [exact Hin | apply N.eqb_refl].
Qed.

Lemma includesChar_absent (s : jsstring) (c : N) :
  includesChar s c = false <-> ~ In c s.
Proof.
  rewrite <- includesChar_In. destruct (includesChar s c); split; congruence.
Qed.

(** The digits of a number in base 16. *)
Lemma digitsRev_hex (fuel : nat) (n : Z) (c : N) :
  0 <= n -> In c (digitsRev fuel 16 n) ->
  (48 <= c <= 57 \/ 97 <= c <= 102)%N.
Proof.
  revert n. induction fuel as [| f IH]; intros n Hn Hin; [destruct Hin |].
  cbn [digitsRev] in Hin.
  assert (Hdigit : forall d, 0 <= d < 16 ->
                     (48 <= digitChar d <= 57 \/ 97 <= digitChar d <= 102)%N).
  { intros d Hd. unfold digitChar. destruct (Z.ltb_spec d 10); lia. }
  destruct (Z.ltb_spec n 16) as [Hsmall | Hbig].
  - destruct Hin as [<- | []]. apply Hdigit. lia.
  - destruct Hin as [<- | Hin].
    + apply Hdigit. apply Z.mod_pos_bound. lia.
    + apply (IH (n / 16)); [apply Z.div_pos; lia | exact Hin].
Qed.

Lemma toStringRadix_hex (n : Z) (c : N) :
  0 <= n -> In c (toStringRadix 16 n) ->
  (48 <= c <= 57 \/ 97 <= c <= 102)%N.
Proof.
  intros Hn Hin. unfold toStringRadix in Hin.
  destruct (Z.ltb_spec n 0); [lia |].
  apply in_rev in Hin. exact (@digitsRev_hex _ _ _ Hn Hin).
Qed.

Lemma split_length (sep : N) (s : jsstring) :
  List.length (split sep s) = S (count_occ N.eq_dec s sep).
Proof.
  induction s as [| c tl IH]; [reflexivity |].
  cbn [split count_occ]. destruct (N.eqb_spec c sep) as [-> | Hne].
  - destruct (N.eq_dec sep sep); [| contradiction]. cbn [List.length].
    rewrite IH. reflexivity.
  - destruct (N.eq_dec c sep); [contradiction |].
    destruct (split sep tl) as [| p ps]; [discriminate IH | exact IH].
Qed.

(** The hash text [salt$hex] that [fallbackHash] produces. *)
Lemma fallbackHash_shape (input salt : jsstring) :
  exists hex : jsstring,
    fallbackHash input salt = salt ++ 36%N :: hex
    /\ ~ In 36%N hex /\ ~ In 58%N hex.
Proof.
  unfold fallbackHash. cbv zeta.
  exists (toStringRadix 16 (Z.abs (Int32.stringHash (salt ++ input)))).
  split; [reflexivity |].
  split; intros Hin; apply toStringRadix_hex in Hin; lia.
Qed.

(** X17. A hash made by [createHashForAnswer] without SecurityStatic is
    accepted by [verifyAgainstHash] for the normalized answer, provided
    the salt holds neither a colon nor a dollar sign; with a dollar sign
    in the salt, the hash that [fallbackHash] makes for an answer is not
    accepted for that very answer, because [parseHashFormat] no longer
    finds the salt. *)
Theorem fallbackHash_round_trip
    (host : Host) (answer : jsstring) (salt : option jsstring) :
  createSecureHash host = None ->
  includesChar (optStr salt) 58 = false ->
  (includesChar (optStr salt) 36 = false ->
   exists hashValue : jsstring,
     createHashForAnswer None answer salt = Returned hashValue
     /\ correct (verifyAgainstHash host (normalizeAnswer answer) hashValue)
        = true
     /\ matchedHash (verifyAgainstHash host (normalizeAnswer answer) hashValue)
        = JStr hashValue)
  /\ (includesChar (optStr salt) 36 = true ->
      correct (verifyAgainstHash host answer (fallbackHash answer (optStr salt)))
      = false).
Proof.
  intros Hhost Hcolon.
  apply includesChar_absent in Hcolon.
  assert (Hparse : forall input hex,
    fallbackHash input (optStr salt) = optStr salt ++ 36%N :: hex ->
    ~ In 36%N hex -> ~ In 58%N hex ->
    includesChar (fallbackHash input (optStr salt)) 58 = false
    /\ includesChar (fallbackHash input (optStr salt)) 36 = true).
  { intros input hex Hshape H36 H58. rewrite Hshape. split.
    - apply includesChar_absent. intros Hin. apply in_app_or in Hin.
      destruct Hin as [Hin | [Hin | Hin]];
        [contradiction | discriminate Hin | contradiction].
    - apply includesChar_In. apply in_or_app. right. left. reflexivity. }
  split.
  - intros Hdollar. apply includesChar_absent in Hdollar.
    unfold createHashForAnswer. cbv zeta.
    set (a := normalizeAnswer answer).
    destruct (fallbackHash_shape a (optStr salt)) as (hex & Hshape & H36 & H58).
    destruct (Hparse a hex Hshape H36 H58) as [Hno58 Hhas36].
    exists (fallbackHash a (optStr salt)). split; [reflexivity |].
    assert (Hinfo : parseHashFormat (fallbackHash a (optStr salt))
                    = {| hi_algorithm := js "SHA-256";
                         hi_salt := optStr salt; hi_hash := hex |}).
    { unfold parseHashFormat. cbv zeta. rewrite Hno58, Hhas36, Hshape.
      rewrite (@split_at_separator 36 _ _ Hdollar),
        (@split_without_separator 36 _ H36). reflexivity. }
    unfold verifyAgainstHash. cbv zeta. rewrite Hinfo, Hhost.
    cbn [hi_algorithm hi_salt hi_hash].
    replace (strEq (js "SHA-256") (js "plaintext")) with false by reflexivity.
    rewrite strEq_refl. cbn [correct matchedHash]. split; reflexivity.
  - intros Hdollar. apply includesChar_In in Hdollar.
    destruct (fallbackHash_shape answer (optStr salt))
      as (hex & Hshape & H36 & H58).
    destruct (Hparse answer hex Hshape H36 H58) as [Hno58 Hhas36].
    assert (Hcount : (2 <= count_occ N.eq_dec
                            (fallbackHash answer (optStr salt)) 36%N)%nat).
    { rewrite Hshape, count_occ_app. cbn [count_occ].
      destruct (N.eq_dec 36 36); [| contradiction].
      apply (count_occ_In N.eq_dec) in Hdollar. lia. }
    assert (Hinfo : parseHashFormat (fallbackHash answer (optStr salt))
                    = {| hi_algorithm := js "SHA-256"; hi_salt := [];
                         hi_hash := fallbackHash answer (optStr salt) |}).
    { unfold parseHashFormat. cbv zeta. rewrite Hno58, Hhas36.
      pose proof (split_length 36 (fallbackHash answer (optStr salt))) as Hlen.
      destruct (split 36 (fallbackHash answer (optStr salt)))
        as [| p1 [| p2 [| p3 ps]]]; cbn [List.length] in Hlen;
        try reflexivity; lia. }
    unfold verifyAgainstHash. cbv zeta. rewrite Hinfo, Hhost.
    cbn [hi_algorithm hi_salt hi_hash].
    replace (strEq (js "SHA-256") (js "plaintext")) with false by reflexivity.
    cbn [correct]. apply strEq_false. intros Heq.
    destruct (fallbackHash_shape answer []) as (hex0 & Hshape0 & H360 & _).
    rewrite <- Heq, Hshape0 in Hcount. cbn [app count_occ] in Hcount.
    destruct (N.eq_dec 36 36); [| contradiction].
    apply (count_occ_not_In N.eq_dec) in H360. lia.
Qed.

(** The answer "Nußknacker" with the salt "w25". *)
Lemma fallbackHash_round_trip_witness :
  (createSecureHash plainHost = None
   /\ includesChar (optStr (Some (js "w25"))) 58 = false
   /\ includesChar (optStr (Some (js "w25"))) 36 = false)
  /\ exists hashValue : jsstring,
       createHashForAnswer None (js "Nu" ++ [223%N] ++ js "knacker")
         (Some (js "w25")) = Returned hashValue
       /\ correct (verifyAgainstHash plainHost
                     (normalizeAnswer (js "Nu" ++ [223%N] ++ js "knacker"))
                     hashValue) = true
       /\ matchedHash (verifyAgainstHash plainHost
                         (normalizeAnswer (js "Nu" ++ [223%N] ++ js "knacker"))
                         hashValue) = JStr hashValue.
Proof.
  assert (Hhost : createSecureHash plainHost = None) by reflexivity.
  assert (Hcolon : includesChar (optStr (Some (js "w25"))) 58 = false)
    by reflexivity.
  assert (Hdollar : includesChar (optStr (Some (js "w25"))) 36 = false)
    by reflexivity.
  split; [exact (conj Hhost (conj Hcolon Hdollar)) |].
  exact (proj1 (@fallbackHash_round_trip plainHost
                  (js "Nu" ++ [223%N] ++ js "knacker") (Some (js "w25"))
                  Hhost Hcolon) Hdollar).
Defined.

Lemma firstMatch_found (host : Host) (answer : jsstring)
    (hashes : list jsstring) (r : VerificationResult) :
  firstMatch host answer hashes = Some r ->
  correct r = true
  /\ exists hash, In hash hashes /\ r = verifyAgainstHash host answer hash.
Proof.
  induction hashes as [| h tl IH]; cbn [firstMatch]; [discriminate |].
  cbv zeta. destruct (correct (verifyAgainstHash host answer h)) eqn:Hc.
  - intros [= <-]. split; [exact Hc |]. exists h. split; [left |]; reflexivity.
  - intros Hr. destruct (IH Hr) as (Hok & hash & Hin & ->).
    split; [exact Hok |]. exists hash. split; [right; exact Hin | reflexivity].
Qed.

Lemma firstMatch_none (host : Host) (answer : jsstring) (hashes : list jsstring) :
  firstMatch host answer hashes = None ->
  forall hash, In hash hashes ->
    correct (verifyAgainstHash host answer hash) = false.
Proof.
  induction hashes as [| h tl IH]; cbn [firstMatch]; [intros _ hash [] |].
  cbv zeta. destruct (correct (verifyAgainstHash host answer h)) eqn:Hc;
    [discriminate |].
  intros Hn hash [<- | Hin]; [exact Hc | exact (IH Hn hash Hin)].
Qed.

Lemma verifyAgainstPlaintext_correct (answer plaintext : jsstring) :
  correct (verifyAgainstPlaintext answer plaintext) = true
  <-> answer = normalizeAnswer plaintext.
Proof. unfold verifyAgainstPlaintext. cbn [correct]. apply strEq_eq. Qed.

Lemma verifyAgainstPattern_correct (host : Host) (answer pattern : jsstring) :
  correct (verifyAgainstPattern host answer pattern) = true
  <-> regexTest host pattern answer = Returned true.
Proof.
  unfold verifyAgainstPattern.
  destruct (regexTest host pattern answer) as [[|] | m]; cbn [correct];
    split; congruence.
Qed.

(** The later checks of [verifyAnswer] run only while the answer is not
    yet found correct. *)
Lemma step_hashes (host : Host) (answer : jsstring) (puzzleData : PuzzleData)
    (r : VerificationResult) :
  correct match correct r, answerHashes puzzleData with
          | false, Some hashes =>
              match firstMatch host answer hashes with
              | Some r' => r'
              | None => r
              end
          | _, _ => r
          end = true
  <-> correct r = true
      \/ exists hashes hash,
           answerHashes puzzleData = Some hashes /\ In hash hashes
           /\ correct (verifyAgainstHash host answer hash) = true.
Proof.
  destruct (correct r) eqn:Hc.
  - rewrite Hc. tauto.
  - destruct (answerHashes puzzleData) as [hashes |].
    + destruct (firstMatch host answer hashes) as [r' |] eqn:Hfm.
      * destruct (firstMatch_found _ _ _ Hfm) as (Hok & hash & Hin & ->).
        rewrite Hok. split; [| reflexivity].
        intros _. right. exists hashes, hash. auto.
      * rewrite Hc. split; [discriminate |].
        intros [Hq | (hs & hash & [= <-] & Hin & Hok)]; [discriminate Hq |].
        rewrite (firstMatch_none _ _ _ Hfm hash Hin) in Hok. discriminate Hok.
    + rewrite Hc. split; [discriminate |].
      intros [Hq | (hs & hash & Hq & _)]; discriminate Hq.
Qed.

Lemma step_plaintext (answer : jsstring) (puzzleData : PuzzleData)
    (r : VerificationResult) :
  correct match correct r, truthyStr (answerPlaintext puzzleData) with
          | false, Some p => verifyAgainstPlaintext answer p
          | _, _ => r
          end = true
  <-> correct r = true
      \/ exists plaintext,
           truthyStr (answerPlaintext puzzleData) = Some plaintext
           /\ answer = normalizeAnswer plaintext.
Proof.
  destruct (correct r) eqn:Hc.
  - rewrite Hc. tauto.
  - destruct (truthyStr (answerPlaintext puzzleData)) as [p |].
    + rewrite verifyAgainstPlaintext_correct. split.
      * intros Hp. right. exists p. auto.
      * intros [Hq | (p' & [= <-] & Hp)]; [discriminate Hq | exact Hp].
    + rewrite Hc. split; [discriminate |].
      intros [Hq | (p' & Hq & _)]; discriminate Hq.
Qed.

Lemma step_pattern (host : Host) (answer : jsstring) (puzzleData : PuzzleData)
    (r : VerificationResult) :
  correct match correct r, truthyStr (answerPattern puzzleData) with
          | false, Some p => verifyAgainstPattern host answer p
          | _, _ => r
          end = true
  <-> correct r = true
      \/ exists pattern,
           truthyStr (answerPattern puzzleData) = Some pattern
           /\ regexTest host pattern answer = Returned true.
Proof.
  destruct (correct r) eqn:Hc.
  - rewrite Hc. tauto.
  - destruct (truthyStr (answerPattern puzzleData)) as [p |].
    + rewrite verifyAgainstPattern_correct. split.
      * intros Hp. right. exists p. auto.
      * intros [Hq | (p' & [= <-] & Hp)]; [discriminate Hq | exact Hp].
    + rewrite Hc. split; [discriminate |].
      intros [Hq | (p' & Hq & _)]; discriminate Hq.
Qed.

(** X18. On a cache miss [verifyAnswer] reports an answer correct
    exactly when one of the four checks accepts it: the puzzle's hash,
    one of its alternative hashes, its plain-text answer after
    normalization, or its pattern. The order of the checks decides which
    match is reported, not whether the answer is correct. *)
Theorem verifyAnswer_correct_iff_some_check_accepts
    (host : Host) (at_ : Instants) (cache : Cache)
    (normalizedAnswer : jsstring) (puzzleData : PuzzleData) :
  JsMap.get cache (getCacheKey normalizedAnswer puzzleData) = None ->
  correct (fst (verifyAnswer host at_ cache normalizedAnswer puzzleData)) = true
  <-> (exists hash,
          truthyStr (answerHash puzzleData) = Some hash
          /\ correct (verifyAgainstHash host normalizedAnswer hash) = true)
      \/ (exists hashes hash,
             answerHashes puzzleData = Some hashes /\ In hash hashes
             /\ correct (verifyAgainstHash host normalizedAnswer hash) = true)
      \/ (exists plaintext,
             truthyStr (answerPlaintext puzzleData) = Some plaintext
             /\ normalizedAnswer = normalizeAnswer plaintext)
      \/ (exists pattern,
             truthyStr (answerPattern puzzleData) = Some pattern
             /\ regexTest host pattern normalizedAnswer = Returned true).
Proof.
  intros Hmiss. unfold verifyAnswer. rewrite Hmiss. cbn [fst withTime correct].
  unfold verifyUncached. cbv zeta.
  rewrite step_pattern, step_plaintext, step_hashes.
  assert (Hfirst :
    correct match truthyStr (answerHash puzzleData) with
            | Some h => verifyAgainstHash host normalizedAnswer h
            | None =>
                {| correct := false; matchedHash := JUndefined;
                   vr_algorithm := JUndefined; saltUsed := JUndefined;
                   vr_error := JUndefined; verificationTime := None |}
            end = true
    <-> exists hash,
          truthyStr (answerHash puzzleData) = Some hash
          /\ correct (verifyAgainstHash host normalizedAnswer hash) = true).
  { destruct (truthyStr (answerHash puzzleData)) as [h |].
    - split; [intros Hc; exists h; auto | intros (h' & [= <-] & Hc); exact Hc].
    - cbn [correct]. split; [discriminate | intros (h' & Hq & _); discriminate Hq]. }
  rewrite Hfirst. tauto.
Qed.

(** The answer "an" for a development puzzle whose plain-text answer is
    "An". *)
Lemma verifyAnswer_correct_iff_some_check_accepts_witness :
  JsMap.get ([] : Cache) (getCacheKey (js "an") (plainPuzzle None (js "An")))
  = None
  /\ correct (fst (verifyAnswer plainHost firstCall [] (js "an")
                     (plainPuzzle None (js "An")))) = true.
Proof.
  assert (Hmiss : JsMap.get ([] : Cache)
                    (getCacheKey (js "an") (plainPuzzle None (js "An"))) = None)
    by reflexivity.
  split; [exact Hmiss |].
  apply (proj2 (@verifyAnswer_correct_iff_some_check_accepts plainHost firstCall
                  [] (js "an") (plainPuzzle None (js "An")) Hmiss)).
  right. right. left. exists (js "An"). split; reflexivity.
Defined.

Lemma length_sliceLast (A : Type) (n : nat) (a : list A) :
  List.length (sliceLast n a) = Nat.min n (List.length a).
Proof. unfold sliceLast. rewrite length_skipn. lia. Qed.

(** X19. [recordSubmission] keeps the history bounded whatever was
    loaded into it: after a call it holds at most 100 entries (50 when it
    held 100 or more before), it ends with the new entry, it is the tail
    of the old history extended by the new entry, and the answers in the
    new entry are cut to 50 code units. *)
Theorem recordSubmission_bounds_the_history
    (now : Z) (history : list Submission) (raw normalized : jsstring)
    (result : VerificationResult) (resultPoints : JsVal)
    (puzzleData : PuzzleData) :
  let after := recordSubmission now history raw normalized result resultPoints
                 puzzleData in
  (List.length after <= 100)%nat
  /\ ((100 <= List.length history)%nat -> List.length after = 50%nat)
  /\ (exists dropped older entry,
         history = dropped ++ older
         /\ after = older ++ [entry]
         /\ rawAnswer entry = firstn 50 raw
         /\ sub_normalizedAnswer entry = firstn 50 normalized
         /\ (List.length (rawAnswer entry) <= 50)%nat
         /\ (List.length (sub_normalizedAnswer entry) <= 50)%nat
         /\ sub_correct entry = correct result
         /\ sub_timestamp entry = now).
Proof.
  cbv zeta. unfold recordSubmission. cbv zeta.
  set (entry := {| sub_timestamp := now; rawAnswer := substring0 50 raw |}).
  assert (Hlen : List.length (history ++ [entry]) = S (List.length history))
    by (rewrite length_app; cbn [List.length]; lia).
  assert (Hentry : rawAnswer entry = firstn 50 raw
                   /\ sub_normalizedAnswer entry = firstn 50 normalized
                   /\ (List.length (rawAnswer entry) <= 50)%nat
                   /\ (List.length (sub_normalizedAnswer entry) <= 50)%nat
                   /\ sub_correct entry = correct result
                   /\ sub_timestamp entry = now).
  { subst entry. cbn [rawAnswer sub_normalizedAnswer sub_correct sub_timestamp].
    unfold substring0. rewrite !length_firstn.
    repeat split; try reflexivity; lia. }
  destruct (Nat.ltb_spec 100 (List.length (history ++ [entry]))) as [Hfull | Hroom].
  - split; [rewrite length_sliceLast; lia |].
    split; [intros _; rewrite length_sliceLast; lia |].
    unfold sliceLast. rewrite Hlen.
    exists (firstn (S (List.length history) - 50) history),
      (skipn (S (List.length history) - 50) history), entry.
    split; [symmetry; apply firstn_skipn |]. split; [| exact Hentry].
    rewrite skipn_app.
    replace (S (List.length history) - 50 - List.length history)%nat with 0%nat
      by lia.
    reflexivity.
  - split; [lia |]. split; [intros Hge; lia |].
    exists [], history, entry. split; [reflexivity |].
    split; [reflexivity | exact Hentry].
Qed.

End AnswerUtilFacts.

(* ===================================================================== *)
(** * Properties of the hash check and the default rules (AnswersStore) *)
(* ===================================================================== *)

Section AnswersStoreFacts.
Import AnswersStore.

(** The loop over the reference hashes stops at the first hash that the
    validator accepts or fails on. *)
Lemma tryHashes_true_iff (validateAnswerHash : HashValidator)
    (answer : jsstring) (salt' : JsVal) (hashes : list JsVal) :
  fst (tryHashes validateAnswerHash answer salt' hashes) = Returned true
  <-> exists before hash after,
        hashes = before ++ hash :: after
        /\ Forall (fun h => validateAnswerHash answer h salt' = Returned false)
                  before
        /\ validateAnswerHash answer hash salt' = Returned true.
Proof.
  induction hashes as [| h tl IH]; cbn [tryHashes].
  - split; [discriminate |].
    intros (before & hash & after & Heq & _). destruct before; discriminate Heq.
  - cbv zeta.
    destruct (validateAnswerHash answer h salt') as [[|] | m] eqn:Hv;
      cbn [fst].
    + split; [intros _ | reflexivity].
      exists [], h, tl. split; [reflexivity |]. split; [constructor | exact Hv].
    + destruct (tryHashes validateAnswerHash answer salt' tl) as [r calls].
      cbn [fst] in *. rewrite IH. split.
      * intros (before & hash & after & -> & Hall & Hok).
        exists (h :: before), hash, after.
        split; [reflexivity |]. split; [constructor; assumption | exact Hok].
      * intros (before & hash & after & Heq & Hall & Hok).
        destruct before as [| b before]; cbn [app] in Heq;
          injection Heq as <- ->; [congruence |].
        inversion Hall as [| ? ? _ Hall']. subst.
        exists before, hash, after. auto.
    + split; [discriminate |].
      intros (before & hash & after & Heq & Hall & Hok).
      destruct before as [| b before]; cbn [app] in Heq;
        injection Heq as <- ->; [congruence |].
      inversion Hall as [| ? ? Hb _]. congruence.
Qed.

Lemma tryHashes_calls (validateAnswerHash : HashValidator)
    (answer : jsstring) (salt' : JsVal) (hashes : list JsVal) :
  exists untried,
    hashes = map call_hash (snd (tryHashes validateAnswerHash answer salt' hashes))
             ++ untried
    /\ Forall (fun call => call_answer call = answer /\ call_salt call = salt')
              (snd (tryHashes validateAnswerHash answer salt' hashes)).
Proof.
  induction hashes as [| h tl IH]; cbn [tryHashes].
  - exists []. split; [reflexivity | constructor].
  - cbv zeta.
    destruct (validateAnswerHash answer h salt') as [[|] | m]; cbn [snd map app].
    + exists tl. split; [reflexivity |]. repeat constructor.
    + destruct (tryHashes validateAnswerHash answer salt' tl) as [r calls].
      cbn [snd] in *. destruct IH as (untried & Heq & Hall).
      exists untried. cbn [map app call_hash]. split; [congruence |].
      constructor; [split; reflexivity | exact Hall].
    + exists tl. split; [reflexivity |]. repeat constructor.
Qed.

(** X20. With reference hashes instead of accepted answers and
    SecurityStatic loaded, [validateAnswer] is true exactly when the
    validator accepts one of the hashes after it has rejected, without
    failing, every hash before it: an exception at one hash ends the
    check, also when a later hash would match. The hashes are tried in
    their order up to the deciding one, each with the given answer and the
    configured salt (the empty string when none is set). *)
Theorem validateAnswer_hashes_first_match
    (validateAnswerHash : HashValidator) (normalizedAnswer : jsstring)
    (config : Stage2Config) (hashes : list JsVal) :
  isArray (accepted config) = false ->
  answer_hashes config = JArr hashes ->
  let salt' := orElse (salt config) (JStr []) in
  let outcome := validateAnswer (Some validateAnswerHash) normalizedAnswer config in
  (fst outcome = true
   <-> exists before hash after,
         hashes = before ++ hash :: after
         /\ Forall (fun h => validateAnswerHash normalizedAnswer h salt'
                             = Returned false) before
         /\ validateAnswerHash normalizedAnswer hash salt' = Returned true)
  /\ (exists untried, hashes = map call_hash (snd outcome) ++ untried)
  /\ Forall (fun call => call_answer call = normalizedAnswer
                         /\ call_salt call = salt') (snd outcome).
Proof.
  intros Hacc Hhashes salt' outcome. subst outcome.
  unfold validateAnswer. rewrite Hhashes.
  destruct (accepted config); try discriminate Hacc; cbv zeta; fold salt';
    pose proof (tryHashes_true_iff validateAnswerHash normalizedAnswer salt' hashes)
      as Hiff;
    destruct (tryHashes_calls validateAnswerHash normalizedAnswer salt' hashes)
      as (untried & Hcalls & Hall);
    destruct (tryHashes validateAnswerHash normalizedAnswer salt' hashes)
      as [[verdict | m] calls]; cbn [fst snd] in *;
    (split; [| split; [exists untried; exact Hcalls | exact Hall]]);
    rewrite <- Hiff; split; congruence.
Qed.

(** The hashed plasma filter puzzle with a validator that accepts. *)
Lemma validateAnswer_hashes_first_match_witness :
  (isArray (accepted hashedConfig) = false
   /\ answer_hashes hashedConfig = JArr [JStr (js "5f2a9c")])
  /\ fst (validateAnswer (Some acceptAll) (js "plasmafilter") hashedConfig) = true.
Proof.
  assert (Hacc : isArray (accepted hashedConfig) = false) by reflexivity.
  assert (Hhashes : answer_hashes hashedConfig = JArr [JStr (js "5f2a9c")])
    by reflexivity.
  split; [exact (conj Hacc Hhashes) |].
  apply (proj1 (@validateAnswer_hashes_first_match acceptAll (js "plasmafilter")
                  hashedConfig [JStr (js "5f2a9c")] Hacc Hhashes)).
  exists [], (JStr (js "5f2a9c")), []. split; [reflexivity |].
  split; [constructor | reflexivity].
Defined.

(** Without a rule string the answer is lowercased, trimmed and its runs
    of white space collapsed, in this order. *)
Lemma normalizeAnswer_default (answer : jsstring) (config : Stage2Config) :
  normalize config = None ->
  normalizeAnswer answer config
  = collapseSpaces (trim (toLowerCase answer)).
Proof.
  intros Hn. unfold normalizeAnswer. destruct answer as [| c tl]; [reflexivity |].
  unfold rulesOf. rewrite Hn.
  replace (map trim (split 44 defaultNormalize))
    with [js "lowercase"; js "trim"; js "collapse-spaces"]
    by (vm_compute; reflexivity).
  unfold applyRules. cbn [fold_left]. unfold applyRule.
  replace (ruleOfName (js "lowercase")) with Lowercase by reflexivity.
  replace (ruleOfName (js "trim")) with Trim by reflexivity.
  replace (ruleOfName (js "collapse-spaces")) with CollapseSpaces by reflexivity.
  reflexivity.
Qed.

Lemma trimStart_all_whitespace (w rest : jsstring) :
  Forall (fun c => isWhiteSpace c = true) w ->
  trimStart (w ++ rest) = trimStart rest.
Proof.
  induction 1 as [| c tl Hc _ IH]; [reflexivity |].
  cbn [app trimStart]. rewrite Hc. exact IH.
Qed.

Lemma trimEnd_all_whitespace (w : jsstring) :
  Forall (fun c => isWhiteSpace c = true) w -> trimEnd w = [].
Proof.
  induction 1 as [| c tl Hc _ IH]; [reflexivity |].
  cbn [trimEnd]. rewrite IH, Hc. reflexivity.
Qed.

Lemma trimEnd_app_whitespace (s w : jsstring) :
  Forall (fun c => isWhiteSpace c = true) w ->
  trimEnd (s ++ w) = trimEnd s.
Proof.
  intros Hw. induction s as [| c tl IH].
  - cbn [app]. rewrite (trimEnd_all_whitespace Hw). reflexivity.
  - cbn [app trimEnd]. rewrite IH. reflexivity.
Qed.

Lemma trim_surrounding_whitespace (pre s post : jsstring) :
  Forall (fun c => isWhiteSpace c = true) pre ->
  Forall (fun c => isWhiteSpace c = true) post ->
  trim (pre ++ s ++ post) = trim s.
Proof.
  intros Hpre Hpost. unfold trim. rewrite (trimStart_all_whitespace _ Hpre).
  induction s as [| c tl IH].
  - cbn [app trimStart].
    rewrite <- (app_nil_r post), (trimStart_all_whitespace _ Hpost).
    reflexivity.
  - cbn [app trimStart]. destruct (isWhiteSpace c); [exact IH |].
    change (c :: tl ++ post) with ((c :: tl) ++ post).
    apply trimEnd_app_whitespace. exact Hpost.
Qed.

(** X21. With the default rules (no rule string configured) the normal
    form of an answer does not depend on white space before and after it
    nor on the case of its letters. *)
Theorem default_rules_ignore_case_and_surrounding_space
    (config : Stage2Config) (pre answer post : jsstring) :
  normalize config = None ->
  Forall (fun c => isWhiteSpace c = true) pre ->
  Forall (fun c => isWhiteSpace c = true) post ->
  normalizeAnswer (pre ++ answer ++ post) config = normalizeAnswer answer config
  /\ normalizeAnswer (toLowerCase answer) config = normalizeAnswer answer config.
Proof.
  intros Hn Hpre Hpost. rewrite !normalizeAnswer_default by exact Hn. split.
  - f_equal. unfold toLowerCase. rewrite !map_app. fold (toLowerCase answer).
    apply trim_surrounding_whitespace;
      apply Forall_forall; intros x Hx; apply in_map_iff in Hx;
      destruct Hx as (c & <- & Hc); rewrite lowerChar_whitespace;
      [exact (proj1 (Forall_forall _ _) Hpre c Hc)
      | exact (proj1 (Forall_forall _ _) Hpost c Hc)].
  - rewrite (toLowerCase_fixed (toLowerCase_lower answer)). reflexivity.
Qed.

(** The answer " Plasma Filter " typed with a tab in front, for the hashed
    plasma filter puzzle, which configures no rules. *)
Lemma default_rules_ignore_case_and_surrounding_space_witness :
  (normalize hashedConfig = None
   /\ Forall (fun c => isWhiteSpace c = true) [9%N; 32%N]
   /\ Forall (fun c => isWhiteSpace c = true) [32%N])
  /\ normalizeAnswer ([9%N; 32%N] ++ js "Plasma Filter" ++ [32%N]) hashedConfig
     = normalizeAnswer (js "Plasma Filter") hashedConfig.
Proof.
  assert (Hn : normalize hashedConfig = None) by reflexivity.
  assert (Hpre : Forall (fun c => isWhiteSpace c = true) [9%N; 32%N])
    by (repeat constructor).
  assert (Hpost : Forall (fun c => isWhiteSpace c = true) [32%N])
    by (repeat constructor).
  split; [exact (conj Hn (conj Hpre Hpost)) |].
  exact (proj1 (@default_rules_ignore_case_and_surrounding_space hashedConfig
                  [9%N; 32%N] (js "Plasma Filter") [32%N] Hn Hpre Hpost)).
Defined.

End AnswersStoreFacts.

(* ===================================================================== *)
(** * Properties of the calendar: availability and progress *)
(* ===================================================================== *)

Section CalendarFacts.
Local Open Scope Z_scope.
Import CalendarLogic.

(** X22. Without WR_TIME the calendar's [isPuzzleAvailable], fed with
    its own [getCurrentDecemberDay], holds exactly in a December for the
    doors up to the day of the month, at most 24: the doors stay available
    from 25 to 31 December, and in every other month, January included,
    no door is available. *)
Theorem calendar_fallback_only_in_december
    (tza day t : Z) (now : Date) :
  isPuzzleAvailable tza None day (getCurrentDecemberDay tza (Some t)) now = true
  <-> MonthFromTime (LocalTime tza t) = 11
      /\ day <= Z.min (DateFromTime (LocalTime tza t)) 24.
Proof.
  unfold isPuzzleAvailable, getCurrentDecemberDay. cbv zeta.
  rewrite month_above_12_unreachable.
  cbn [getMonth getDate option_map numAdd numEq].
  pose proof (MonthFromTime_le_11 (LocalTime tza t)) as Hmonth.
  assert (Hnever : numGt (getMonth tza now) (Some 11) = false).
  { destruct now as [t' |]; [| reflexivity]. cbn [getMonth option_map numGt].
    pose proof (MonthFromTime_le_11 (LocalTime tza t')). apply Z.ltb_ge. lia. }
  destruct (Z.eqb_spec (MonthFromTime (LocalTime tza t) + 1) 12) as [Hdec | Hother].
  - assert (Hm : MonthFromTime (LocalTime tza t) = 11) by lia.
    pose proof (DateFromTime_in_december _ Hm) as Hdate.
    destruct (Z.min (DateFromTime (LocalTime tza t)) 24) as [| p | p] eqn:Hmin;
      try lia; rewrite Z.leb_le; tauto.
  - rewrite Hnever. split; [discriminate | intros [Hm _]; lia].
Qed.

Lemma setHas_setAdd (s : list Z) (d x : Z) :
  setHas (setAdd s d) x = setHas s x || (x =? d).
Proof.
  unfold setAdd. destruct (setHas s d) eqn:Hd.
  - destruct (Z.eqb_spec x d) as [-> | _];
      [rewrite Hd; reflexivity | rewrite orb_false_r; reflexivity].
  - unfold setHas. rewrite existsb_app. cbn [existsb].
    rewrite orb_false_r. reflexivity.
Qed.

Lemma fold_countDay (state : AppState) (days : list Z) (a b : Z) :
  fold_left (countDay state) days (a, b)
  = (a + solvedIn state true days, b + solvedIn state false days).
Proof.
  unfold solvedIn. revert a b. induction days as [| d tl IH]; intros a b.
  - cbn. f_equal; lia.
  - cbn [fold_left filter]. unfold countDay at 2.
    destruct (isPuzzleSolved state d); cbn [andb].
    + destruct (d <=? stage1Days); cbn [Bool.eqb]; rewrite IH;
        cbn [List.length]; f_equal; lia.
    + rewrite IH. reflexivity.
Qed.

Lemma calculateStageProgress_counts (state : AppState) :
  calculateStageProgress state
  = (solvedIn state true allDays, solvedIn state false allDays).
Proof. unfold calculateStageProgress. rewrite fold_countDay. reflexivity. Qed.

Lemma filter_length_le (A : Type) (f g : A -> bool) (l : list A) :
  (List.length (filter (fun x => f x && g x) l) <= List.length (filter g l))%nat.
Proof.
  induction l as [| x tl IH]; [reflexivity |]. cbn [filter].
  destruct (f x), (g x); cbn [andb List.length]; lia.
Qed.

Lemma solvedIn_bounds (state : AppState) (firstStage : bool) :
  0 <= solvedIn state firstStage allDays <= 12.
Proof.
  unfold solvedIn. split; [lia |].
  pose proof (filter_length_le (isPuzzleSolved state)
                (fun day => Bool.eqb (day <=? stage1Days) firstStage) allDays)
    as Hle.
  assert (Hstage : List.length
                     (filter (fun day => Bool.eqb (day <=? stage1Days) firstStage)
                             allDays) = 12%nat)
    by (destruct firstStage; vm_compute; reflexivity).
  lia.
Qed.

(** Marking a day that was not solved before adds one to the count of its
    stage, provided the day is among the days counted. *)
Lemma solvedIn_new_day (state : AppState) (firstStage : bool)
    (day points : Z) (days : list Z) :
  isPuzzleSolved state day = false -> NoDup days ->
  solvedIn (markPuzzleAsSolved state day points) firstStage days
  = solvedIn state firstStage days
    + (if Bool.eqb (day <=? stage1Days) firstStage
       then (if existsb (Z.eqb day) days then 1 else 0) else 0).
Proof.
  intros Hnew Hnd. unfold solvedIn, isPuzzleSolved in *.
  cbn [markPuzzleAsSolved solvedPuzzles].
  induction Hnd as [| d tl Hd Hnd IH].
  - cbn. destruct (Bool.eqb (day <=? stage1Days) firstStage); reflexivity.
  - cbn [filter existsb]. rewrite setHas_setAdd.
    destruct (Z.eqb_spec d day) as [-> | Hne].
    + rewrite Hnew, Z.eqb_refl. cbn [orb andb].
      assert (Habsent : existsb (Z.eqb day) tl = false).
      { destruct (existsb (Z.eqb day) tl) eqn:E; [| reflexivity].
        apply existsb_exists in E. destruct E as (x & Hin & Hx).
        apply Z.eqb_eq in Hx. subst x. contradiction. }
      rewrite Habsent in IH.
      destruct (Bool.eqb (day <=? stage1Days) firstStage);
        cbn [List.length]; lia.
    + replace (day =? d) with false by (symmetry; apply Z.eqb_neq; congruence).
      rewrite orb_false_r. cbn [orb].
      destruct (setHas (solvedPuzzles state) d
                && Bool.eqb (d <=? stage1Days) firstStage);
        cbn [List.length]; lia.
Qed.

(** Marking a day that is solved already changes no count. *)
Lemma solvedIn_old_day (state : AppState) (firstStage : bool)
    (day points : Z) (days : list Z) :
  isPuzzleSolved state day = true ->
  solvedIn (markPuzzleAsSolved state day points) firstStage days
  = solvedIn state firstStage days.
Proof.
  intros Hold. unfold solvedIn, isPuzzleSolved in *.
  cbn [markPuzzleAsSolved solvedPuzzles]. unfold setAdd. rewrite Hold.
  reflexivity.
Qed.

Lemma allDays_spec (day : Z) :
  existsb (Z.eqb day) allDays = true <-> 1 <= day <= 24.
Proof.
  rewrite existsb_exists. unfold allDays. split.
  - intros (x & Hin & Hx). apply Z.eqb_eq in Hx. subst x.
    apply in_map_iff in Hin. destruct Hin as (n & <- & Hn).
    apply in_seq in Hn. change (Z.to_nat totalDays) with 24%nat in Hn. lia.
  - intros Hd. exists day. split; [| apply Z.eqb_refl].
    apply in_map_iff. exists (Z.to_nat day). split; [lia |].
    apply in_seq. change (Z.to_nat totalDays) with 24%nat. lia.
Qed.

Lemma allDays_distinct : NoDup allDays.
Proof.
  change allDays
    with [1; 2; 3; 4; 5; 6; 7; 8; 9; 10; 11; 12; 13; 14; 15; 16; 17; 18; 19;
          20; 21; 22; 23; 24].
  repeat (constructor; [cbn [In]; lia |]). constructor.
Qed.

(** The counters and the counts agree along a run of calls for distinct
    days between 1 and 24. *)
Lemma counters_agree_from (calls : list (Z * Z)) (state : AppState) :
  NoDup (map fst calls) ->
  Forall (fun call => 1 <= fst call <= 24
                      /\ isPuzzleSolved state (fst call) = false) calls ->
  calculateStageProgress state = (stage1Progress state, stage2Progress state) ->
  let final := fold_left (fun st call => markPuzzleAsSolved st (fst call) (snd call))
                 calls state in
  calculateStageProgress final = (stage1Progress final, stage2Progress final).
Proof.
  revert state. induction calls as [| [d p] tl IH]; intros state Hnd Hall Hagree;
    [exact Hagree |].
  cbn [fold_left fst snd map] in *.
  apply NoDup_cons_iff in Hnd. destruct Hnd as [Hfresh Hnd'].
  pose proof (Forall_inv Hall) as [Hrange Hnew].
  pose proof (Forall_inv_tail Hall) as Hall'. cbn [fst] in Hrange, Hnew.
  apply IH; [exact Hnd' | |].
  - apply Forall_forall. intros [d' p'] Hin. cbn [fst].
    pose proof (proj1 (Forall_forall _ _) Hall' _ Hin) as [Hr Hn]. cbn [fst] in *.
    split; [exact Hr |].
    unfold isPuzzleSolved in *. cbn [markPuzzleAsSolved solvedPuzzles].
    rewrite setHas_setAdd, Hn. cbn [orb]. apply Z.eqb_neq. intros ->.
    apply Hfresh. apply in_map_iff. exists (d, p'). auto.
  - rewrite calculateStageProgress_counts in *.
    rewrite (@solvedIn_new_day state true d p allDays Hnew allDays_distinct),
      (@solvedIn_new_day state false d p allDays Hnew allDays_distinct).
    apply allDays_spec in Hrange. rewrite Hrange.
    injection Hagree as H1 H2. rewrite H1, H2.
    cbn [markPuzzleAsSolved stage1Progress stage2Progress].
    destruct (d <=? stage1Days); cbn [Bool.eqb]; f_equal; lia.
Qed.

Lemma counters_sum_from (calls : list (Z * Z)) (state : AppState) :
  let final := fold_left (fun st call => markPuzzleAsSolved st (fst call) (snd call))
                 calls state in
  stage1Progress final + stage2Progress final
  = stage1Progress state + stage2Progress state + Z.of_nat (List.length calls)
  /\ totalPoints final = totalPoints state + fold_right Z.add 0 (map snd calls).
Proof.
  revert state. induction calls as [| [d p] tl IH]; intros state; cbv zeta.
  - cbn. lia.
  - cbn [fold_left fst snd map fold_right List.length].
    destruct (IH (markPuzzleAsSolved state d p)) as [H1 H2]. cbv zeta in H1, H2.
    rewrite H1, H2. cbn [markPuzzleAsSolved stage1Progress stage2Progress totalPoints].
    destruct (d <=? stage1Days); lia.
Qed.

(** X23. The progress counters of the app state, which
    [markPuzzleAsSolved] raises at every call, count the calls: after any
    run of calls their sum is the number of calls and the points add up.
    [calculateStageProgress] counts the solved days of each stage and never
    exceeds 12 per stage. The two agree when every day between 1 and 24 is
    marked at most once; marking a day that is solved already raises a
    counter and leaves the count as it is, so that the counters drift
    apart and can exceed 12. *)
Theorem progress_counters_count_calls (calls : list (Z * Z)) :
  let final := afterCalls calls in
  stage1Progress final + stage2Progress final = Z.of_nat (List.length calls)
  /\ totalPoints final = fold_right Z.add 0 (map snd calls)
  /\ (0 <= fst (calculateStageProgress final) <= 12
      /\ 0 <= snd (calculateStageProgress final) <= 12)
  /\ (NoDup (map fst calls) ->
      Forall (fun call => 1 <= fst call <= 24) calls ->
      calculateStageProgress final
      = (stage1Progress final, stage2Progress final))
  /\ (forall day points : Z,
        isPuzzleSolved final day = true ->
        calculateStageProgress (markPuzzleAsSolved final day points)
        = calculateStageProgress final
        /\ stage1Progress (markPuzzleAsSolved final day points)
           + stage2Progress (markPuzzleAsSolved final day points)
           = stage1Progress final + stage2Progress final + 1).
Proof.
  cbv zeta. unfold afterCalls.
  destruct (counters_sum_from calls initialState) as [Hsum Hpoints].
  cbv zeta in Hsum, Hpoints. cbn [initialState stage1Progress stage2Progress
                                   totalPoints] in Hsum, Hpoints.
  split; [lia |]. split; [lia |]. split; [| split].
  - rewrite calculateStageProgress_counts. cbn [fst snd].
    split; apply solvedIn_bounds.
  - intros Hnd Hrange. apply counters_agree_from; [exact Hnd | | reflexivity].
    apply Forall_forall. intros call Hin.
    split; [exact (proj1 (Forall_forall _ _) Hrange call Hin) | reflexivity].
  - intros day points Hold. split.
    + rewrite !calculateStageProgress_counts.
      rewrite (@solvedIn_old_day _ true day points allDays Hold),
        (@solvedIn_old_day _ false day points allDays Hold). reflexivity.
    + cbn [markPuzzleAsSolved stage1Progress stage2Progress].
      destruct (day <=? stage1Days); lia.
Qed.

End CalendarFacts.

(* ===================================================================== *)
(** * Properties of the manual summer-time rule (TimeBerlin) *)
(* ===================================================================== *)

Section SummerTime.
Local Open Scope Z_scope.
Import TimeBerlin_dst.

Lemma monthStart_bounds (mn leap : Z) :
  0 <= leap <= 1 -> 0 <= monthStart mn leap <= 335.
Proof.
  intros Hl. unfold monthStart.
  destruct mn as [| p | p]; try lia.
  repeat (destruct p as [p | p |]; try lia).
Qed.

Lemma MakeDay_bounds (year month date : Z) :
  100 <= year <= 9999 -> 0 <= month <= 12 -> -31 <= date <= 31 ->
  -700000 <= MakeDay year month date <= 3000000.
Proof.
  intros Hy Hm Hd. unfold MakeDay. cbv zeta.
  assert (Hleap : 0 <= (if isLeap (year + month / 12) then 1 else 0) <= 1)
    by (destruct (isLeap (year + month / 12)); lia).
  pose proof (monthStart_bounds (month mod 12) Hleap) as Hms.
  set (ms := monthStart (month mod 12)
               (if isLeap (year + month / 12) then 1 else 0)) in *.
  assert (Hym : 100 <= year + month / 12 <= 10000).
  { assert (0 <= month / 12 <= 1).
    { split; [apply Z.div_pos; lia | apply Z.div_le_upper_bound; lia]. }
    lia. }
  set (ym := year + month / 12) in *.
  unfold DayFromYear. clearbody ms ym. clear Hleap.
  Z.div_mod_to_equations. lia.
Qed.

Lemma WeekDay_bounds (t : Z) : 0 <= WeekDay t <= 6.
Proof.
  unfold WeekDay. pose proof (Z.mod_pos_bound (Day t + 4) 7 ltac:(lia)). lia.
Qed.

(** The value of [getLastSunday]: midnight, local time, of the day that
    lies the weekday number of the month's last day before that day. *)
Lemma getLastSunday_value (tza year month : Z) :
  - msPerDay < tza < msPerDay ->
  100 <= year <= 9999 -> 1 <= month <= 12 ->
  getLastSunday tza year month
  = Some (UTC tza ((MakeDay year month 0 - (MakeDay year month 0 + 4) mod 7)
                   * msPerDay)).
Proof.
  intros Htz Hy Hm. unfold getLastSunday. cbv zeta.
  pose proof (@MakeDay_bounds year month 0 Hy ltac:(lia) ltac:(lia)) as Hb.
  set (last := MakeDay year month 0) in *.
  assert (Hdate : newDate tza year month 0 0 0 0 0
                  = Some (UTC tza (last * msPerDay))).
  { unfold newDate.
    replace ((0 <=? year) && (year <=? 99)) with false
      by (symmetry; apply andb_false_iff; right; apply Z.leb_gt; lia).
    fold last. unfold MakeDate, MakeTime. rewrite !Z.mul_0_l, !Z.add_0_r.
    apply TimeClip_in_range. unfold UTC, msPerDay in *. lia. }
  rewrite Hdate. unfold getDay, getDate, option_map.
  rewrite LocalTime_UTC. unfold WeekDay. rewrite Day_of_day_start.
  pose proof (Z.mod_pos_bound (last + 4) 7 ltac:(lia)) as Hw.
  set (w := (last + 4) mod 7) in *.
  assert (Hback : (if numEq (Some w) (Some 0) then Some 0 else Some w) = Some w).
  { cbn [numEq]. destruct (Z.eqb_spec w 0) as [-> | _]; reflexivity. }
  rewrite Hback. cbn [numSub]. unfold setDate. cbv zeta.
  rewrite LocalTime_UTC.
  replace (DateFromTime (last * msPerDay) - w)
    with (DateFromTime (last * msPerDay) + - w) by lia.
  rewrite MakeDay_of_fields, Day_of_day_start.
  assert (Hzero : TimeWithinDay (last * msPerDay) = 0).
  { unfold TimeWithinDay. apply Z.mod_mul. unfold msPerDay. lia. }
  rewrite Hzero. unfold MakeDate. rewrite Z.add_0_r.
  replace (last + - w) with (last - w) by lia.
  apply TimeClip_in_range. unfold UTC, msPerDay in *. lia.
Qed.

(** X24. [getLastSunday(year, month)] returns the last Sunday of the
    month (counted from 1), at midnight local time: the returned day is a
    Sunday and lies within the seven days before the first of the
    following month. *)
Theorem getLastSunday_is_the_last_sunday (tza year month : Z) :
  - msPerDay < tza < msPerDay ->
  100 <= year <= 9999 ->
  1 <= month <= 12 ->
  exists sunday following : Z,
    getLastSunday tza year month = Some sunday
    /\ newDate tza year month 1 0 0 0 0 = Some following
    /\ getDay tza (Some sunday) = Some 0
    /\ getHours tza (Some sunday) = Some 0
    /\ getMinutes tza (Some sunday) = Some 0
    /\ following - 7 * msPerDay <= sunday < following.
Proof.
  intros Htz Hy Hm.
  pose proof (@MakeDay_bounds year month 0 Hy ltac:(lia) ltac:(lia)) as Hb.
  pose proof (Z.mod_pos_bound (MakeDay year month 0 + 4) 7 ltac:(lia)) as Hw.
  assert (Hnext : MakeDay year month 1 = MakeDay year month 0 + 1)
    by (unfold MakeDay; lia).
  set (last := MakeDay year month 0) in *.
  set (w := (last + 4) mod 7) in *.
  exists (UTC tza ((last - w) * msPerDay)), (UTC tza ((last + 1) * msPerDay)).
  split; [apply getLastSunday_value; assumption |]. split.
  { unfold newDate.
    replace ((0 <=? year) && (year <=? 99)) with false
      by (symmetry; apply andb_false_iff; right; apply Z.leb_gt; lia).
    rewrite Hnext. unfold MakeDate, MakeTime. rewrite !Z.mul_0_l, !Z.add_0_r.
    apply TimeClip_in_range. unfold UTC, msPerDay in *. lia. }
  unfold getDay, getHours, getMinutes, option_map. rewrite LocalTime_UTC.
  destruct (@clock_fields (last - w) 0 0 0 0) as (H1 & H2 & _); try lia.
  cbv zeta in H1, H2. unfold MakeTime in H1, H2.
  rewrite !Z.mul_0_l, !Z.add_0_r in H1, H2. rewrite H1, H2.
  split; [| split; [reflexivity | split; [reflexivity |]]].
  - f_equal. unfold WeekDay. rewrite Day_of_day_start. subst w.
    clear. Z.div_mod_to_equations. lia.
  - unfold UTC, msPerDay. lia.
Qed.

(** October 2025 in a host on Central European Time: the last Sunday is
    the 26th. *)
Lemma getLastSunday_is_the_last_sunday_witness :
  (- msPerDay < CET < msPerDay /\ 100 <= 2025 <= 9999 /\ 1 <= 10 <= 12)
  /\ exists sunday following : Z,
       getLastSunday CET 2025 10 = Some sunday
       /\ newDate CET 2025 10 1 0 0 0 0 = Some following
       /\ getDay CET (Some sunday) = Some 0
       /\ getHours CET (Some sunday) = Some 0
       /\ getMinutes CET (Some sunday) = Some 0
       /\ following - 7 * msPerDay <= sunday < following.
Proof.
  assert (Htz : - msPerDay < CET < msPerDay) by (unfold msPerDay, CET; lia).
  assert (Hy : 100 <= 2025 <= 9999) by lia.
  assert (Hm : 1 <= 10 <= 12) by lia.
  split; [exact (conj Htz (conj Hy Hm)) |].
  exact (@getLastSunday_is_the_last_sunday CET 2025 10 Htz Hy Hm).
Defined.

Lemma YearFromTime_2025 (t : Z) :
  DayFromYear 2025 * msPerDay <= t < DayFromYear 2026 * msPerDay ->
  YearFromTime t = 2025.
Proof.
  intros Hyear. pose proof (@Day_bounds _ _ _ Hyear) as Hd.
  assert (Hlo : DayFromYear 2025 = 20089) by (vm_compute; reflexivity).
  assert (Hhi : DayFromYear 2026 = 20454) by (vm_compute; reflexivity).
  rewrite Hlo, Hhi in Hd.
  assert (Hall : forallb (fun k => YearFromDay (20089 + Z.of_nat k) =? 2025)
                         (seq 0 365) = true) by (vm_compute; reflexivity).
  rewrite forallb_forall in Hall.
  specialize (Hall (Z.to_nat (Day t - 20089))).
  replace (20089 + Z.of_nat (Z.to_nat (Day t - 20089))) with (Day t) in Hall
    by lia.
  unfold YearFromTime. apply Z.eqb_eq, Hall, in_seq. lia.
Qed.

(** The last Sunday of a month of 2025, with the clock set to [hour]. *)
Lemma getLastSunday_2025 (tza month sunday hour : Z) :
  - msPerDay < tza < msPerDay ->
  1 <= month <= 12 -> 0 <= hour < 24 ->
  MakeDay 2025 month 0 - (MakeDay 2025 month 0 + 4) mod 7 = sunday ->
  setHours tza (getLastSunday tza 2025 month) hour 0 0 0
  = Some (UTC tza (sunday * msPerDay + hour * msPerHour)).
Proof.
  intros Htz Hm Hh Hs.
  rewrite getLastSunday_value by (assumption || lia). rewrite Hs.
  pose proof (@MakeDay_bounds 2025 month 0 ltac:(lia) ltac:(lia) ltac:(lia)).
  pose proof (Z.mod_pos_bound (MakeDay 2025 month 0 + 4) 7 ltac:(lia)).
  unfold setHours. cbv zeta. rewrite LocalTime_UTC, Day_of_day_start.
  unfold MakeDate, MakeTime. rewrite !Z.mul_0_l, !Z.add_0_r.
  apply TimeClip_in_range. unfold UTC, msPerDay, msPerHour in *. lia.
Qed.

Lemma newDate_2025 (tza month date hour day : Z) :
  - msPerDay < tza < msPerDay ->
  0 <= hour < 24 -> MakeDay 2025 month date = day -> 20000 <= day <= 21000 ->
  newDate tza 2025 month date hour 0 0 0
  = Some (UTC tza (day * msPerDay + hour * msPerHour)).
Proof.
  intros Htz Hh Hd Hr. unfold newDate.
  change ((0 <=? 2025) && (2025 <=? 99)) with false. cbv iota.
  rewrite Hd. unfold MakeDate, MakeTime. rewrite !Z.mul_0_l, !Z.add_0_r.
  apply TimeClip_in_range. unfold UTC, msPerDay, msPerHour in *. lia.
Qed.

Lemma summer_time_2025 (tza : Z) :
  - msPerDay < tza < msPerDay ->
  setHours tza (getLastSunday tza 2025 3) 2 0 0 0
  = newDate tza 2025 2 30 2 0 0 0
  /\ setHours tza (getLastSunday tza 2025 10) 3 0 0 0
     = newDate tza 2025 9 26 3 0 0 0
  /\ newDate tza 2025 9 26 3 0 0 0
     = Some (UTC tza (20387 * msPerDay + 3 * msPerHour)).
Proof.
  intros Htz.
  assert (E1 : MakeDay 2025 3 0 - (MakeDay 2025 3 0 + 4) mod 7 = 20177)
    by (vm_compute; reflexivity).
  assert (E2 : MakeDay 2025 10 0 - (MakeDay 2025 10 0 + 4) mod 7 = 20387)
    by (vm_compute; reflexivity).
  assert (E3 : MakeDay 2025 2 30 = 20177) by (vm_compute; reflexivity).
  assert (E4 : MakeDay 2025 9 26 = 20387) by (vm_compute; reflexivity).
  rewrite (@getLastSunday_2025 tza 3 20177 2 Htz ltac:(lia) ltac:(lia) E1).
  rewrite (@getLastSunday_2025 tza 10 20387 3 Htz ltac:(lia) ltac:(lia) E2).
  rewrite (@newDate_2025 tza 2 30 2 20177 Htz ltac:(lia) E3 ltac:(lia)).
  rewrite (@newDate_2025 tza 9 26 3 20387 Htz ltac:(lia) E4 ltac:(lia)).
  repeat split; reflexivity.
Qed.

(** X25. In the year 2025 [manualDSTCheck] holds exactly from 30 March,
    02:00, up to but not including 26 October, 03:00, local time; so it is
    false on every day of the contest. *)
Theorem manualDSTCheck_in_2025 (tza t : Z) :
  - msPerDay < tza < msPerDay ->
  DayFromYear 2025 * msPerDay <= LocalTime tza t < DayFromYear 2026 * msPerDay ->
  manualDSTCheck tza (Some t)
  = numGe (Some t) (newDate tza 2025 2 30 2 0 0 0)
    && numLt (Some t) (newDate tza 2025 9 26 3 0 0 0)
  /\ (20423 * msPerDay <= LocalTime tza t -> manualDSTCheck tza (Some t) = false).
Proof.
  intros Htz Hyear.
  pose proof (YearFromTime_2025 Hyear) as Hy.
  destruct (summer_time_2025 Htz) as (Hstart & Hend & Hvalue).
  assert (Hcheck : manualDSTCheck tza (Some t)
                   = numGe (Some t) (newDate tza 2025 2 30 2 0 0 0)
                     && numLt (Some t) (newDate tza 2025 9 26 3 0 0 0)).
  { unfold manualDSTCheck. cbn [getFullYear option_map]. rewrite Hy. cbv zeta.
    rewrite Hstart, Hend. reflexivity. }
  split; [exact Hcheck |].
  intros Hdec. rewrite Hcheck, Hvalue. cbn [numLt].
  replace (t <? UTC tza (20387 * msPerDay + 3 * msPerHour)) with false;
    [apply andb_false_r |].
  symmetry. apply Z.ltb_ge. unfold UTC, LocalTime, msPerDay, msPerHour in *. lia.
Qed.

(** In a host on Central European Time, at noon of 5 December 2025. *)
Lemma manualDSTCheck_in_2025_witness :
  (- msPerDay < CET < msPerDay
   /\ DayFromYear 2025 * msPerDay <= LocalTime CET 1764932400000
      < DayFromYear 2026 * msPerDay)
  /\ manualDSTCheck CET (Some 1764932400000) = false.
Proof.
  assert (Htz : - msPerDay < CET < msPerDay) by (unfold msPerDay, CET; lia).
  assert (Hyear : DayFromYear 2025 * msPerDay <= LocalTime CET 1764932400000
                  < DayFromYear 2026 * msPerDay)
    by (vm_compute; split; [discriminate | reflexivity]).
  split; [exact (conj Htz Hyear) |].
  apply (proj2 (@manualDSTCheck_in_2025 CET 1764932400000 Htz Hyear)).
  vm_compute. discriminate.
Defined.

End SummerTime.

(* ===================================================================== *)
(** * The countdown of WR_TIME and the doors *)
(* ===================================================================== *)

Section CountdownAndDoors.
Local Open Scope Z_scope.
Import WR_TIME WR_TIME_clock.

(** The instant that [getNextDailyUnlock] returns: 09:00 of today before
    09:00, of tomorrow from 09:00 on. *)
Lemma getNextDailyUnlock_value (tza : Z) (iso : jsstring) (now : Z) :
  - msPerDay < tza < msPerDay ->
  Z.abs now <= 8640000000000000 - 3 * msPerDay ->
  getNextDailyUnlock tza (WR_TIME_CFG_with iso) (Some now)
  = Some (UTC tza ((Day (LocalTime tza now)
                    + (if TimeWithinDay (LocalTime tza now) <? 9 * msPerHour
                       then 0 else 1)) * msPerDay + 9 * msPerHour)).
Proof.
  intros Htz Hnow.
  destruct (time_as_day_and_rest (LocalTime tza now)) as [Hsplit Hrest].
  set (d := Day (LocalTime tza now)) in *.
  set (w := TimeWithinDay (LocalTime tza now)) in *.
  assert (Hnine : MakeTime 9 0 0 0 = 9 * msPerHour)
    by (unfold MakeTime; lia).
  assert (Hin : 0 <= 9 * msPerHour < msPerDay)
    by (unfold msPerDay, msPerHour; lia).
  assert (Htoday : setHours tza (Some now) 9 0 0 0
                   = Some (UTC tza (d * msPerDay + 9 * msPerHour))).
  { unfold setHours. cbv zeta. fold d. unfold MakeDate. rewrite Hnine.
    apply TimeClip_in_range.
    unfold UTC, LocalTime, msPerDay, msPerHour in *. lia. }
  unfold getNextDailyUnlock.
  cbn [dailyUnlockHour dailyUnlockMinute WR_TIME_CFG_with]. cbv zeta.
  rewrite Htoday. cbn [numLt].
  destruct (Z.ltb_spec now (UTC tza (d * msPerDay + 9 * msPerHour)))
    as [Hbefore | Hafter];
    destruct (Z.ltb_spec w (9 * msPerHour)) as [Hw | Hw];
    try (exfalso; unfold UTC, LocalTime, msPerDay, msPerHour in *; lia).
  - rewrite Z.add_0_r. reflexivity.
  - unfold setDate, getDate, option_map, numAdd. cbv zeta.
    rewrite LocalTime_UTC, MakeDay_of_fields.
    rewrite (Day_of_time_in_day d Hin), (TimeWithinDay_of_time_in_day d Hin).
    unfold MakeDate. apply TimeClip_in_range.
    unfold UTC, LocalTime, msPerDay, msPerHour in *. lia.
Qed.

(** X26. During the contest the countdown of WR_TIME runs to the release
    of the next door: from 09:00 on 30 November 2025 until 09:00 on 24
    December, the instant returned by [getNextDailyUnlock] is the release
    date of a door [n]; every door before [n] is unlocked at [now], and
    door [n] itself is still locked unless it is the dev-test door. *)
Theorem countdown_runs_to_the_next_door (tza : Z) (iso : jsstring) (now : Z) :
  - msPerDay < tza < msPerDay ->
  20422 * msPerDay + 9 * msPerHour <= LocalTime tza now
  < 20446 * msPerDay + 9 * msPerHour ->
  exists n : Z,
    1 <= n <= 24
    /\ getNextDailyUnlock tza (WR_TIME_CFG_with iso) (Some now)
       = getDoorUnlockDate tza (WR_TIME_CFG_with iso) n
    /\ (n <> devTestDay (WR_TIME_CFG_with iso) ->
        isDoorUnlocked tza (WR_TIME_CFG_with iso) n (Some now) = false)
    /\ (forall m : Z, 1 <= m < n ->
          isDoorUnlocked tza (WR_TIME_CFG_with iso) m (Some now) = true).
Proof.
  intros Htz Hrange.
  destruct (time_as_day_and_rest (LocalTime tza now)) as [Hsplit Hrest].
  assert (Hnow : Z.abs now <= 8640000000000000 - 3 * msPerDay)
    by (unfold LocalTime, msPerDay, msPerHour in *; lia).
  pose proof (@getNextDailyUnlock_value tza iso now Htz Hnow) as Hnext.
  set (d := Day (LocalTime tza now)) in *.
  set (w := TimeWithinDay (LocalTime tza now)) in *.
  set (step := if w <? 9 * msPerHour then 0 else 1) in *.
  assert (Hstep : (step = 0 /\ w < 9 * msPerHour)
                  \/ (step = 1 /\ 9 * msPerHour <= w)).
  { subst step. destruct (Z.ltb_spec w (9 * msPerHour)); [left | right]; auto. }
  assert (Hn : 1 <= d + step - 20422 <= 24)
    by (unfold msPerDay, msPerHour in *; lia).
  exists (d + step - 20422). split; [exact Hn |].
  pose proof (getDoorUnlockDate_value iso Htz Hn) as Hdoor.
  replace (20422 + (d + step - 20422)) with (d + step) in Hdoor by lia.
  split; [rewrite Hnext, Hdoor; reflexivity |]. split.
  - intros Hdev. unfold isDoorUnlocked.
    destruct (Z.eqb_spec (d + step - 20422) (devTestDay (WR_TIME_CFG_with iso)));
      [contradiction |].
    cbn [andb]. cbv zeta. rewrite Hdoor. cbn [numGe]. apply Z.leb_gt.
    unfold UTC, LocalTime, msPerDay, msPerHour in *. lia.
  - intros m Hm.
    assert (Hm' : 1 <= m <= 24) by lia.
    unfold isDoorUnlocked.
    destruct ((m =? devTestDay (WR_TIME_CFG_with iso))
              && numGe (Some now)
                   (newDateFromString tza
                      (devTestUnlockISO (WR_TIME_CFG_with iso))));
      [reflexivity |].
    cbv zeta. rewrite (getDoorUnlockDate_value iso Htz Hm'). cbn [numGe].
    apply Z.leb_le. unfold UTC, LocalTime, msPerDay, msPerHour in *. lia.
Qed.

(** In a host on Central European Time, at 07:30 on 5 December 2025: the
    countdown runs to the release of door 5. *)
Lemma countdown_runs_to_the_next_door_witness :
  (- msPerDay < CET < msPerDay
   /\ 20422 * msPerDay + 9 * msPerHour <= LocalTime CET 1764916200000
      < 20446 * msPerDay + 9 * msPerHour)
  /\ exists n : Z,
       1 <= n <= 24
       /\ getNextDailyUnlock CET WR_TIME_CFG (Some 1764916200000)
          = getDoorUnlockDate CET WR_TIME_CFG n
       /\ (n <> devTestDay WR_TIME_CFG ->
           isDoorUnlocked CET WR_TIME_CFG n (Some 1764916200000) = false)
       /\ (forall m : Z, 1 <= m < n ->
             isDoorUnlocked CET WR_TIME_CFG m (Some 1764916200000) = true).
Proof.
  assert (Htz : - msPerDay < CET < msPerDay) by (unfold msPerDay, CET; lia).
  assert (Hrange : 20422 * msPerDay + 9 * msPerHour
                   <= LocalTime CET 1764916200000
                   < 20446 * msPerDay + 9 * msPerHour)
    by (unfold LocalTime, CET, msPerDay, msPerHour; lia).
  split; [exact (conj Htz Hrange) |].
  exact (@countdown_runs_to_the_next_door CET (js "2025-11-14T18:35:00+01:00")
           1764916200000 Htz Hrange).
Defined.

End CountdownAndDoors.
